(** * GitReportTool: commit extraction, change classification and aggregation

    A shallow embedding of [src/services/gitService.js] and
    [src/services/reportService.js], and the properties of the report model
    they build.

    Modelling conventions.
    - JavaScript strings are [string]s whose characters are the code units
      below 256; the parsers only inspect tab, line feed, white space, digits
      and ASCII letters.
    - Counts of commits, files and change records are [nat]: they are
      bounded by the lengths of arrays, far inside the exact range of an IEEE
      double. So are the line counts of a diff summary, which count the lines
      of a diff, and the per-author sums of them.
    - The line totals [lineChanges], [totalAdditions] and [totalDeletions] are
      [Number.t]: non-negative integers in double arithmetic. They take in
      the numerals of the stat text, which holds the commit message, so that
      any numeral can occur; [parseInt] and every addition round to the
      nearest double.
    - The plain objects used as dictionaries ([fileTypes], [commitsByAuthor])
      are finite maps [gmap string _] of their own properties. The loop of the
      analysis looks an author up in [commitsByAuthor] with the names
      inherited from [Object.prototype] in sight ([objectPrototypeNames]).
    - The object built by [_.countBy] is enumerated with [Object.entries], so
      its key order is observable: it is an insertion-ordered association
      list, and [objectEntries] applies the enumeration order of ordinary
      objects (array-index keys first, in ascending numeric order, then the
      other keys in creation order).
    - Every [await git.xxx(...)] may reject; the outcome of a query is a
      [Query]: the value it resolves to, or the rejection with its message. *)

From Stdlib Require Import Ascii String.
From stdpp Require Import gmap strings list sorting.

Open Scope string_scope.
Open Scope nat_scope.

Set Warnings "-clear-no-such-hyp".

(** ** Strings *)

Definition TAB : ascii := "009"%char.
Definition LF : ascii := "010"%char.

(** [String.prototype.split(sep)] for a one-character separator. *)
Fixpoint split (sep : ascii) (s : string) : list string :=
  match s with
  | EmptyString => [EmptyString]
  | String c s' =>
      if Ascii.eqb c sep then EmptyString :: split sep s'
      else match split sep s' with
           | [] => [String c EmptyString]
           | p :: ps => String c p :: ps
           end
  end.

(** [Array.prototype.join(sep)] on an array of strings. *)
Fixpoint join (sep : string) (l : list string) : string :=
  match l with
  | [] => ""
  | [x] => x
  | x :: l' => x +:+ sep +:+ join sep l'
  end.

(** [s.includes(c)] for a one-character [c]. *)
Fixpoint occurs (c : ascii) (s : string) : bool :=
  match s with
  | EmptyString => false
  | String b s' => Ascii.eqb b c || occurs c s'
  end.

(** WhiteSpace and LineTerminator code units below 256: TAB, LF, VT, FF, CR,
    SP and NBSP. *)
Definition isWhiteSpace (c : ascii) : bool :=
  let n := nat_of_ascii c in
  (9 <=? n) && (n <=? 13) || (n =? 32) || (n =? 160).

Fixpoint trimStart (s : string) : string :=
  match s with
  | EmptyString => EmptyString
  | String c s' => if isWhiteSpace c then trimStart s' else s
  end.

Fixpoint trimEnd (s : string) : string :=
  match s with
  | EmptyString => EmptyString
  | String c s' =>
      match trimEnd s' with
      | EmptyString => if isWhiteSpace c then EmptyString else String c EmptyString
      | t => String c t
      end
  end.

(** [String.prototype.trim]. *)
Definition trim (s : string) : string := trimEnd (trimStart s).

(** The test [line.trim() !== ''] of both parsers. *)
Definition nonBlank (line : string) : bool := negb (String.eqb (trim line) "").

(** [output.split('\n').filter(line => line.trim() !== '')]. *)
Definition lines (output : string) : list string :=
  filter (λ line, nonBlank line = true) (split LF output).

(** ** Decimal numerals *)

Definition isDigit (c : ascii) : bool :=
  let n := nat_of_ascii c in (48 <=? n) && (n <=? 57).

Definition digitValue (c : ascii) : nat := nat_of_ascii c - 48.

(** The value of a decimal numeral as a binary number, digit by digit. *)
Definition digitStep (acc : N) (c : ascii) : N := (10 * acc + N.of_nat (digitValue c))%N.

Definition parseIntN (s : string) : N :=
  fold_left digitStep (list_ascii_of_string s) 0%N.

(** ** Numbers

    The non-negative integers among the IEEE doubles, and [Infinity]: the
    values that [parseInt] of a digit string and sums of such values take. *)
Module Number.

Inductive t := Finite (n : N) | Infinity.

(** The double nearest to [n], a tie going to the even significand of 53
    bits; [Infinity] when that is 2^1024 or more. Below 2^53 every integer is
    a double. *)
Definition round (n : N) : t :=
  if (n <? 2 ^ 53)%N then Finite n
  else
    let e := (N.log2 n - 52)%N in
    let q := N.shiftr n e in
    let r := N.land n (N.ones e) in
    let half := (2 ^ (e - 1))%N in
    let q' := if (half <? r)%N || ((r =? half)%N && N.odd q) then (q + 1)%N else q in
    let m := N.shiftl q' e in
    if (m <? 2 ^ 1024)%N then Finite m else Infinity.

(** [a + b]. *)
Definition add (a b : t) : t :=
  match a, b with
  | Finite x, Finite y => round (x + y)
  | _, _ => Infinity
  end.

(** A count of lines read as a number. *)
Definition ofNat (n : nat) : t := round (N.of_nat n).

(** [l.reduce((a, b) => a + b, 0)]: the numbers added up from the left. *)
Definition sum (l : list t) : t := foldl add (Finite 0) l.

(** The sum of the numbers as integers, when none is [Infinity]. *)
Fixpoint total (l : list t) : option N :=
  match l with
  | [] => Some 0%N
  | Finite n :: l' => (λ m, (n + m)%N) <$> total l'
  | Infinity :: _ => None
  end.

(** The numbers add up to less than 2^53: no addition of them rounds. *)
Definition exact (l : list t) : bool :=
  match total l with
  | Some m => (m <? 2 ^ 53)%N
  | None => false
  end.

End Number.

Global Instance Number_eq_dec : EqDecision Number.t.
Proof. solve_decision. Defined.

Coercion Number.ofNat : nat >-> Number.t.

(** [parseInt(s, 10)] on a string of decimal digits: the double nearest to
    the value of the numeral, as V8 computes it (the language allows an
    approximation after the twentieth significant digit). *)
Definition parseInt (s : string) : Number.t := Number.round (parseIntN s).

(** The longest prefix of digits, [\d+] or nothing, and what follows it. *)
Fixpoint takeDigits (s : string) : string * string :=
  match s with
  | EmptyString => (EmptyString, EmptyString)
  | String c s' =>
      if isDigit c then let '(d, r) := takeDigits s' in (String c d, r)
      else (EmptyString, s)
  end.

(** Match a literal at the head of [s]; the rest of [s] on success. *)
Fixpoint matchLit (lit s : string) : option string :=
  match lit, s with
  | EmptyString, _ => Some s
  | String a lit', String b s' => if Ascii.eqb a b then matchLit lit' s' else None
  | String _ _, EmptyString => None
  end.

(** An optional single character, taken when present. *)
Definition optChar (c : ascii) (s : string) : string :=
  match s with
  | String b s' => if Ascii.eqb c b then s' else s
  | EmptyString => s
  end.

(** ** Change classification (gitService.js, lines 179-228) *)

(** The [type] tag of a changed file: '新增', '修改', '删除', '重命名',
    '复制', '未知'. *)
Inductive ChangeType := Added | Modified | Deleted | Renamed | Copied | Unknown.

Global Instance ChangeType_eq_dec : EqDecision ChangeType.
Proof. solve_decision. Defined.

(** The records returned by both parsers: [{ path, type, status }]. *)
Record ChangedFile := {
  path : string;
  type : ChangeType;
  status : string
}.

(** [parseFirstCommitFiles]: the second tab-separated field of each line is
    the path, every file is '新增' with status 'A'. *)
Definition parseFirstCommitFiles (output : string) : list ChangedFile :=
  map (λ line,
         let parts := split TAB line in
         let filePath :=
           if decide (1 < length parts) then default "" (parts !! 1) else "" in
         {| path := filePath; type := Added; status := "A" |})
      (lines output).

(** The [switch (status.charAt(0))] of [parseGitDiff]. *)
Definition changeTypeOf (status : string) : ChangeType :=
  match status with
  | String c _ =>
      if Ascii.eqb c "A" then Added
      else if Ascii.eqb c "M" then Modified
      else if Ascii.eqb c "D" then Deleted
      else if Ascii.eqb c "R" then Renamed
      else if Ascii.eqb c "C" then Copied
      else Unknown
  | EmptyString => Unknown
  end.

(** [parseGitDiff]: [const [status, ...fileParts] = line.split('\t')], the
    path is [fileParts.join('\t')]. *)
Definition parseGitDiff (diffOutput : string) : list ChangedFile :=
  map (λ line,
         match split TAB line with
         | st :: fileParts =>
             {| path := join (String TAB "") fileParts;
                type := changeTypeOf st; status := st |}
         | [] => {| path := ""; type := Unknown; status := "" |}
         end)
      (lines diffOutput).

(** ** The stat line of a root commit (gitService.js, line 276)

    [show.match(/(\d+) files? changed(?:, (\d+) insertions?\(\+\))?(?:, (\d+) deletions?\(-\))?/)].
    Every quantifier of the pattern is followed by a literal that none of the
    characters it could give back matches (a digit run by a space, the
    optional [s] by a space or a parenthesis), so the backtracking matcher
    takes the greedy choice or fails: one try per start position, leftmost
    first. *)

(** One optional clause [, (\d+) <word>s?<tail>]: the digits and the rest. *)
Definition statClause (word tail s : string) : option (string * string) :=
  r ← matchLit ", " s;
  let '(d, r) := takeDigits r in
  if String.eqb d "" then None
  else r ← matchLit word r;
       r ← matchLit tail (optChar "s" r);
       Some (d, r).

(** The pattern anchored at the head of [s]: capture groups 2 and 3. *)
Definition statMatchHere (s : string) : option (option string * option string) :=
  let '(n, r) := takeDigits s in
  if String.eqb n "" then None
  else r ← matchLit " file" r;
       r ← matchLit " changed" (optChar "s" r);
       let '(ins, r) :=
         match statClause " insertion" "(+)" r with
         | Some (d, r') => (Some d, r')
         | None => (None, r)
         end in
       Some (ins, fst <$> statClause " deletion" "(-)" r).

(** [show.match(...)]: the leftmost start position that matches. *)
Fixpoint statMatch (show : string) : option (option string * option string) :=
  match statMatchHere show with
  | Some m => Some m
  | None => match show with
            | EmptyString => None
            | String _ show' => statMatch show'
            end
  end.

(** [parseInt(group || 0, 10)]: an absent group counts as zero. *)
Definition groupOrZero (g : option string) : Number.t :=
  match g with Some d => parseInt d | None => Number.Finite 0 end.

(** ** Ordered objects, [_.countBy], [_.uniqBy], [Array.prototype.sort] *)

(** [result[key]++] or [result[key] = 1] of [_.countBy]: a new key is created
    last. *)
Fixpoint bump (key : string) (o : list (string * nat)) : list (string * nat) :=
  match o with
  | [] => [(key, 1)]
  | (k, n) :: o' =>
      if String.eqb k key then (k, S n) :: o' else (k, n) :: bump key o'
  end.

(** [_.countBy(collection, iteratee)], keys in creation order. *)
Definition countBy {A} (f : A → string) (l : list A) : list (string * nat) :=
  foldl (λ o x, bump (f x) o) [] l.

(** A key is an array index when it is the canonical decimal numeral of an
    integer between 0 and 2^32 - 2. *)
Definition arrayIndex (key : string) : option N :=
  match key with
  | EmptyString => None
  | String c rest =>
      if forallb isDigit (list_ascii_of_string key)
         && (negb (Ascii.eqb c "0") || String.eqb rest "")
         && (String.length key <=? 10)
      then let n := parseIntN key in
           if (n <? 2 ^ 32 - 1)%N then Some n else None
      else None
  end.

Definition isArrayIndex (key : string) : bool := bool_decide (is_Some (arrayIndex key)).

(** A stable sort with a JavaScript comparator: [x] stays in front of [y]
    when [cmp x y <= 0]. *)
Fixpoint insertSorted {A} (cmp : A → A → Z) (x : A) (l : list A) : list A :=
  match l with
  | [] => [x]
  | y :: l' => if (cmp x y <=? 0)%Z then x :: l else y :: insertSorted cmp x l'
  end.

Definition sortWith {A} (cmp : A → A → Z) (l : list A) : list A :=
  foldr (insertSorted cmp) [] l.

Definition indexOrder (a b : string * nat) : Z :=
  (Z.of_N (default 0%N (arrayIndex a.1)) - Z.of_N (default 0%N (arrayIndex b.1)))%Z.

(** [Object.entries(o)] of an ordinary object: its array-index keys in
    ascending numeric order, then its other keys in creation order. *)
Definition objectEntries (o : list (string * nat)) : list (string * nat) :=
  sortWith indexOrder (filter (λ e, isArrayIndex e.1 = true) o)
  ++ filter (λ e, isArrayIndex e.1 = false) o.

(** [_.uniqBy(array, iteratee)]: the first element of every key is kept;
    [seen] are the keys met so far. *)
Fixpoint uniqFrom {A} (f : A → string) (seen : list string) (l : list A) : list A :=
  match l with
  | [] => []
  | x :: l' =>
      if bool_decide (f x ∈ seen) then uniqFrom f seen l'
      else x :: uniqFrom f (f x :: seen) l'
  end.

Definition uniqBy {A} (f : A → string) (l : list A) : list A := uniqFrom f [] l.

(** [o[key] || 0] on the object of [_.countBy]. *)
Fixpoint getCount (o : list (string * nat)) (key : string) : nat :=
  match o with
  | [] => 0
  | (k, n) :: o' => if String.eqb k key then n else getCount o' key
  end.

(** [p] is met in [paths] before [q] is: at the first occurrence of [p],
    [q] has not occurred. *)
Definition firstSeenBefore (paths : list string) (p q : string) : Prop :=
  ∃ l1 l2, paths = (l1 ++ p :: l2)%list ∧ (p ∉ l1) ∧ (q ∉ l1) ∧ (p ≠ q).

(** The order of two keys in [Object.entries] of the count object:
    array-index keys by value and before the others, the others by first
    occurrence in [paths]. *)
Definition keyBefore (paths : list string) (p q : string) : Prop :=
  match arrayIndex p, arrayIndex q with
  | Some i, Some j => (i < j)%N
  | Some _, None => True
  | None, Some _ => False
  | None, None => firstSeenBefore paths p q
  end.

(** The comparator [(a, b) => b.count - a.count]. *)
Definition byCountDesc (a b : string * nat) : Z := (Z.of_nat b.2 - Z.of_nat a.2)%Z.

(** ** Configuration and host functions *)

(** The fields of [config/default.js] the services read. *)
Record Config := {
  includeCodeAnalysis : bool;
  ignoreFileTypes : list string
}.

(** Functions of Node's [path], of the string prototype and of
    [utils/dateUtils.js] (built on moment): they depend on the platform, the
    locale and the clock, and are taken as they come. *)
Record Host := {
  extname : string → string;
  toLowerCase : string → string;
  basename : string → string;
  isDateInReportRange : string → bool;
  formatDate : string → string;
  reportStartDate : string;
  reportEndDate : string
}.

(** ** The repository as seen through simple-git *)

(** An entry of [log.all]. *)
Record LogEntry := {
  log_hash : string;
  log_date : string;
  log_message : string;
  author_name : string;
  author_email : string
}.

Module DiffSummary.
(** The result of [git.diffSummary]. *)
Record t := mk { insertions : nat; deletions : nat }.
End DiffSummary.

(** The outcome of awaiting a query: its value, or the rejection with the
    [message] of its error. *)
Inductive Query (A : Type) :=
  | Resolved (x : A)
  | Rejected (message : string).
Arguments Resolved {A} x.
Arguments Rejected {A} message.

Definition resolved {A} (q : Query A) : option A :=
  match q with Resolved x => Some x | Rejected _ => None end.

(** The queries of one repository ([simpleGit(repoPath)]): [rev-parse HEAD],
    [symbolic-ref --short HEAD], the fetch URLs of [getRemotes(true)], the
    current branch of [branch()], the [latest] of [log({ maxCount: 1 })],
    [log().all], and per commit hash [ls-tree --name-status -r],
    [show --stat], [diffSummary] and [diff --name-status] against the
    parent. The diff summary of a commit is asked for twice (lines 284 and
    332), and the two answers are independent. *)
Record Git := {
  revParseHead : Query string;
  symbolicRef : Query string;
  getRemotes : Query (list string);
  branch : Query string;
  logLatest : Query (option LogEntry);
  log : Query (list LogEntry);
  lsTree : string → Query string;
  showStat : string → Query string;
  diffSummary : string → Query DiffSummary.t;
  diffNameStatus : string → Query string;
  diffSummaryAgain : string → Query DiffSummary.t
}.

(** ** Commit history reader (gitService.js, lines 59-136) *)

Record Commit := {
  hash : string;
  date : string;
  message : string;
  author : string;
  email : string;
  isFirstCommit : bool
}.

Global Instance Commit_eq_dec : EqDecision Commit.
Proof. solve_decision. Defined.

(** [hasAnyCommits]: a rejected [rev-parse HEAD] is caught as [false]. *)
Definition hasAnyCommits (git : Git) : bool :=
  match revParseHead git with
  | Resolved result => negb (String.eqb result "") && negb (String.eqb (trim result) "")
  | Rejected _ => false
  end.

(** [getCurrentBranch]. *)
Definition getCurrentBranch (git : Git) : string :=
  match symbolicRef git with
  | Resolved result => trim result
  | Rejected _ => "未知"
  end.

(** [allCommits.findIndex(commit => commit.hash === commitHash)]; [None] is
    the -1 of a hash that is not found. *)
Fixpoint findIndex (allCommits : list LogEntry) (commitHash : string) : option nat :=
  match allCommits with
  | [] => None
  | e :: rest =>
      if String.eqb (log_hash e) commitHash then Some 0
      else S <$> findIndex rest commitHash
  end.

(** [isFirstCommit(allCommits, commitHash)]: [index === allCommits.length - 1],
    compared as integers (-1 equals the length of an empty list minus one). *)
Definition isFirstCommitIn (allCommits : list LogEntry) (commitHash : string) : bool :=
  let index := match findIndex allCommits commitHash with
               | Some i => Z.of_nat i
               | None => (-1)%Z
               end in
  (index =? Z.of_nat (length allCommits) - 1)%Z.

(** [getCommitsInDateRange]: an unresolved head and a rejected [git.log]
    both give the empty list. *)
Definition getCommitsInDateRange (host : Host) (git : Git) : list Commit :=
  if negb (hasAnyCommits git) then []
  else match log git with
       | Rejected _ => []
       | Resolved all =>
           map (λ c, {| hash := log_hash c;
                        date := formatDate host (log_date c);
                        message := log_message c;
                        author := author_name c;
                        email := author_email c;
                        isFirstCommit := isFirstCommitIn all (log_hash c) |})
               (filter (λ c, isDateInReportRange host (log_date c) = true) all)
       end.

(** ** Per-repository analysis (gitService.js, lines 236-354) *)

Record FileChanges := {
  added : nat;
  modified : nat;
  deleted : nat;
  renamed : nat
}.

Record LineChanges := {
  additions : Number.t;
  deletions : Number.t
}.

Module AuthorStats.
(** A value of [commitsByAuthor]. *)
Record t := mk { commits : nat; additions : nat; deletions : nat }.
End AuthorStats.

Record Analysis := {
  totalCommits : nat;
  totalFilesChanged : nat;
  fileTypes : gmap string nat;
  fileChanges : FileChanges;
  lineChanges : LineChanges;
  mostChangedFiles : list (string * nat);
  commitsByAuthor : gmap string AuthorStats.t
}.

(** An element of [allChangedFiles]: [{ path, type, commit }]. *)
Record ChangeRecord := {
  cr_path : string;
  cr_type : ChangeType;
  cr_commit : string
}.

Global Instance ChangeRecord_eq_dec : EqDecision ChangeRecord.
Proof. solve_decision. Defined.

(** What the loop over the commits mutates: the [analysis] object and the
    [allChangedFiles] array. *)
Record LoopState := {
  analysis : Analysis;
  allChangedFiles : list ChangeRecord
}.

(** A [try] block over the loop state: the state after the statements that
    ran, and [None] when one of them threw. What was mutated before the
    throw stays mutated. *)
Definition Try (A : Type) : Type := LoopState → LoopState * option A.

Definition ret {A} (x : A) : Try A := λ st, (st, Some x).

Definition bind {A B} (m : Try A) (k : A → Try B) : Try B :=
  λ st, match m st with
        | (st', Some x) => k x st'
        | (st', None) => (st', None)
        end.

(** [await] of a query: a rejection throws. *)
Definition await {A} (q : Query A) : Try A := λ st, (st, resolved q).

(** A statement that mutates the state and cannot throw. *)
Definition update (f : LoopState → LoopState) : Try unit := λ st, (f st, Some ()).

(** [try { body } catch (error) { console.error(...) }]. *)
Definition tryCatch (body : Try unit) (st : LoopState) : LoopState := (body st).1.

Declare Scope try_scope.
Delimit Scope try_scope with try.
Notation "'let*' x := m 'in' k" := (bind m (λ x, k))
  (at level 10, x name, m at level 100, k at level 200, only parsing) : try_scope.
Notation "m ;;; k" := (bind m (λ _, k))
  (at level 100, k at level 200, only parsing) : try_scope.

Definition withAnalysis (f : Analysis → Analysis) (st : LoopState) : LoopState :=
  {| analysis := f (analysis st); allChangedFiles := allChangedFiles st |}.

(** [analysis.lineChanges.additions += a; analysis.lineChanges.deletions += d]. *)
Definition addLineChanges (a d : Number.t) : LoopState → LoopState :=
  withAnalysis (λ an,
    {| totalCommits := totalCommits an;
       totalFilesChanged := totalFilesChanged an;
       fileTypes := fileTypes an;
       fileChanges := fileChanges an;
       lineChanges := {| additions := Number.add (additions (lineChanges an)) a;
                         deletions := Number.add (deletions (lineChanges an)) d |};
       mostChangedFiles := mostChangedFiles an;
       commitsByAuthor := commitsByAuthor an |}).

(** The [switch (file.type)] of the loop: four of the six tags have a
    counter. *)
Definition countChangeType (t : ChangeType) (fc : FileChanges) : FileChanges :=
  match t with
  | Added => {| added := S (added fc); modified := modified fc;
                deleted := deleted fc; renamed := renamed fc |}
  | Modified => {| added := added fc; modified := S (modified fc);
                   deleted := deleted fc; renamed := renamed fc |}
  | Deleted => {| added := added fc; modified := modified fc;
                  deleted := S (deleted fc); renamed := renamed fc |}
  | Renamed => {| added := added fc; modified := modified fc;
                  deleted := deleted fc; renamed := S (renamed fc) |}
  | Copied | Unknown => fc
  end.

(** [if (ext && !config.ignoreFileTypes.includes(ext)) fileTypes[ext] = (fileTypes[ext] || 0) + 1]. *)
Definition countFileType (cfg : Config) (ext : string) (ft : gmap string nat) : gmap string nat :=
  if negb (String.eqb ext "") && negb (bool_decide (ext ∈ ignoreFileTypes cfg))
  then <[ext := default 0 (ft !! ext) + 1]> ft
  else ft.

(** The body of [changedFiles.forEach(file => ...)]. *)
Definition recordFile (cfg : Config) (host : Host) (commit : Commit) (file : ChangedFile)
    (st : LoopState) : LoopState :=
  let an := analysis st in
  let ext := toLowerCase host (extname host (path file)) in
  {| analysis :=
       {| totalCommits := totalCommits an;
          totalFilesChanged := totalFilesChanged an;
          fileTypes := countFileType cfg ext (fileTypes an);
          fileChanges := countChangeType (type file) (fileChanges an);
          lineChanges := lineChanges an;
          mostChangedFiles := mostChangedFiles an;
          commitsByAuthor := commitsByAuthor an |};
     allChangedFiles :=
       allChangedFiles st ++ [{| cr_path := path file; cr_type := type file;
                                 cr_commit := hash commit |}] |}.

(** [changedFiles.forEach(file => ...)]. *)
Definition recordFiles (cfg : Config) (host : Host) (commit : Commit)
    (changedFiles : list ChangedFile) (st : LoopState) : LoopState :=
  foldl (λ st file, recordFile cfg host commit file st) st changedFiles.

Definition withAuthors (f : gmap string AuthorStats.t → gmap string AuthorStats.t) :
    LoopState → LoopState :=
  withAnalysis (λ an,
    {| totalCommits := totalCommits an;
       totalFilesChanged := totalFilesChanged an;
       fileTypes := fileTypes an;
       fileChanges := fileChanges an;
       lineChanges := lineChanges an;
       mostChangedFiles := mostChangedFiles an;
       commitsByAuthor := f (commitsByAuthor an) |}).

(** The names that every plain object inherits from [Object.prototype]
    (V8): for these [analysis.commitsByAuthor[author]] is a function, or the
    prototype itself for [__proto__], also when the object has no such key
    of its own. What the loop then writes to the inherited value is not
    followed: the model is that of the [analysis] object. *)
Definition objectPrototypeNames : list string :=
  ["constructor"; "__defineGetter__"; "__defineSetter__"; "hasOwnProperty";
   "__lookupGetter__"; "__lookupSetter__"; "isPrototypeOf";
   "propertyIsEnumerable"; "toString"; "valueOf"; "__proto__";
   "toLocaleString"].

(** Lines 320-328: create the author's entry when
    [!analysis.commitsByAuthor[author]], then [commits++]. Without an entry
    of its own, an inherited name finds the inherited value, which is
    truthy: no entry is created and [commits++] falls on the inherited
    value, outside the analysis. *)
Definition countAuthorCommit (a : string) : LoopState → LoopState :=
  withAuthors (λ m,
    match m !! a with
    | Some s =>
        <[a := AuthorStats.mk (S (AuthorStats.commits s)) (AuthorStats.additions s)
                              (AuthorStats.deletions s)]> m
    | None =>
        if bool_decide (a ∈ objectPrototypeNames) then m
        else <[a := AuthorStats.mk 1 0 0]> m
    end).

(** Lines 333-334: the author's entry exists by then, or the name is an
    inherited one and the two [+=] fall on the inherited value ([None]). *)
Definition addAuthorLines (a : string) (stats : DiffSummary.t) : LoopState → LoopState :=
  withAuthors (λ m,
    match m !! a with
    | Some s =>
        <[a := AuthorStats.mk (AuthorStats.commits s)
                 (AuthorStats.additions s + DiffSummary.insertions stats)
                 (AuthorStats.deletions s + DiffSummary.deletions stats)]> m
    | None => m
    end).

(** The body of the [try] block for one commit (lines 265-335). *)
Definition analyzeCommitBody (cfg : Config) (host : Host) (git : Git) (commit : Commit) :
    Try unit :=
  (let* changedFiles :=
     (if isFirstCommit commit then
        let* files := await (lsTree git (hash commit)) in
        let changedFiles := parseFirstCommitFiles files in
        let* show := await (showStat git (hash commit)) in
        match statMatch show with
        | Some (ins, del) => update (addLineChanges (groupOrZero ins) (groupOrZero del))
        | None => ret ()
        end ;;;
        ret changedFiles
      else
        let* stats := await (diffSummary git (hash commit)) in
        update (addLineChanges (DiffSummary.insertions stats) (DiffSummary.deletions stats)) ;;;
        let* diff := await (diffNameStatus git (hash commit)) in
        ret (parseGitDiff diff)) in
   update (recordFiles cfg host commit changedFiles) ;;;
   update (countAuthorCommit (author commit)) ;;;
   if negb (isFirstCommit commit) then
     let* stats := await (diffSummaryAgain git (hash commit)) in
     update (addAuthorLines (author commit) stats)
   else ret ())%try.

(** One iteration of [for (const commit of commits)]. *)
Definition analyzeCommit (cfg : Config) (host : Host) (git : Git)
    (st : LoopState) (commit : Commit) : LoopState :=
  tryCatch (analyzeCommitBody cfg host git commit) st.

(** Lines 276-281 as one state change: the line counts of the stat line, if
    the pattern matches. *)
Definition addStatLines (show : string) (st : LoopState) : LoopState :=
  match statMatch show with
  | Some (ins, del) => addLineChanges (groupOrZero ins) (groupOrZero del) st
  | None => st
  end.

(** The [analysis] object and the empty [allChangedFiles] before the loop. *)
Definition initialState (commits : list Commit) : LoopState :=
  {| analysis :=
       {| totalCommits := length commits;
          totalFilesChanged := 0;
          fileTypes := ∅;
          fileChanges := {| added := 0; modified := 0; deleted := 0; renamed := 0 |};
          lineChanges := {| additions := Number.Finite 0;
                            deletions := Number.Finite 0 |};
          mostChangedFiles := [];
          commitsByAuthor := ∅ |};
     allChangedFiles := [] |}.

(** The loop over the commits, from any state. *)
Definition analyzeLoop (cfg : Config) (host : Host) (git : Git)
    (st : LoopState) (commits : list Commit) : LoopState :=
  foldl (analyzeCommit cfg host git) st commits.

(** Lines 347-351: [Object.entries(_.countBy(allChangedFiles, 'path'))],
    sorted by descending count, first five. *)
Definition topChangedFiles (files : list ChangeRecord) : list (string * nat) :=
  take 5 (sortWith byCountDesc (objectEntries (countBy cr_path files))).

(** Lines 343-353: the two fields computed after the loop. *)
Definition finish (st : LoopState) : Analysis :=
  let an := analysis st in
  {| totalCommits := totalCommits an;
     totalFilesChanged := length (uniqBy cr_path (allChangedFiles st));
     fileTypes := fileTypes an;
     fileChanges := fileChanges an;
     lineChanges := lineChanges an;
     mostChangedFiles := topChangedFiles (allChangedFiles st);
     commitsByAuthor := commitsByAuthor an |}.

(** [analyzeCodeChanges(repoPath, commits)]; [None] is [null]. *)
Definition analyzeCodeChanges (cfg : Config) (host : Host) (git : Git)
    (commits : list Commit) : option Analysis :=
  if negb (includeCodeAnalysis cfg) || (length commits =? 0) then None
  else Some (finish (analyzeLoop cfg host git (initialState commits) commits)).

(** The [allChangedFiles] array when the loop ends. *)
Definition changedFilesOf (cfg : Config) (host : Host) (git : Git)
    (commits : list Commit) : list ChangeRecord :=
  allChangedFiles (analyzeLoop cfg host git (initialState commits) commits).

(** The number of change records of one type. *)
Definition countOf (t : ChangeType) (files : list ChangeRecord) : nat :=
  length (filter (λ r, cr_type r = t) files).

(** Every path of the change records belongs to the records of one commit. *)
Definition touchedByOneCommit (files : list ChangeRecord) : Prop :=
  ∀ r1 r2, r1 ∈ files → r2 ∈ files → cr_path r1 = cr_path r2 → cr_commit r1 = cr_commit r2.

(** The commit counts of all authors, added up. *)
Definition authorCommitTotal (m : gmap string AuthorStats.t) : nat :=
  map_fold (λ _ s n, AuthorStats.commits s + n) 0 m.

(** A query of the commit's [try] block is rejected. *)
Definition classificationFails (git : Git) (c : Commit) : Prop :=
  if isFirstCommit c
  then resolved (lsTree git (hash c)) = None ∨ resolved (showStat git (hash c)) = None
  else resolved (diffSummary git (hash c)) = None
       ∨ resolved (diffNameStatus git (hash c)) = None
       ∨ resolved (diffSummaryAgain git (hash c)) = None.

(** The rejected query comes before the first statement that changes the
    state: the tree listing or the stat summary of the first commit, the
    first diff summary of another commit. *)
Definition failsBeforeFolding (git : Git) (c : Commit) : Prop :=
  if isFirstCommit c
  then resolved (lsTree git (hash c)) = None ∨ resolved (showStat git (hash c)) = None
  else resolved (diffSummary git (hash c)) = None.



(** [lineChanges] after the line counts [n] were added to it. *)
Definition addLines (lc : LineChanges) (n : Number.t * Number.t) : LineChanges :=
  {| additions := Number.add (additions lc) n.1;
     deletions := Number.add (deletions lc) n.2 |}.

(** The line counts of the second diff summary. *)
Definition secondStats (git : Git) (c : Commit) : nat * nat :=
  match diffSummaryAgain git (hash c) with
  | Resolved stats => (DiffSummary.insertions stats, DiffSummary.deletions stats)
  | Rejected _ => (0, 0)
  end.

(** What a commit adds to its author's line totals: nothing for the first
    commit, the second diff summary for the others. *)
Definition authorLines (git : Git) (c : Commit) : nat * nat :=
  if isFirstCommit c then (0, 0) else secondStats git c.

(** The author's entry after one more commit with these line counts. *)
Definition creditAuthor (who : string) (n : nat * nat)
    (m : gmap string AuthorStats.t) : gmap string AuthorStats.t :=
  let s := default (AuthorStats.mk 0 0 0) (m !! who) in
  <[who := AuthorStats.mk (S (AuthorStats.commits s)) (AuthorStats.additions s + n.1)
             (AuthorStats.deletions s + n.2)]> m.

Definition authorsTotal (st : LoopState) : nat :=
  authorCommitTotal (commitsByAuthor (analysis st)).

(** ** Report generation (reportService.js, lines 12-169, and
    [getRepositoryInfo], gitService.js, lines 13-57) *)

(** The object returned by [getRepositoryInfo]; absent and [null] fields are
    [None]. *)
Record RepoInfo := {
  info_path : string;
  name : string;
  remote : option string;
  currentBranch : option string;
  lastCommitDate : option string;
  error : option string;
  isEmpty : bool
}.

Definition getRepositoryInfo (host : Host) (git : Git) (repoPath : string) : RepoInfo :=
  let failed message :=
    {| info_path := repoPath; name := basename host repoPath; remote := None;
       currentBranch := None; lastCommitDate := None;
       error := Some message; isEmpty := true |} in
  if negb (hasAnyCommits git) then
    {| info_path := repoPath; name := basename host repoPath; remote := None;
       currentBranch := Some (getCurrentBranch git); lastCommitDate := None;
       error := None; isEmpty := true |}
  else
    match getRemotes git with
    | Rejected message => failed message
    | Resolved remotes =>
        match branch git with
        | Rejected message => failed message
        | Resolved current =>
            match logLatest git with
            | Rejected message => failed message
            | Resolved latest =>
                {| info_path := repoPath; name := basename host repoPath;
                   remote := head remotes;
                   currentBranch := Some current;
                   lastCommitDate := (λ c, formatDate host (log_date c)) <$> latest;
                   error := None; isEmpty := false |}
            end
        end
    end.

(** The object returned by [generateRepoReport]:
    [{ ...repoInfo, commits, analysis }]. *)
Record RepoReport := {
  info : RepoInfo;
  commits : list Commit;
  repoAnalysis : option Analysis
}.

(** [if (repoInfo.error)]: an error message is truthy unless it is empty. *)
Definition truthy (field : option string) : bool :=
  match field with
  | Some message => negb (String.eqb message "")
  | None => false
  end.

Definition generateRepoReport (cfg : Config) (host : Host) (git : Git)
    (repoPath : string) : RepoReport :=
  let repoInfo := getRepositoryInfo host git repoPath in
  if truthy (error repoInfo) then
    {| info := repoInfo; commits := []; repoAnalysis := None |}
  else if isEmpty repoInfo then
    {| info := repoInfo; commits := []; repoAnalysis := None |}
  else
    let commits := getCommitsInDateRange host git in
    if length commits =? 0 then
      {| info := repoInfo; commits := []; repoAnalysis := None |}
    else
      {| info := repoInfo; commits := commits;
         repoAnalysis := analyzeCodeChanges cfg host git commits |}.

Module Summary.
Record t := mk {
  totalCommits : nat;
  totalFilesChanged : nat;
  totalAdditions : Number.t;
  totalDeletions : Number.t;
  commitsByAuthor : gmap string AuthorStats.t;
  fileTypes : gmap string nat;
  fileChanges : FileChanges
}.
End Summary.

(** Lines 141-143, one entry of a repository's [fileTypes]. *)
Definition addFileType (type : string) (count : nat) (ft : gmap string nat) :
    gmap string nat :=
  <[type := default 0 (ft !! type) + count]> ft.

(** Lines 152-164, one entry of a repository's [commitsByAuthor]. *)
Definition addAuthor (author : string) (stats : AuthorStats.t)
    (m : gmap string AuthorStats.t) : gmap string AuthorStats.t :=
  let s := default (AuthorStats.mk 0 0 0) (m !! author) in
  <[author := AuthorStats.mk (AuthorStats.commits s + AuthorStats.commits stats)
                (AuthorStats.additions s + AuthorStats.additions stats)
                (AuthorStats.deletions s + AuthorStats.deletions stats)]> m.

(** Lines 146-149. *)
Definition addFileChanges (a b : FileChanges) : FileChanges :=
  {| added := added a + added b; modified := modified a + modified b;
     deleted := deleted a + deleted b; renamed := renamed a + renamed b |}.

(** The body of [repoReports.forEach(repo => ...)]. *)
Definition addRepo (summary : Summary.t) (repo : RepoReport) : Summary.t :=
  let total := Summary.totalCommits summary + length (commits repo) in
  match repoAnalysis repo with
  | Some an =>
      Summary.mk total
        (Summary.totalFilesChanged summary + totalFilesChanged an)
        (Number.add (Summary.totalAdditions summary) (additions (lineChanges an)))
        (Number.add (Summary.totalDeletions summary) (deletions (lineChanges an)))
        (map_fold addAuthor (Summary.commitsByAuthor summary) (commitsByAuthor an))
        (map_fold addFileType (Summary.fileTypes summary) (fileTypes an))
        (addFileChanges (Summary.fileChanges summary) (fileChanges an))
  | None =>
      Summary.mk total
        (Summary.totalFilesChanged summary)
        (Summary.totalAdditions summary)
        (Summary.totalDeletions summary)
        (Summary.commitsByAuthor summary)
        (Summary.fileTypes summary)
        (Summary.fileChanges summary)
  end.

Definition emptySummary : Summary.t :=
  Summary.mk 0 0 (Number.Finite 0) (Number.Finite 0) ∅ ∅
    {| added := 0; modified := 0; deleted := 0; renamed := 0 |}.

(** [generateSummaryStats(repoReports)]. *)
Definition generateSummaryStats (repoReports : list RepoReport) : Summary.t :=
  foldl addRepo emptySummary repoReports.

Record FullReport := {
  startDate : string;
  endDate : string;
  totalRepos : nat;
  reposWithCommits : nat;
  summary : Summary.t;
  repositories : list RepoReport
}.

(** The comparator [(a, b) => b.commits.length - a.commits.length]. *)
Definition byCommitsDesc (a b : RepoReport) : Z :=
  (Z.of_nat (length (commits b)) - Z.of_nat (length (commits a)))%Z.

(** Lines 69-89: the reports of the repositories that have commits. *)
Definition collectReports (cfg : Config) (host : Host) (simpleGit : string → Git)
    (repoPaths : list string) : list RepoReport :=
  foldl (λ repoReports repoPath,
           let report := generateRepoReport cfg host (simpleGit repoPath) repoPath in
           if 0 <? length (commits report) then (repoReports ++ [report])%list
           else repoReports)
        [] repoPaths.

(** What one path adds to [repoReports]: its report, when it has commits. *)
Definition reportIfCommits (cfg : Config) (host : Host) (simpleGit : string → Git)
    (repoPath : string) : list RepoReport :=
  let report := generateRepoReport cfg host (simpleGit repoPath) repoPath in
  if 0 <? length (commits report) then [report] else [].

(** [generateFullReport(repoPaths, options)], without its console output. *)
Definition generateFullReport (cfg : Config) (host : Host) (simpleGit : string → Git)
    (repoPaths : list string) : FullReport :=
  let repoReports := sortWith byCommitsDesc (collectReports cfg host simpleGit repoPaths) in
  {| startDate := formatDate host (reportStartDate host);
     endDate := formatDate host (reportEndDate host);
     totalRepos := length repoPaths;
     reposWithCommits := length repoReports;
     summary := generateSummaryStats repoReports;
     repositories := repoReports |}.

(** ** The text of a stat line *)

Definition allDigits (s : string) : bool := forallb isDigit (list_ascii_of_string s).

Definition noDigit (s : string) : bool :=
  forallb (λ c, negb (isDigit c)) (list_ascii_of_string s).

(** Somewhere in [s] a digit is followed by [ file]: there a match of the
    stat pattern could start. *)
Fixpoint digitThenFile (s : string) : bool :=
  match s with
  | EmptyString => false
  | String c s' =>
      isDigit c && bool_decide (is_Some (matchLit " file" s')) || digitThenFile s'
  end.

(** The last character of [s] is a digit. *)
Fixpoint endsInDigit (s : string) : bool :=
  match s with
  | EmptyString => false
  | String c EmptyString => isDigit c
  | String _ s' => endsInDigit s'
  end.

(** The optional [s] of a plural. *)
Definition plural (many : bool) : string := if many then "s" else "".

(** One clause of the summary line of [git show --stat], when the commit has
    lines of that kind: [, 7 insertions(+)], in front of [rest]. *)
Definition statClauseText (word tail : string) (clause : option (string * bool))
    (rest : string) : string :=
  match clause with
  | Some (count, many) => ", " +:+ (count +:+ (word +:+ (plural many +:+ (tail +:+ rest))))
  | None => rest
  end.

(** The summary line [N file(s) changed, A insertion(s)(+), D deletion(s)(-)]
    followed by [rest]. *)
Definition statLine (files : string) (many : bool)
    (ins del : option (string * bool)) (rest : string) : string :=
  files +:+ (" file" +:+ (plural many +:+ (" changed" +:+
    statClauseText " insertion" "(+)" ins
      (statClauseText " deletion" "(-)" del rest)))).

Definition headIsDigit (s : string) : bool :=
  match s with
  | String c _ => isDigit c
  | EmptyString => false
  end.

(** A clause, when present, has a numeral of at least one digit. *)
Definition clauseOk (clause : option (string * bool)) : bool :=
  match clause with
  | Some (count, _) => allDigits count && negb (String.eqb count "")
  | None => true
  end.

(** ** Escaping of commit messages (reportService.js, line 260) *)

(** [commit.message.replace(/\|/g, '\\|')]. *)
Fixpoint escapePipes (message : string) : string :=
  match message with
  | EmptyString => EmptyString
  | String c s =>
      if Ascii.eqb c "|" then String "\" (String "|" (escapePipes s))
      else String c (escapePipes s)
  end.

(** Every ["|"] of [s] comes right after a backslash; [escaped] tells
    whether the character before [s] is one. *)
Fixpoint pipesEscaped (escaped : bool) (s : string) : bool :=
  match s with
  | EmptyString => true
  | String c s' =>
      (negb (Ascii.eqb c "|") || escaped) && pipesEscaped (Ascii.eqb c "\") s'
  end.

(** ** What one commit contributes to the analysis *)

(** The changed files the iteration folds, when it reaches
    [changedFiles.forEach] (line 296): the queries in front of it resolve. *)
Definition changedFilesOfCommit (git : Git) (c : Commit) : option (list ChangedFile) :=
  if isFirstCommit c then
    match lsTree git (hash c), showStat git (hash c) with
    | Resolved files, Resolved _ => Some (parseFirstCommitFiles files)
    | _, _ => None
    end
  else
    match diffSummary git (hash c), diffNameStatus git (hash c) with
    | Resolved _, Resolved diff => Some (parseGitDiff diff)
    | _, _ => None
    end.

(** The element pushed on [allChangedFiles] for a changed file (lines
    312-316). *)
Definition toRecord (c : Commit) (file : ChangedFile) : ChangeRecord :=
  {| cr_path := path file; cr_type := type file; cr_commit := hash c |}.

(** The records the iteration of a commit appends to [allChangedFiles]. *)
Definition recordsOfCommit (git : Git) (c : Commit) : list ChangeRecord :=
  toRecord c <$> default [] (changedFilesOfCommit git c).

(** The iteration reaches [commitsByAuthor[author].commits++] (line 328). *)
Definition credited (git : Git) (c : Commit) : bool :=
  bool_decide (is_Some (changedFilesOfCommit git c)).

(** What the iteration adds to [lineChanges], whatever is rejected later. *)
Definition linesOfCommit (git : Git) (c : Commit) : option (Number.t * Number.t) :=
  if isFirstCommit c then
    match lsTree git (hash c), showStat git (hash c) with
    | Resolved _, Resolved show =>
        match statMatch show with
        | Some (ins, del) => Some (groupOrZero ins, groupOrZero del)
        | None => None
        end
    | _, _ => None
    end
  else
    match diffSummary git (hash c) with
    | Resolved stats =>
        Some (Number.ofNat (DiffSummary.insertions stats),
              Number.ofNat (DiffSummary.deletions stats))
    | Rejected _ => None
    end.

(** The lower-cased extension of a record's path (line 298). *)
Definition extOf (host : Host) (r : ChangeRecord) : string :=
  toLowerCase host (extname host (cr_path r)).

(** The test of line 299 on an extension. *)
Definition countedExt (cfg : Config) (ext : string) : bool :=
  negb (String.eqb ext "") && negb (bool_decide (ext ∈ ignoreFileTypes cfg)).

(** ** Sums over the reports of the repositories *)

(** The line totals that the reports add to the summary, in their order:
    those of the reports that have an analysis. *)
Definition reportAdditions (reports : list RepoReport) : list Number.t :=
  (λ an, additions (lineChanges an)) <$> omap repoAnalysis reports.

Definition reportDeletions (reports : list RepoReport) : list Number.t :=
  (λ an, deletions (lineChanges an)) <$> omap repoAnalysis reports.

(** A summary with its two line totals cleared: the commit and file counts
    and the three dictionaries. *)
Definition withoutLineTotals (s : Summary.t) : Summary.t :=
  Summary.mk (Summary.totalCommits s) (Summary.totalFilesChanged s)
    (Number.Finite 0) (Number.Finite 0)
    (Summary.commitsByAuthor s) (Summary.fileTypes s) (Summary.fileChanges s).

(** The sum of one counter of the analysis over the reports; a report
    without an analysis adds nothing. *)
Definition analysisTotal (f : Analysis → nat) (reports : list RepoReport) : nat :=
  sum_list_with (λ r, from_option f 0 (repoAnalysis r)) reports.

(** The reports whose analysis has the field: [Object.entries] of the
    analysis object yields the key. *)
Definition reportsWith {V} (field : Analysis → option V)
    (reports : list RepoReport) : list RepoReport :=
  filter (λ r, is_Some (repoAnalysis r ≫= field)) reports.

(** ** Commit details (gitService.js, lines 145-177) *)

(** The object returned by [getCommitDetails]: [{ hash, details,
    changedFiles }], or [{ hash, error }] when a query is rejected. *)
Inductive CommitDetails :=
  | Details (commitHash : string) (details : string) (changedFiles : list ChangedFile)
  | DetailsError (commitHash : string) (message : string).

(** [getCommitDetails(repoPath, commitHash, isFirstCommit)]. The query
    [git.show([commitHash])] differs from the [show --stat] of the analysis
    and is an argument of its own. *)
Definition getCommitDetails (show : string → Query string) (git : Git)
    (commitHash : string) (isFirstCommit : bool) : CommitDetails :=
  match show commitHash with
  | Rejected message => DetailsError commitHash message
  | Resolved details =>
      if isFirstCommit then
        match lsTree git commitHash with
        | Resolved files => Details commitHash details (parseFirstCommitFiles files)
        | Rejected message => DetailsError commitHash message
        end
      else
        match diffNameStatus git commitHash with
        | Resolved diff => Details commitHash details (parseGitDiff diff)
        | Rejected message => DetailsError commitHash message
        end
  end.

(** ** A host, a configuration and repositories for the examples *)

(** The suffix from the last dot on, when there is one. *)
Fixpoint lastDotSuffix (s : string) : option string :=
  match s with
  | EmptyString => None
  | String c s' =>
      match lastDotSuffix s' with
      | Some e => Some e
      | None => if Ascii.eqb c "." then Some s else None
      end
  end.

(** A host whose paths are flat lower-case file names and whose window
    holds every date but ["old"]. *)
Definition exampleHost : Host :=
  {| extname := λ p, default "" (lastDotSuffix p);
     toLowerCase := id;
     basename := id;
     isDateInReportRange := λ d, negb (String.eqb d "old");
     formatDate := id;
     reportStartDate := "2024-01-01";
     reportEndDate := "2024-01-08" |}.

(** The values of [config/default.js]. *)
Definition defaultConfig : Config :=
  {| includeCodeAnalysis := true;
     ignoreFileTypes := [".log"; ".lock"; ".md"; ".gitignore"; ".DS_Store"] |}.

(** The configuration after [--no-analysis]. *)
Definition noAnalysisConfig : Config :=
  {| includeCodeAnalysis := false;
     ignoreFileTypes := ignoreFileTypes defaultConfig |}.

Definition logEntry (h d who : string) : LogEntry :=
  {| log_hash := h; log_date := d; log_message := "work";
     author_name := who; author_email := "dev@example.org" |}.

Definition commitOf (e : LogEntry) (root : bool) : Commit :=
  {| hash := log_hash e; date := log_date e; message := log_message e;
     author := author_name e; email := author_email e; isFirstCommit := root |}.

Definition commitBy (who h : string) (root : bool) : Commit :=
  commitOf (logEntry h "2024-01-05" who) root.

(** A repository of three commits, the oldest one outside the window. *)
Definition threeCommits : Git :=
  {| revParseHead := Resolved "c3";
     symbolicRef := Resolved "main";
     getRemotes := Resolved ["https://example.org/r.git"];
     branch := Resolved "main";
     logLatest := Resolved (Some (logEntry "c3" "2024-01-05" "ann"));
     log := Resolved [logEntry "c3" "2024-01-05" "ann";
                      logEntry "c2" "2024-01-04" "bob";
                      logEntry "c1" "old" "ann"];
     lsTree := λ _, Resolved "";
     showStat := λ _, Resolved "";
     diffSummary := λ _, Resolved (DiffSummary.mk 3 1);
     diffNameStatus := λ _, Resolved ("M" +:+ String TAB "a.js");
     diffSummaryAgain := λ _, Resolved (DiffSummary.mk 3 1) |}.

(** Output lines of git: fields joined by tabs, lines joined by line
    feeds. *)
Definition tsv (fields : list string) : string := join (String TAB "") fields.
Definition unlines (rows : list string) : string := join (String LF "") rows.

(** A repository of three commits in the window: the first commit adds
    [a.go] and [b.md]; [c2] modifies [a.go], copies it and changes the type
    of [link]; [c3] modifies [a.go] and adds the file [7]. *)
Definition workRepo : Git :=
  {| revParseHead := Resolved "c3";
     symbolicRef := Resolved "main";
     getRemotes := Resolved ["https://example.org/work.git"];
     branch := Resolved "main";
     logLatest := Resolved (Some (logEntry "c3" "2024-01-05" "ann"));
     log := Resolved [logEntry "c3" "2024-01-05" "ann";
                      logEntry "c2" "2024-01-05" "bob";
                      logEntry "c1" "2024-01-05" "ann"];
     lsTree := λ _, Resolved (unlines [tsv ["100644 blob 1f"; "a.go"];
                                       tsv ["100644 blob 2e"; "b.md"]]);
     showStat := λ _, Resolved " 2 files changed, 7 insertions(+)";
     diffSummary := λ h, if String.eqb h "c2" then Resolved (DiffSummary.mk 3 1)
                         else Resolved (DiffSummary.mk 5 2);
     diffNameStatus := λ h,
       if String.eqb h "c2"
       then Resolved (unlines [tsv ["M"; "a.go"]; tsv ["C100"; "a.go"; "c.go"];
                               tsv ["T"; "link"]])
       else Resolved (unlines [tsv ["M"; "a.go"]; tsv ["A"; "7"]]);
     diffSummaryAgain := λ h, if String.eqb h "c2" then Resolved (DiffSummary.mk 3 1)
                              else Resolved (DiffSummary.mk 5 2) |}.

Definition workCommits : list Commit :=
  [commitBy "ann" "c3" false; commitBy "bob" "c2" false; commitBy "ann" "c1" true].

(** A repository whose tree listing prints names only, one per line, as
    [git ls-tree --name-status] does. *)
Definition namesOnlyRepo : Git :=
  {| revParseHead := Resolved "c1";
     symbolicRef := Resolved "main";
     getRemotes := Resolved [];
     branch := Resolved "main";
     logLatest := Resolved (Some (logEntry "c1" "2024-01-05" "ann"));
     log := Resolved [logEntry "c1" "2024-01-05" "ann"];
     lsTree := λ _, Resolved (unlines ["a.txt"; "b.txt"]);
     showStat := λ _, Resolved " 2 files changed, 2 insertions(+)";
     diffSummary := λ _, Rejected "fatal: bad revision";
     diffNameStatus := λ _, Rejected "fatal: bad revision";
     diffSummaryAgain := λ _, Rejected "fatal: bad revision" |}.

(** [workRepo] with two flaky queries: the name-status diff of [c2] and the
    second diff summary of [c3] are rejected. *)
Definition flakyRepo : Git :=
  {| revParseHead := revParseHead workRepo;
     symbolicRef := symbolicRef workRepo;
     getRemotes := getRemotes workRepo;
     branch := branch workRepo;
     logLatest := logLatest workRepo;
     log := log workRepo;
     lsTree := lsTree workRepo;
     showStat := showStat workRepo;
     diffSummary := diffSummary workRepo;
     diffNameStatus := λ h, if String.eqb h "c2" then Rejected "spawn git EAGAIN"
                            else diffNameStatus workRepo h;
     diffSummaryAgain := λ h, if String.eqb h "c3" then Rejected "spawn git EAGAIN"
                              else diffSummaryAgain workRepo h |}.

(** A repository without any commit: its head does not resolve. *)
Definition unbornRepo : Git :=
  {| revParseHead := Rejected "fatal: ambiguous argument 'HEAD'";
     symbolicRef := Resolved "main";
     getRemotes := Resolved [];
     branch := Resolved "main";
     logLatest := Rejected "fatal: your current branch 'main' does not have any commits yet";
     log := Rejected "fatal: your current branch 'main' does not have any commits yet";
     lsTree := λ _, Rejected "fatal: not a tree object";
     showStat := λ _, Rejected "fatal: bad object";
     diffSummary := λ _, Rejected "fatal: bad revision";
     diffNameStatus := λ _, Rejected "fatal: bad revision";
     diffSummaryAgain := λ _, Rejected "fatal: bad revision" |}.

(** One handle per repository path. *)
Definition exampleRepos (repoPath : string) : Git :=
  if String.eqb repoPath "work" then workRepo
  else if String.eqb repoPath "names" then namesOnlyRepo
  else if String.eqb repoPath "unborn" then unbornRepo
  else threeCommits.

(** A repository whose single commit adds the file [b] and then the file
    [7]. *)
Definition numberedRepo : Git :=
  {| revParseHead := Resolved "c2";
     symbolicRef := Resolved "main";
     getRemotes := Resolved [];
     branch := Resolved "main";
     logLatest := Resolved (Some (logEntry "c2" "2024-01-05" "ann"));
     log := Resolved [logEntry "c2" "2024-01-05" "ann"; logEntry "c1" "old" "ann"];
     lsTree := λ _, Resolved "";
     showStat := λ _, Resolved "";
     diffSummary := λ _, Resolved (DiffSummary.mk 2 0);
     diffNameStatus := λ _, Resolved (unlines [tsv ["A"; "b"]; tsv ["A"; "7"]]);
     diffSummaryAgain := λ _, Resolved (DiffSummary.mk 2 0) |}.

(** A repository of two commits in the window. The message of the first
    commit is a stat line of 2^53 insertions, and [git show --stat] prints
    the message in front of the stat summary; [c2] adds one line. *)
Definition roundedRepo : Git :=
  {| revParseHead := Resolved "c2";
     symbolicRef := Resolved "main";
     getRemotes := Resolved [];
     branch := Resolved "main";
     logLatest := Resolved (Some (logEntry "c2" "2024-01-05" "ann"));
     log := Resolved [logEntry "c2" "2024-01-05" "ann";
                      logEntry "c1" "2024-01-05" "ann"];
     lsTree := λ _, Resolved "a.go";
     showStat := λ _, Resolved
       (unlines ["commit c1"; "Author: ann <dev@example.org>";
                 "Date:   Fri Jan 5 10:00:00 2024 +0000"; "";
                 "    1 file changed, 9007199254740992 insertions(+)"; "";
                 " a.go | 7 +++++++"; " 1 file changed, 7 insertions(+)"]);
     diffSummary := λ _, Resolved (DiffSummary.mk 1 0);
     diffNameStatus := λ _, Resolved (tsv ["M"; "a.go"]);
     diffSummaryAgain := λ _, Resolved (DiffSummary.mk 1 0) |}.

(** A repository whose only commit is in the window and has this answer of
    [git show --stat]. *)
Definition statRepo (show : string) : Git :=
  {| revParseHead := Resolved "c1";
     symbolicRef := Resolved "main";
     getRemotes := Resolved [];
     branch := Resolved "main";
     logLatest := Resolved (Some (logEntry "c1" "2024-01-05" "ann"));
     log := Resolved [logEntry "c1" "2024-01-05" "ann"];
     lsTree := λ _, Resolved "a.go";
     showStat := λ _, Resolved show;
     diffSummary := λ _, Rejected "fatal: bad revision";
     diffNameStatus := λ _, Rejected "fatal: bad revision";
     diffSummaryAgain := λ _, Rejected "fatal: bad revision" |}.

(** The report of a repository whose first commit has the message
    [1 file changed, 9007199254740992 insertions(+)], and the report of a
    repository whose first commit adds one line. *)
Definition hugeReport : RepoReport :=
  generateRepoReport defaultConfig exampleHost
    (statRepo (unlines ["commit c1"; "Author: ann <dev@example.org>";
                        "Date:   Fri Jan 5 10:00:00 2024 +0000"; "";
                        "    1 file changed, 9007199254740992 insertions(+)"; "";
                        " a.go | 7 +++++++"; " 1 file changed, 7 insertions(+)"]))
    "huge".

Definition oneLineReport : RepoReport :=
  generateRepoReport defaultConfig exampleHost
    (statRepo (unlines ["commit c1"; "Author: ann <dev@example.org>";
                        "Date:   Fri Jan 5 10:00:00 2024 +0000"; "";
                        "    init"; "";
                        " a.go | 1 +"; " 1 file changed, 1 insertion(+)"]))
    "one".

(** [workRepo] when [git remote -v] fails. *)
Definition brokenRemotesRepo : Git :=
  {| revParseHead := revParseHead workRepo;
     symbolicRef := symbolicRef workRepo;
     getRemotes := Rejected "fatal: bad config line 7 in file .git/config";
     branch := branch workRepo;
     logLatest := logLatest workRepo;
     log := log workRepo;
     lsTree := lsTree workRepo;
     showStat := showStat workRepo;
     diffSummary := diffSummary workRepo;
     diffNameStatus := diffNameStatus workRepo;
     diffSummaryAgain := diffSummaryAgain workRepo |}.

(** * Properties *)

(** ** Splitting and joining *)

Lemma split_nonempty sep s : split sep s ≠ [].
Proof. destruct s as [|c s]; simpl; [done|]. repeat case_match; done. Qed.

Lemma join_cons sep x l :
  join sep (x :: l) = match l with [] => x | _ => x +:+ sep +:+ join sep l end.
Proof. by destruct l. Qed.

(** Joining the fields with the separator gives the string back. *)
Lemma join_split sep s : join (String sep "") (split sep s) = s.
Proof.
  induction s as [|c s IH]; simpl; [done|].
  destruct (Ascii.eqb_spec c sep) as [->|Hne].
  - rewrite join_cons. pose proof (split_nonempty sep s).
    destruct (split sep s) eqn:E; [done|]. by rewrite IH.
  - destruct (split sep s) as [|p ps] eqn:E; [by destruct (split_nonempty sep s)|].
    destruct ps; simpl in *; by rewrite <- IH.
Qed.

Lemma split_without sep s : occurs sep s = false → split sep s = [s].
Proof.
  induction s as [|c s IH]; simpl; [done|]. rewrite orb_false_iff. intros [Hc Hs].
  rewrite Hc, IH; done.
Qed.

Lemma split_first_field sep s t :
  occurs sep s = false → split sep (s +:+ String sep t) = s :: split sep t.
Proof.
  induction s as [|c s IH]; cbn [occurs].
  - intros _. simpl. by rewrite Ascii.eqb_refl.
  - rewrite orb_false_iff. intros [Hc Hs].
    change (String c s +:+ String sep t) with (String c (s +:+ String sep t)).
    cbn [split]. by rewrite Hc, (IH Hs).
Qed.

(** ** C3: paths that hold the field separator *)

(** A status line of the name-status diff keeps everything after the status
    token as the path, tabs included. *)
Lemma parseGitDiff_line st rest :
  occurs TAB st = false →
  occurs LF (st +:+ String TAB rest) = false →
  nonBlank (st +:+ String TAB rest) = true →
  parseGitDiff (st +:+ String TAB rest)
  = [{| path := rest; type := changeTypeOf st; status := st |}].
Proof.
  intros Hst Hlf Hnb. unfold parseGitDiff, lines.
  rewrite (split_without _ _ Hlf), filter_cons_True, filter_nil by done.
  cbn [map]. rewrite (split_first_field _ _ _ Hst). by rewrite join_split.
Qed.

(** A line of the tree listing keeps the field between the first and the
    second tab, and drops what follows. *)
Lemma parseFirstCommitFiles_line mode field rest :
  occurs TAB mode = false →
  occurs TAB field = false →
  occurs LF (mode +:+ String TAB (field +:+ String TAB rest)) = false →
  nonBlank (mode +:+ String TAB (field +:+ String TAB rest)) = true →
  parseFirstCommitFiles (mode +:+ String TAB (field +:+ String TAB rest))
  = [{| path := field; type := Added; status := "A" |}].
Proof.
  intros Hmode Hfield Hlf Hnb. unfold parseFirstCommitFiles, lines.
  rewrite (split_without _ _ Hlf), filter_cons_True, filter_nil by done.
  cbn [map]. rewrite (split_first_field _ _ _ Hmode), (split_first_field _ _ _ Hfield).
  pose proof (split_nonempty TAB rest). by destruct (split TAB rest).
Qed.


(** ** C9: the root-commit flag *)

Lemma findIndex_Some all h i :
  findIndex all h = Some i → (log_hash <$> all) !! i = Some h.
Proof.
  revert i. induction all as [|e all IH]; intros i; simpl; [done|].
  destruct (String.eqb_spec (log_hash e) h) as [->|Hne].
  - by intros [= <-].
  - destruct (findIndex all h) as [j|]; simpl; [|done]. intros [= <-]. by apply IH.
Qed.

Lemma findIndex_elem all h :
  h ∈ log_hash <$> all → is_Some (findIndex all h).
Proof.
  induction all as [|e all IH]; simpl.
  - by intros ?%elem_of_nil.
  - destruct (String.eqb_spec (log_hash e) h) as [->|Hne]; [by eexists|].
    intros [?|Hin]%elem_of_cons; [done|].
    destruct (IH Hin) as [j ->]. by eexists.
Qed.

Lemma isFirstCommitIn_spec all h :
  NoDup (log_hash <$> all) → h ∈ log_hash <$> all →
  isFirstCommitIn all h = true ↔ log_hash <$> last all = Some h.
Proof.
  intros Hnd Hin. unfold isFirstCommitIn.
  destruct (findIndex_elem _ _ Hin) as [i Hi]. rewrite Hi.
  pose proof (findIndex_Some _ _ _ Hi) as Hlook.
  assert (i < length all) as Hlt.
  { apply lookup_lt_Some in Hlook. by rewrite length_fmap in Hlook. }
  rewrite last_lookup, <- list_lookup_fmap, Z.eqb_eq. split.
  - intros Heq. replace (pred (length all)) with i by lia. done.
  - intros Hlast. enough (i = pred (length all)) by lia.
    eapply NoDup_lookup; eauto.
Qed.

(** C9 (gitService.js, lines 101-116 and 129-136): in a history whose hashes
    are distinct, a commit of the window-filtered result is flagged as first
    commit exactly when it is the last entry of the full history. *)
Theorem isFirstCommit_iff_last_of_full_history host git all c :
  log git = Resolved all →
  NoDup (log_hash <$> all) →
  c ∈ getCommitsInDateRange host git →
  isFirstCommit c = true ↔ log_hash <$> last all = Some (hash c).
Proof.
  intros Hlog Hnd. unfold getCommitsInDateRange. rewrite Hlog.
  destruct (negb (hasAnyCommits git)); [by intros ?%elem_of_nil|].
  intros (e & -> & [_ He]%list_elem_of_filter)%list_elem_of_fmap. simpl.
  apply isFirstCommitIn_spec; [done|]. by apply list_elem_of_fmap_2.
Qed.

Lemma isFirstCommit_iff_last_of_full_history_witness :
  isFirstCommit (commitBy "ann" "c1" true) = true
  ↔ log_hash <$> last [logEntry "c3" "2024-01-05" "ann";
                       logEntry "c2" "2024-01-05" "bob";
                       logEntry "c1" "2024-01-05" "ann"] = Some "c1".
Proof.
  apply (isFirstCommit_iff_last_of_full_history exampleHost workRepo).
  - reflexivity.
  - compute_done.
  - compute_done.
Defined.

(** The last commit of the filtered list is not flagged when the history
    goes on outside the window. *)
Example last_in_window_is_not_first :
  isFirstCommit <$> getCommitsInDateRange exampleHost threeCommits = [false; false].
Proof. reflexivity. Qed.

(** ** The iterations of the loop *)

Section Loop.
Context (cfg : Config) (host : Host) (git : Git).

(** What one iteration does for the commit flagged as first commit. *)
Lemma analyzeCommit_root st c :
  isFirstCommit c = true →
  analyzeCommit cfg host git st c =
    match lsTree git (hash c), showStat git (hash c) with
    | Resolved files, Resolved show =>
        countAuthorCommit (author c)
          (recordFiles cfg host c (parseFirstCommitFiles files) (addStatLines show st))
    | _, _ => st
    end.
Proof.
  intros Hroot.
  unfold analyzeCommit, tryCatch, analyzeCommitBody, bind, await, update, ret.
  rewrite Hroot. unfold addStatLines.
  destruct (lsTree git (hash c)); simpl; [|done].
  destruct (showStat git (hash c)) as [show|]; simpl; [|done].
  by destruct (statMatch show) as [[ins del]|].
Qed.

(** What one iteration does for every other commit: each rejected query
    leaves the state as the statements before it made it. *)
Lemma analyzeCommit_other st c :
  isFirstCommit c = false →
  analyzeCommit cfg host git st c =
    match diffSummary git (hash c) with
    | Rejected _ => st
    | Resolved stats =>
        let st1 := addLineChanges (DiffSummary.insertions stats)
                                  (DiffSummary.deletions stats) st in
        match diffNameStatus git (hash c) with
        | Rejected _ => st1
        | Resolved diff =>
            let st2 := countAuthorCommit (author c)
                         (recordFiles cfg host c (parseGitDiff diff) st1) in
            match diffSummaryAgain git (hash c) with
            | Rejected _ => st2
            | Resolved again => addAuthorLines (author c) again st2
            end
        end
    end.
Proof.
  intros Hroot.
  unfold analyzeCommit, tryCatch, analyzeCommitBody, bind, await, update, ret.
  rewrite Hroot.
  destruct (diffSummary git (hash c)); simpl; [|done].
  destruct (diffNameStatus git (hash c)); simpl; [|done].
  by destruct (diffSummaryAgain git (hash c)).
Qed.

(** A property kept by the four kinds of statement is kept by an
    iteration, whatever is rejected. *)
Lemma analyzeCommit_preserves (P : LoopState → Prop) st c :
  (∀ a d st, P st → P (addLineChanges a d st)) →
  (∀ file st, P st → P (recordFile cfg host c file st)) →
  (∀ st, P st → P (countAuthorCommit (author c) st)) →
  (∀ stats st, P st → P (addAuthorLines (author c) stats st)) →
  P st → P (analyzeCommit cfg host git st c).
Proof.
  intros Hlines Hfile Hcommit Hauthor Hst.
  assert (∀ files st, P st → P (recordFiles cfg host c files st)) as Hfiles.
  { intros files. unfold recordFiles.
    induction files as [|f files IH]; simpl; auto. }
  assert (∀ show st, P st → P (addStatLines show st)) as Hstat.
  { intros show st' ?. unfold addStatLines.
    destruct (statMatch show) as [[??]|]; auto. }
  destruct (isFirstCommit c) eqn:Hroot.
  - rewrite analyzeCommit_root by done. repeat case_match; auto.
  - rewrite analyzeCommit_other by done. repeat case_match; auto 6.
Qed.

Lemma analyzeLoop_preserves (P : LoopState → Prop) st commits :
  (∀ a d st, P st → P (addLineChanges a d st)) →
  (∀ c file st, P st → P (recordFile cfg host c file st)) →
  (∀ who st, P st → P (countAuthorCommit who st)) →
  (∀ who stats st, P st → P (addAuthorLines who stats st)) →
  P st → P (analyzeLoop cfg host git st commits).
Proof.
  intros Hlines Hfile Hcommit Hauthor. unfold analyzeLoop.
  revert st. induction commits as [|c commits IH]; intros st Hst; simpl; [done|].
  apply IH, analyzeCommit_preserves; auto.
Qed.

Lemma analyzeLoop_cons st c commits :
  analyzeLoop cfg host git st (c :: commits)
  = analyzeLoop cfg host git (analyzeCommit cfg host git st c) commits.
Proof. done. Qed.

Lemma analyzeLoop_app st pre post :
  analyzeLoop cfg host git st (pre ++ post)
  = analyzeLoop cfg host git (analyzeLoop cfg host git st pre) post.
Proof. apply foldl_app. Qed.

Lemma analyzeCodeChanges_Some commits a :
  analyzeCodeChanges cfg host git commits = Some a →
  includeCodeAnalysis cfg = true ∧ commits ≠ []
  ∧ a = finish (analyzeLoop cfg host git (initialState commits) commits).
Proof.
  unfold analyzeCodeChanges.
  destruct (includeCodeAnalysis cfg), commits; simpl; try done.
  by intros [= <-].
Qed.

End Loop.

(** ** C2: the change-type counters *)

Section ChangeTypes.
Context (cfg : Config) (host : Host) (git : Git).

Lemma countOf_snoc t files r :
  countOf t (files ++ [r]) = countOf t files + (if decide (cr_type r = t) then 1 else 0).
Proof.
  unfold countOf. rewrite filter_app, length_app. f_equal.
  rewrite filter_cons, filter_nil. by case_decide.
Qed.

Lemma fileChanges_counted st commits :
  let counted st :=
    let fc := fileChanges (analysis st) in
    added fc = countOf Added (allChangedFiles st)
    ∧ modified fc = countOf Modified (allChangedFiles st)
    ∧ deleted fc = countOf Deleted (allChangedFiles st)
    ∧ renamed fc = countOf Renamed (allChangedFiles st) in
  counted st → counted (analyzeLoop cfg host git st commits).
Proof.
  intros counted. apply analyzeLoop_preserves; try done.
  intros c file st' (Ha & Hm & Hd & Hr). unfold counted. simpl.
  rewrite !countOf_snoc. simpl.
  destruct (type file); simpl; repeat case_decide; try done; lia.
Qed.

Lemma countOf_total files :
  countOf Added files + countOf Modified files + countOf Deleted files
  + countOf Renamed files + countOf Copied files + countOf Unknown files
  = length files.
Proof.
  induction files as [|r files IH]; [done|].
  unfold countOf in *. rewrite !filter_cons. simpl.
  destruct (cr_type r); repeat case_decide; try done; simpl; lia.
Qed.

(** C2 (gitService.js, lines 246-251 and 296-317): [fileChanges] counts the
    change records of the four types 新增, 修改, 删除 and 重命名, one
    increment per record; the records tagged 复制 or 未知 are in no
    counter, so the four counters add up to the number of records less
    these. *)
Theorem fileChanges_count_four_types commits a :
  analyzeCodeChanges cfg host git commits = Some a →
  let files := changedFilesOf cfg host git commits in
  added (fileChanges a) = countOf Added files
  ∧ modified (fileChanges a) = countOf Modified files
  ∧ deleted (fileChanges a) = countOf Deleted files
  ∧ renamed (fileChanges a) = countOf Renamed files
  ∧ added (fileChanges a) + modified (fileChanges a) + deleted (fileChanges a)
    + renamed (fileChanges a) + countOf Copied files + countOf Unknown files
    = length files.
Proof.
  intros (_ & _ & ->)%analyzeCodeChanges_Some files.
  destruct (fileChanges_counted (initialState commits) commits) as (Ha & Hm & Hd & Hr).
  { done. }
  simpl. fold files in Ha, Hm, Hd, Hr. rewrite Ha, Hm, Hd, Hr.
  repeat split; try done. apply countOf_total.
Qed.

End ChangeTypes.

Lemma fileChanges_count_four_types_witness :
  let a := finish (analyzeLoop defaultConfig exampleHost workRepo
                     (initialState workCommits) workCommits) in
  let files := changedFilesOf defaultConfig exampleHost workRepo workCommits in
  added (fileChanges a) = countOf Added files
  ∧ modified (fileChanges a) = countOf Modified files
  ∧ deleted (fileChanges a) = countOf Deleted files
  ∧ renamed (fileChanges a) = countOf Renamed files
  ∧ added (fileChanges a) + modified (fileChanges a) + deleted (fileChanges a)
    + renamed (fileChanges a) + countOf Copied files + countOf Unknown files
    = length files.
Proof.
  apply (fileChanges_count_four_types defaultConfig exampleHost workRepo workCommits).
  reflexivity.
Defined.

(** The four counters of [workRepo] add up to 5, its change records are
    7: one is a copy and one a type change. *)
Lemma fileChanges_total_below_record_count :
  ∃ a, analyzeCodeChanges defaultConfig exampleHost workRepo workCommits = Some a
       ∧ added (fileChanges a) + modified (fileChanges a) + deleted (fileChanges a)
         + renamed (fileChanges a)
         ≠ length (changedFilesOf defaultConfig exampleHost workRepo workCommits).
Proof. eexists. split; [reflexivity|]. vm_compute. lia. Qed.


(** ** C5: the number of changed files *)

Section DistinctPaths.
Context (cfg : Config) (host : Host) (git : Git).

Lemma uniqFrom_length {A} (f : A → string) seen l :
  length (uniqFrom f seen l)
  = size ((list_to_set (f <$> l) : gset string) ∖ list_to_set seen).
Proof.
  revert seen. induction l as [|x l IH]; intros seen; csimpl.
  - by replace (∅ ∖ list_to_set seen : gset string) with (∅ : gset string) by set_solver.
  - case_bool_decide as Hseen.
    + rewrite IH. f_equal. set_solver.
    + csimpl. rewrite IH.
      replace (({[f x]} ∪ list_to_set (f <$> l)) ∖ list_to_set seen : gset string)
        with ({[f x]} ∪ (list_to_set (f <$> l) ∖ list_to_set (f x :: seen)) : gset string)
        by (apply set_eq; intros y; destruct (decide (y = f x)); set_solver).
      rewrite (size_union (C:=gset string) {[f x]}) by set_solver.
      by rewrite size_singleton.
Qed.

Lemma size_list_to_set_le (l : list string) :
  size (list_to_set l : gset string) ≤ length l.
Proof.
  induction l as [|x l IH].
  - by rewrite list_to_set_nil, (size_empty (C:=gset string)).
  - rewrite list_to_set_cons, length_cons.
    rewrite (size_union_alt (C:=gset string) {[x]}), size_singleton.
    assert (size (list_to_set l ∖ {[x]} : gset string) ≤ size (list_to_set l : gset string))
      by (apply subseteq_size; set_solver).
    lia.
Qed.

Lemma size_list_to_set_NoDup (l : list string) :
  size (list_to_set l : gset string) = length l ↔ NoDup l.
Proof.
  split; [|apply size_list_to_set].
  induction l as [|x l IH]; [constructor|].
  rewrite list_to_set_cons, length_cons.
  intros Hsize. pose proof (size_list_to_set_le l).
  destruct (decide (x ∈ l)) as [Hin|Hin].
  - replace ({[x]} ∪ list_to_set l : gset string) with (list_to_set l : gset string)
      in Hsize by set_solver.
    lia.
  - rewrite (size_union (C:=gset string) {[x]}) in Hsize by set_solver.
    rewrite size_singleton in Hsize.
    constructor; [done|]. apply IH. lia.
Qed.

(** [totalFilesChanged] (gitService.js, lines 343-344) is the number of
    distinct paths of the change records; it is at most the number of
    records, and equal to it exactly when no path occurs in two records. *)
Theorem totalFilesChanged_distinct_paths commits a :
  analyzeCodeChanges cfg host git commits = Some a →
  let paths := cr_path <$> changedFilesOf cfg host git commits in
  totalFilesChanged a = size (list_to_set paths : gset string)
  ∧ totalFilesChanged a ≤ length paths
  ∧ (totalFilesChanged a = length paths ↔ NoDup paths).
Proof.
  intros (_ & _ & ->)%analyzeCodeChanges_Some paths. simpl.
  unfold uniqBy. rewrite uniqFrom_length. fold (changedFilesOf cfg host git commits).
  fold paths.
  replace (list_to_set paths ∖ list_to_set [] : gset string)
    with (list_to_set paths : gset string) by set_solver.
  split; [done|]. split; [apply size_list_to_set_le|apply size_list_to_set_NoDup].
Qed.

End DistinctPaths.

Lemma totalFilesChanged_distinct_paths_witness :
  let a := finish (analyzeLoop defaultConfig exampleHost workRepo
                     (initialState workCommits) workCommits) in
  let paths := cr_path <$> changedFilesOf defaultConfig exampleHost workRepo workCommits in
  totalFilesChanged a = size (list_to_set paths : gset string)
  ∧ totalFilesChanged a ≤ length paths
  ∧ (totalFilesChanged a = length paths ↔ NoDup paths).
Proof.
  apply (totalFilesChanged_distinct_paths defaultConfig exampleHost workRepo workCommits).
  reflexivity.
Defined.

(** C5 (gitService.js, lines 184-198 and 343-344): the first commit of
    [namesOnlyRepo] adds the files [a.txt] and [b.txt], and its tree listing
    has their two names. Both change records get the empty path, so that
    [totalFilesChanged] is 1: two files were changed, each by one commit,
    and the distinct count is below the record count. *)
Theorem totalFilesChanged_below_records_of_one_commit :
  let commits := [commitBy "ann" "c1" true] in
  let files := changedFilesOf defaultConfig exampleHost namesOnlyRepo commits in
  lsTree namesOnlyRepo "c1" = Resolved (unlines ["a.txt"; "b.txt"])
  ∧ cr_path <$> files = [""; ""]
  ∧ ∃ a, analyzeCodeChanges defaultConfig exampleHost namesOnlyRepo commits = Some a
         ∧ touchedByOneCommit files
         ∧ totalFilesChanged a = 1
         ∧ totalFilesChanged a ≠ length files.
Proof.
  intros commits files. split; [reflexivity|]. split; [reflexivity|].
  eexists. split; [reflexivity|]. split; [|split].
  - assert (Forall (λ r, cr_commit r = "c1") files) as Hall
      by (vm_compute; repeat constructor).
    rewrite Forall_forall in Hall.
    intros r1 r2 H1 H2 _. by rewrite (Hall r1), (Hall r2).
  - reflexivity.
  - vm_compute. lia.
Qed.


(** ** C10: the commit count and the authors' commit counts *)

Section CommitTotals.
Context (cfg : Config) (host : Host) (git : Git).

Lemma authorCommitTotal_insert_new m who s :
  m !! who = None →
  authorCommitTotal (<[who := s]> m) = AuthorStats.commits s + authorCommitTotal m.
Proof.
  intros Hnew. unfold authorCommitTotal.
  rewrite map_fold_insert_L; [done| |done]. intros. lia.
Qed.

Lemma authorCommitTotal_insert m who s :
  authorCommitTotal (<[who := s]> m) + default 0 (AuthorStats.commits <$> m !! who)
  = AuthorStats.commits s + authorCommitTotal m.
Proof.
  destruct (m !! who) as [s0|] eqn:Hwho; simpl.
  - rewrite <- (insert_delete_id m who s0) at 2 by done.
    rewrite <- (insert_delete_eq m).
    rewrite !authorCommitTotal_insert_new by apply lookup_delete_eq. lia.
  - rewrite authorCommitTotal_insert_new by done. lia.
Qed.

Lemma authorsTotal_countAuthorCommit who st :
  authorsTotal (countAuthorCommit who st) ≤ S (authorsTotal st).
Proof.
  unfold authorsTotal, countAuthorCommit, withAuthors, withAnalysis. simpl.
  destruct (commitsByAuthor (analysis st) !! who) as [s|] eqn:Hwho.
  - pose proof (authorCommitTotal_insert (commitsByAuthor (analysis st)) who
      (AuthorStats.mk (S (AuthorStats.commits s)) (AuthorStats.additions s)
         (AuthorStats.deletions s))) as Hsum.
    rewrite Hwho in Hsum. simpl in Hsum. lia.
  - case_bool_decide; [lia|]. rewrite authorCommitTotal_insert_new by done.
    simpl. lia.
Qed.

Lemma authorsTotal_addAuthorLines who stats st :
  authorsTotal (addAuthorLines who stats st) = authorsTotal st.
Proof.
  unfold authorsTotal, addAuthorLines, withAuthors, withAnalysis. simpl.
  destruct (commitsByAuthor (analysis st) !! who) as [s|] eqn:Hwho; [|done].
  pose proof (authorCommitTotal_insert (commitsByAuthor (analysis st)) who
    (AuthorStats.mk (AuthorStats.commits s)
       (AuthorStats.additions s + DiffSummary.insertions stats)
       (AuthorStats.deletions s + DiffSummary.deletions stats))) as Hsum.
  rewrite Hwho in Hsum. simpl in Hsum. lia.
Qed.

Lemma authorsTotal_recordFiles c files st :
  authorsTotal (recordFiles cfg host c files st) = authorsTotal st.
Proof.
  unfold recordFiles. revert st.
  induction files as [|f files IH]; intros st; simpl; [done|]. by rewrite IH.
Qed.

Lemma authorsTotal_addStatLines show st :
  authorsTotal (addStatLines show st) = authorsTotal st.
Proof. unfold addStatLines. by destruct (statMatch show) as [[??]|]. Qed.

(** An iteration adds at most one commit to the authors' counts. *)
Lemma authorsTotal_analyzeCommit st c :
  authorsTotal (analyzeCommit cfg host git st c) ≤ S (authorsTotal st).
Proof.
  destruct (isFirstCommit c) eqn:Hroot.
  - rewrite analyzeCommit_root by done.
    destruct (lsTree git (hash c)); [|lia].
    destruct (showStat git (hash c)); [|lia].
    etrans; [apply authorsTotal_countAuthorCommit|].
    rewrite authorsTotal_recordFiles, authorsTotal_addStatLines. lia.
  - rewrite analyzeCommit_other by done.
    destruct (diffSummary git (hash c)) as [stats|]; [|lia].
    assert (authorsTotal (addLineChanges (DiffSummary.insertions stats)
                            (DiffSummary.deletions stats) st) = authorsTotal st)
      as Hlines by done.
    cbv zeta.
    destruct (diffNameStatus git (hash c)); [|lia].
    destruct (diffSummaryAgain git (hash c));
      rewrite ?authorsTotal_addAuthorLines;
      (etrans; [apply authorsTotal_countAuthorCommit|]);
      rewrite authorsTotal_recordFiles; lia.
Qed.

Lemma authorsTotal_analyzeLoop st commits :
  authorsTotal (analyzeLoop cfg host git st commits) ≤ authorsTotal st + length commits.
Proof.
  unfold analyzeLoop. revert st.
  induction commits as [|c commits IH]; intros st; simpl; [lia|].
  etrans; [apply IH|]. pose proof (authorsTotal_analyzeCommit st c). lia.
Qed.

Lemma totalCommits_analyzeLoop st commits :
  totalCommits (analysis (analyzeLoop cfg host git st commits))
  = totalCommits (analysis st).
Proof.
  apply (analyzeLoop_preserves cfg host git
           (λ st', totalCommits (analysis st') = totalCommits (analysis st))); done.
Qed.

(** C10 (gitService.js, lines 242-258 and 319-341): with code analysis
    enabled and a commit list that is not empty, an analysis is returned,
    its [totalCommits] is the length of the list whatever fails, and the
    commit counts of all authors add up to at most [totalCommits]. *)
Theorem totalCommits_is_length commits :
  includeCodeAnalysis cfg = true →
  commits ≠ [] →
  ∃ a, analyzeCodeChanges cfg host git commits = Some a
       ∧ totalCommits a = length commits
       ∧ authorCommitTotal (commitsByAuthor a) ≤ totalCommits a.
Proof.
  intros Hon Hne. unfold analyzeCodeChanges. rewrite Hon.
  destruct commits as [|c commits]; [done|]. simpl negb. cbn [orb length Nat.eqb].
  eexists. split; [done|]. cbn [finish totalCommits commitsByAuthor].
  rewrite totalCommits_analyzeLoop. split; [done|].
  pose proof (authorsTotal_analyzeLoop (initialState (c :: commits)) (c :: commits)) as H.
  unfold authorsTotal in H. simpl in H |- *. done.
Qed.

End CommitTotals.

Lemma totalCommits_is_length_witness :
  ∃ a, analyzeCodeChanges defaultConfig exampleHost namesOnlyRepo workCommits = Some a
       ∧ totalCommits a = length workCommits
       ∧ authorCommitTotal (commitsByAuthor a) ≤ totalCommits a.
Proof.
  apply (totalCommits_is_length defaultConfig exampleHost namesOnlyRepo workCommits).
  - reflexivity.
  - discriminate.
Defined.

(** In [namesOnlyRepo] the two commits that are not flagged fail, and one
    of three commits is counted for an author. *)
Example failed_commits_are_in_totalCommits :
  (λ a, (totalCommits a, authorCommitTotal (commitsByAuthor a)))
    <$> analyzeCodeChanges defaultConfig exampleHost namesOnlyRepo workCommits
  = Some (3, 1).
Proof. reflexivity. Qed.


(** ** C1: a commit whose classification fails *)

Section Failures.
Context (cfg : Config) (host : Host) (git : Git).

Lemma failsBeforeFolding_noop st c :
  failsBeforeFolding git c → analyzeCommit cfg host git st c = st.
Proof.
  unfold failsBeforeFolding. destruct (isFirstCommit c) eqn:Hroot.
  - rewrite analyzeCommit_root by done.
    destruct (lsTree git (hash c)), (showStat git (hash c)); simpl; naive_solver.
  - rewrite analyzeCommit_other by done.
    by destruct (diffSummary git (hash c)).
Qed.

(** C1 (gitService.js, lines 263-341): a rejected query ends the commit's
    iteration and keeps what the iteration changed before it. When the
    tree listing or the stat summary of the first commit, or the first
    diff summary of another commit is rejected, the loop state is the one
    without the commit, and the analysis returned is that of the other
    commits (with the commit in [totalCommits]). When the name-status diff
    is rejected the commit's line changes stay; when the second diff
    summary is rejected only the author's line totals miss. The loop goes
    on with the next commit in every case. *)
Theorem failed_commit_contribution c :
  (failsBeforeFolding git c →
   ∀ st pre post,
     analyzeLoop cfg host git st (pre ++ c :: post)
     = analyzeLoop cfg host git st (pre ++ post)
     ∧ (includeCodeAnalysis cfg = true →
        analyzeCodeChanges cfg host git (pre ++ c :: post)
        = Some (finish (analyzeLoop cfg host git
                          (initialState (pre ++ c :: post)) (pre ++ post)))))
  ∧ (∀ stats message,
       isFirstCommit c = false →
       diffSummary git (hash c) = Resolved stats →
       diffNameStatus git (hash c) = Rejected message →
       ∀ st rest,
         analyzeLoop cfg host git st (c :: rest)
         = analyzeLoop cfg host git
             (addLineChanges (DiffSummary.insertions stats)
                (DiffSummary.deletions stats) st) rest)
  ∧ (∀ stats diff message,
       isFirstCommit c = false →
       diffSummary git (hash c) = Resolved stats →
       diffNameStatus git (hash c) = Resolved diff →
       diffSummaryAgain git (hash c) = Rejected message →
       ∀ st rest,
         analyzeLoop cfg host git st (c :: rest)
         = analyzeLoop cfg host git
             (countAuthorCommit (author c)
                (recordFiles cfg host c (parseGitDiff diff)
                   (addLineChanges (DiffSummary.insertions stats)
                      (DiffSummary.deletions stats) st))) rest).
Proof.
  split; [|split].
  - intros Hfail st pre post.
    assert (∀ st, analyzeLoop cfg host git st (pre ++ c :: post)
                  = analyzeLoop cfg host git st (pre ++ post)) as Hloop.
    { intros st'. rewrite !analyzeLoop_app. unfold analyzeLoop at 1. simpl.
      by rewrite failsBeforeFolding_noop. }
    split; [done|]. intros Hon. unfold analyzeCodeChanges. rewrite Hon.
    rewrite length_app. simpl. replace (length pre + S (length post) =? 0) with false
      by (symmetry; apply Nat.eqb_neq; lia).
    by rewrite Hloop.
  - intros stats message Hroot Hsum Hdiff st rest. unfold analyzeLoop. simpl.
    by rewrite analyzeCommit_other, Hsum, Hdiff.
  - intros stats diff message Hroot Hsum Hdiff Hagain st rest. unfold analyzeLoop. simpl.
    by rewrite analyzeCommit_other, Hsum, Hdiff, Hagain.
Qed.

End Failures.

Lemma failed_commit_contribution_witness :
  let cfg := defaultConfig in
  let st := initialState workCommits in
  (analyzeLoop cfg exampleHost namesOnlyRepo st
     ([commitBy "ann" "c1" true] ++ commitBy "bob" "c2" false :: [])
   = analyzeLoop cfg exampleHost namesOnlyRepo st ([commitBy "ann" "c1" true] ++ []))
  ∧ analyzeLoop cfg exampleHost flakyRepo st [commitBy "bob" "c2" false]
    = analyzeLoop cfg exampleHost flakyRepo (addLineChanges 3 1 st) []
  ∧ analyzeLoop cfg exampleHost flakyRepo st [commitBy "ann" "c3" false]
    = analyzeLoop cfg exampleHost flakyRepo
        (countAuthorCommit "ann"
           (recordFiles cfg exampleHost (commitBy "ann" "c3" false)
              (parseGitDiff (unlines [tsv ["M"; "a.go"]; tsv ["A"; "7"]]))
              (addLineChanges 5 2 st))) [].
Proof.
  intros cfg st. split; [|split].
  - apply (failed_commit_contribution cfg exampleHost namesOnlyRepo
             (commitBy "bob" "c2" false)).
    reflexivity.
  - apply (proj1 (proj2 (failed_commit_contribution cfg exampleHost flakyRepo
                           (commitBy "bob" "c2" false)))
             (DiffSummary.mk 3 1) "spawn git EAGAIN"); reflexivity.
  - apply (proj2 (proj2 (failed_commit_contribution cfg exampleHost flakyRepo
                           (commitBy "ann" "c3" false)))
             (DiffSummary.mk 5 2) (unlines [tsv ["M"; "a.go"]; tsv ["A"; "7"]])
             "spawn git EAGAIN"); reflexivity.
Defined.

(** The name-status diff of [c2] is rejected after its diff summary was
    added: the commit fails and its line changes are in the aggregate. *)
Lemma failed_commit_keeps_line_changes :
  let c := commitBy "bob" "c2" false in
  let st := initialState [c] in
  classificationFails flakyRepo c
  ∧ lineChanges (analysis (analyzeLoop defaultConfig exampleHost flakyRepo st [c]))
    ≠ lineChanges (analysis (analyzeLoop defaultConfig exampleHost flakyRepo st [])).
Proof. split; [right; left; reflexivity|]. vm_compute. discriminate. Qed.

(** The second diff summary of [c3] is rejected: the commit fails, its two
    files, its line changes and its author's commit are in the analysis. *)
Example failed_commit_keeps_files_and_author :
  let c := commitBy "ann" "c3" false in
  classificationFails flakyRepo c
  ∧ (λ a, (fileChanges a, lineChanges a, commitsByAuthor a !! "ann"))
      <$> analyzeCodeChanges defaultConfig exampleHost flakyRepo [c]
    = Some ({| added := 1; modified := 1; deleted := 0; renamed := 0 |},
            {| additions := 5; deletions := 2 |},
            Some (AuthorStats.mk 1 0 0)).
Proof. split; [right; right; reflexivity|]. reflexivity. Qed.


(** ** Numbers *)

Lemma Number_add_exact a b :
  (a + b < 2 ^ 53)%N →
  Number.add (Number.Finite a) (Number.Finite b) = Number.Finite (a + b).
Proof.
  intros Hlt. unfold Number.add, Number.round.
  by rewrite (proj2 (N.ltb_lt _ _) Hlt).
Qed.

Lemma Number_total_nonneg_fold l : ∀ a m,
  Number.total l = Some m → (a + m < 2 ^ 53)%N →
  foldl Number.add (Number.Finite a) l = Number.Finite (a + m).
Proof.
  induction l as [|[n|] l IH]; intros a m; cbn [foldl Number.total].
  - intros [= <-] _. by rewrite N.add_0_r.
  - intros Heq Hlt. destruct (Number.total l) as [m'|]; [|done].
    simpl in Heq. injection Heq as <-. rewrite Number_add_exact by lia.
    rewrite (IH _ m') by (done || lia). f_equal. lia.
  - done.
Qed.

(** Numbers that add up to less than 2^53 are added without rounding. *)
Lemma Number_sum_exact l :
  Number.exact l = true →
  Number.sum l = Number.Finite (default 0%N (Number.total l)).
Proof.
  unfold Number.exact, Number.sum.
  destruct (Number.total l) as [m|] eqn:Hl; [|done].
  intros Hlt%N.ltb_lt. by rewrite (Number_total_nonneg_fold l 0 m).
Qed.

Lemma Number_total_Permutation l l' :
  l ≡ₚ l' → Number.total l = Number.total l'.
Proof.
  induction 1 as [|x l l' _ IH|x y l|l l' l'' _ IH1 _ IH2]; simpl.
  - done.
  - by rewrite IH.
  - destruct x, y; try done. destruct (Number.total l); simpl; [|done].
    f_equal. lia.
  - by rewrite IH1.
Qed.

(** Such numbers give the same sum in every order. *)
Lemma Number_sum_Permutation l l' :
  l ≡ₚ l' → Number.exact l = true → Number.sum l = Number.sum l'.
Proof.
  intros Hperm Hexact.
  assert (Number.exact l' = true) as Hexact'
    by (unfold Number.exact in *; by rewrite <- (Number_total_Permutation _ _ Hperm)).
  rewrite !Number_sum_exact by done.
  by rewrite (Number_total_Permutation _ _ Hperm).
Qed.

Lemma additions_addLines l : ∀ lc,
  additions (foldl addLines lc l) = foldl Number.add (additions lc) l.*1.
Proof. induction l as [|n l IH]; intros lc; simpl; [done|]. by rewrite IH. Qed.

Lemma deletions_addLines l : ∀ lc,
  deletions (foldl addLines lc l) = foldl Number.add (deletions lc) l.*2.
Proof. induction l as [|n l IH]; intros lc; simpl; [done|]. by rewrite IH. Qed.

(** ** C4: line changes of the repository and of the authors *)

Section LineTotals.
Context (cfg : Config) (host : Host) (git : Git).

Lemma recordFiles_lineChanges c files st :
  lineChanges (analysis (recordFiles cfg host c files st)) = lineChanges (analysis st).
Proof.
  unfold recordFiles. revert st.
  induction files as [|f files IH]; intros st; simpl; [done|]. by rewrite IH.
Qed.

Lemma recordFiles_commitsByAuthor c files st :
  commitsByAuthor (analysis (recordFiles cfg host c files st))
  = commitsByAuthor (analysis st).
Proof.
  unfold recordFiles. revert st.
  induction files as [|f files IH]; intros st; simpl; [done|]. by rewrite IH.
Qed.


Lemma addStatLines_commitsByAuthor show st :
  commitsByAuthor (analysis (addStatLines show st)) = commitsByAuthor (analysis st).
Proof. unfold addStatLines. by destruct (statMatch show) as [[??]|]. Qed.


Lemma creditAuthor_lookup who n m other :
  creditAuthor who n m !! other
  = if decide (who = other)
    then Some (AuthorStats.mk
                 (S (AuthorStats.commits (default (AuthorStats.mk 0 0 0) (m !! who))))
                 (AuthorStats.additions (default (AuthorStats.mk 0 0 0) (m !! who)) + n.1)
                 (AuthorStats.deletions (default (AuthorStats.mk 0 0 0) (m !! who)) + n.2))
    else m !! other.
Proof. unfold creditAuthor. by rewrite lookup_insert. Qed.




End LineTotals.




(** ** Sorting *)

Lemma insertSorted_Permutation {A} (cmp : A → A → Z) x l :
  insertSorted cmp x l ≡ₚ x :: l.
Proof.
  induction l as [|y l IH]; simpl; [done|].
  case_match; [done|]. by rewrite IH, Permutation_swap.
Qed.

Lemma sortWith_Permutation {A} (cmp : A → A → Z) l : sortWith cmp l ≡ₚ l.
Proof.
  induction l as [|x l IH]; simpl; [done|].
  by rewrite insertSorted_Permutation, IH.
Qed.

Section SortWith.
Context {A : Type} (cmp : A → A → Z) (key : A → Z).
Hypothesis cmp_key : ∀ a b, (cmp a b <=? 0)%Z = true ↔ (key a ≤ key b)%Z.

Lemma insertSorted_sorted x l :
  StronglySorted (λ a b, (key a ≤ key b)%Z) l →
  StronglySorted (λ a b, (key a ≤ key b)%Z) (insertSorted cmp x l).
Proof.
  induction l as [|y l IH]; simpl; intros Hl.
  - repeat constructor.
  - apply StronglySorted_cons in Hl as [Hy Hl].
    destruct (cmp x y <=? 0)%Z eqn:Hxy.
    + apply cmp_key in Hxy. constructor.
      * by apply StronglySorted_cons.
      * constructor; [done|]. eapply Forall_impl; [exact Hy|]. simpl. intros. lia.
    + assert (key y < key x)%Z.
      { destruct (Z.le_gt_cases (key x) (key y)) as [Hle|]; [|lia].
        apply cmp_key in Hle. congruence. }
      constructor; [by apply IH|].
      rewrite insertSorted_Permutation. constructor; [lia|done].
Qed.

(** The result is sorted by the key. *)
Lemma sortWith_sorted l :
  StronglySorted (λ a b, (key a ≤ key b)%Z) (sortWith cmp l).
Proof.
  induction l as [|x l IH]; simpl; [constructor|]. by apply insertSorted_sorted.
Qed.

Lemma insertSorted_stable v x l :
  filter (λ a, key a = v) (insertSorted cmp x l) = filter (λ a, key a = v) (x :: l).
Proof.
  induction l as [|y l IH]; simpl; [done|].
  destruct (cmp x y <=? 0)%Z eqn:Hxy; [done|].
  assert (key y < key x)%Z.
  { destruct (Z.le_gt_cases (key x) (key y)) as [Hle|]; [|lia].
    apply cmp_key in Hle. congruence. }
  rewrite (filter_cons _ y), IH, !filter_cons.
  repeat case_decide; try done; lia.
Qed.

(** The sort is stable: the elements of one key keep their order. *)
Lemma sortWith_stable v l :
  filter (λ a, key a = v) (sortWith cmp l) = filter (λ a, key a = v) l.
Proof.
  induction l as [|x l IH]; simpl; [done|].
  by rewrite insertSorted_stable, !filter_cons, IH.
Qed.

Lemma insertSorted_least x l :
  Forall (λ y, (key x ≤ key y)%Z) l → insertSorted cmp x l = x :: l.
Proof.
  destruct l as [|y l]; [done|]. intros [Hy _]%Forall_cons. simpl.
  by rewrite (proj2 (cmp_key x y) Hy).
Qed.

Lemma insertSorted_filter (P : A → Prop) `{!∀ a, Decision (P a)} x l :
  StronglySorted (λ a b, (key a ≤ key b)%Z) l →
  filter P (insertSorted cmp x l)
  = if decide (P x) then insertSorted cmp x (filter P l) else filter P l.
Proof.
  induction l as [|y l IH]; intros Hl.
  - simpl. rewrite filter_cons, filter_nil. by case_decide.
  - apply StronglySorted_cons in Hl as [Hy Hl]. cbn [insertSorted].
    destruct (cmp x y <=? 0)%Z eqn:Hxy.
    + rewrite (filter_cons _ x). destruct (decide (P x)) as [Hx|Hx]; [|done].
      apply cmp_key in Hxy. rewrite insertSorted_least; [done|].
      apply Forall_forall. intros z [_ Hz]%list_elem_of_filter.
      apply elem_of_cons in Hz as [->|Hz]; [done|].
      rewrite Forall_forall in Hy. specialize (Hy z Hz). simpl in Hy. lia.
    + rewrite (filter_cons _ y), (IH Hl), (filter_cons _ y).
      destruct (decide (P y)) as [Hpy|Hpy]; [|done].
      destruct (decide (P x)) as [Hx|Hx]; [|done].
      cbn [insertSorted]. by rewrite Hxy.
Qed.

(** Sorting commutes with dropping elements. *)
Lemma sortWith_filter (P : A → Prop) `{!∀ a, Decision (P a)} l :
  filter P (sortWith cmp l) = sortWith cmp (filter P l).
Proof.
  induction l as [|x l IH]; [done|].
  cbn [sortWith foldr]. fold (sortWith cmp l).
  rewrite insertSorted_filter by apply sortWith_sorted.
  rewrite filter_cons, IH. by case_decide.
Qed.

End SortWith.

Lemma byCommitsDesc_key a b :
  (byCommitsDesc a b <=? 0)%Z = true
  ↔ (- Z.of_nat (length (commits a)) ≤ - Z.of_nat (length (commits b)))%Z.
Proof. unfold byCommitsDesc. rewrite Z.leb_le. lia. Qed.

Lemma omap_has_value {A B} (f : A → option B) (l : list A) :
  omap f l = omap f (filter (λ x, is_Some (f x)) l).
Proof.
  induction l as [|x l IH]; [done|]. rewrite filter_cons. cbn [omap list_omap].
  destruct (f x) as [y|] eqn:Hx.
  - rewrite decide_True by eauto. cbn [omap list_omap]. by rewrite Hx, IH.
  - by rewrite decide_False by (by intros [??]).
Qed.

Lemma omap_nil_filter {A B} (f : A → option B) (l : list A) :
  omap f l = [] → filter (λ x, is_Some (f x)) l = [].
Proof.
  induction l as [|x l IH]; [done|]. rewrite filter_cons. cbn [omap list_omap].
  destruct (f x) as [y|] eqn:Hx; [done|].
  intros ?%IH. by rewrite decide_False by (by intros [??]).
Qed.

(** Two elements in this order in a sorted list are in the order of the
    relation. *)
Lemma StronglySorted_pair {A} (R : relation A) l x y :
  StronglySorted R l → [x; y] `sublist_of` l → R x y.
Proof.
  induction l as [|z l IH]; intros Hl Hsub.
  - by apply sublist_nil_r in Hsub.
  - apply StronglySorted_cons in Hl as [Hz Hl].
    apply sublist_cons_r in Hsub as [Hsub|(l' & [= <- <-] & Hsub)]; [by apply IH|].
    rewrite Forall_forall in Hz. apply Hz.
    eapply elem_of_sublist; [|done]. by left.
Qed.

Lemma lookup_lt_sublist {A} (l : list A) i j x y :
  i < j → l !! i = Some x → l !! j = Some y → [x; y] `sublist_of` l.
Proof.
  revert i j. induction l as [|z l IH]; intros i j Hij Hi Hj; [done|].
  destruct i as [|i], j as [|j]; try lia; simpl in *.
  - injection Hi as ->. apply sublist_skip.
    apply singleton_sublist_l. by eapply list_elem_of_lookup_2.
  - apply sublist_cons. eapply (IH i j); [lia|done..].
Qed.

Lemma sublist_filter_mono {A} (P : A → Prop) `{!∀ x, Decision (P x)} (l1 l2 : list A) :
  l1 `sublist_of` l2 → filter P l1 `sublist_of` filter P l2.
Proof.
  induction 1 as [|x l1 l2 _ IH|x l1 l2 _ IH]; rewrite ?filter_cons.
  - done.
  - case_decide; [by apply sublist_skip|done].
  - case_decide; [by apply sublist_cons|done].
Qed.

(** ** Decimal numerals and array indices *)

Lemma isDigit_value c : isDigit c = true → digitValue c < 10.
Proof.
  unfold isDigit, digitValue. rewrite andb_true_iff, !Nat.leb_le. lia.
Qed.

Lemma digitValue_inj c d :
  isDigit c = true → isDigit d = true → digitValue c = digitValue d → c = d.
Proof.
  unfold isDigit, digitValue. rewrite !andb_true_iff, !Nat.leb_le.
  intros [??] [??] Heq.
  rewrite <- (ascii_nat_embedding c), <- (ascii_nat_embedding d). f_equal. lia.
Qed.

Lemma digits_value acc l :
  forallb isDigit l = true →
  (fold_left digitStep l acc = acc * 10 ^ N.of_nat (length l) + fold_left digitStep l 0
   ∧ fold_left digitStep l 0 < 10 ^ N.of_nat (length l))%N.
Proof.
  revert acc. induction l as [|c l IH]; intros acc; simpl.
  - intros _. split; lia.
  - rewrite andb_true_iff. intros [Hc Hl].
    destruct (IH (digitStep acc c) Hl) as [-> _].
    destruct (IH (digitStep 0 c) Hl) as [-> Hlt].
    pose proof (isDigit_value c Hc) as Hd.
    rewrite Nat2N.inj_succ, N.pow_succ_r'.
    set (v := fold_left digitStep l 0%N) in *.
    set (pw := (10 ^ N.of_nat (length l))%N) in *.
    clearbody v pw. unfold digitStep. split; nia.
Qed.

Lemma digits_inj l1 l2 :
  forallb isDigit l1 = true → forallb isDigit l2 = true →
  length l1 = length l2 →
  fold_left digitStep l1 0%N = fold_left digitStep l2 0%N → l1 = l2.
Proof.
  revert l2. induction l1 as [|c l1 IH]; intros [|d l2]; simpl; try done.
  rewrite !andb_true_iff. intros [Hc Hl1] [Hd Hl2] [= Hlen].
  destruct (digits_value (digitStep 0 c) l1 Hl1) as [-> Hlt1].
  destruct (digits_value (digitStep 0 d) l2 Hl2) as [-> Hlt2].
  pose proof (isDigit_value c Hc). pose proof (isDigit_value d Hd).
  rewrite <- Hlen in *.
  set (v1 := fold_left digitStep l1 0%N) in *.
  set (v2 := fold_left digitStep l2 0%N) in *.
  set (pw := (10 ^ N.of_nat (length l1))%N) in *.
  unfold digitStep. intros Heq.
  assert (digitValue c = digitValue d) as Hcd by nia.
  assert (v1 = v2) by (rewrite Hcd in Heq; lia).
  f_equal; [by apply digitValue_inj|by apply IH].
Qed.

(** A numeral without a leading zero is at least [10 ^ (length - 1)]. *)
Lemma digits_lower_bound c l :
  isDigit c = true → c ≠ "0"%char → forallb isDigit l = true →
  (10 ^ N.of_nat (length l) ≤ fold_left digitStep (c :: l) 0)%N.
Proof.
  intros Hc Hnz Hl. simpl.
  destruct (digits_value (digitStep 0 c) l Hl) as [-> _].
  assert (digitValue c ≠ 0).
  { intros Hz. apply Hnz. apply digitValue_inj; done. }
  set (v := fold_left digitStep l 0%N) in *.
  set (pw := (10 ^ N.of_nat (length l))%N) in *.
  clearbody v pw. unfold digitStep. nia.
Qed.

Lemma list_ascii_of_string_inj s t :
  list_ascii_of_string s = list_ascii_of_string t → s = t.
Proof.
  intros Heq. by rewrite <- (string_of_list_ascii_of_string s), Heq,
    string_of_list_ascii_of_string.
Qed.

(** Two array-index keys of the same value are the same key. *)
Lemma arrayIndex_inj p q i :
  arrayIndex p = Some i → arrayIndex q = Some i → p = q.
Proof.
  assert (∀ s i, arrayIndex s = Some i →
            ∃ c l, list_ascii_of_string s = c :: l
                   ∧ forallb isDigit (c :: l) = true
                   ∧ (c ≠ "0"%char ∨ l = [])
                   ∧ fold_left digitStep (c :: l) 0%N = i) as Hcanon.
  { intros [|c rest] j; simpl; [done|].
    destruct (isDigit c && forallb isDigit (list_ascii_of_string rest)) eqn:Hd; [|done].
    simpl. destruct (Ascii.eqb_spec c "0") as [->|Hc]; simpl.
    - destruct (String.eqb_spec rest "") as [->|]; simpl; [|done].
      intros Hj. exists "0"%char, []. repeat split; auto.
      by injection Hj as <-.
    - destruct (String.length rest <=? 9); [|done].
      unfold parseIntN. simpl. case_match; [|done]. intros [= <-].
      exists c, (list_ascii_of_string rest). repeat split; auto. }
  intros (c & l & Hp & Hdp & Hzp & Hvp)%Hcanon (d & k & Hq & Hdq & Hzq & Hvq)%Hcanon.
  apply list_ascii_of_string_inj. rewrite Hp, Hq.
  apply digits_inj; try done; [|congruence].
  simpl in Hdp, Hdq. apply andb_true_iff in Hdp as [Hc Hl], Hdq as [Hd Hk].
  destruct (digits_value 0 (c :: l)) as [_ Hup1]; [by simpl; rewrite Hc|].
  destruct (digits_value 0 (d :: k)) as [_ Hup2]; [by simpl; rewrite Hd|].
  assert (∀ c l, isDigit c = true → forallb isDigit l = true → c ≠ "0"%char ∨ l = [] →
            (10 ^ N.of_nat (length l) ≤ fold_left digitStep (c :: l) 0
             ∨ l = [])%N) as Hlow.
  { intros c' l' ?? [?|?]; [left; by apply digits_lower_bound|by right]. }
  simpl length in *.
  destruct (decide (length l = length k)) as [|Hne]; [congruence|exfalso].
  rewrite Hvp in Hup1. rewrite Hvq in Hup2.
  destruct (Hlow c l Hc Hl Hzp) as [Hlo1| ->], (Hlow d k Hd Hk Hzq) as [Hlo2| ->];
    rewrite ?Hvp, ?Hvq in *; simpl length in *.
  - destruct (decide (length l < length k)).
    + assert (10 ^ N.of_nat (S (length l)) ≤ 10 ^ N.of_nat (length k))%N
        by (apply N.pow_le_mono_r; lia).
      lia.
    + assert (10 ^ N.of_nat (S (length k)) ≤ 10 ^ N.of_nat (length l))%N
        by (apply N.pow_le_mono_r; lia).
      lia.
  - assert (10 ^ N.of_nat 1 ≤ 10 ^ N.of_nat (length l))%N
      by (apply N.pow_le_mono_r; destruct l; simpl in *; lia).
    lia.
  - assert (10 ^ N.of_nat 1 ≤ 10 ^ N.of_nat (length k))%N
      by (apply N.pow_le_mono_r; destruct k; simpl in *; lia).
    lia.
  - done.
Qed.

(** ** The count object and its keys *)

Lemma bump_keys k o :
  (bump k o).*1 = if bool_decide (k ∈ o.*1) then o.*1 else (o.*1 ++ [k])%list.
Proof.
  induction o as [|[k' n] o IH]; simpl; [done|].
  destruct (String.eqb_spec k' k) as [->|Hne]; csimpl.
  - by rewrite bool_decide_eq_true_2 by by left.
  - rewrite IH. case_bool_decide as Hin.
    + by rewrite bool_decide_eq_true_2 by by right.
    + rewrite bool_decide_eq_false_2; [done|]. by intros [?|?]%elem_of_cons.
Qed.

Lemma getCount_bump k o p :
  getCount (bump k o) p = if decide (k = p) then S (getCount o k) else getCount o p.
Proof.
  induction o as [|[k' n] o IH]; simpl.
  - destruct (String.eqb_spec k p); by case_decide.
  - destruct (String.eqb_spec k' k) as [->|Hne]; simpl.
    + destruct (String.eqb_spec k p); by case_decide.
    + rewrite IH. destruct (String.eqb_spec k' p) as [->|]; [|done].
      rewrite decide_False by done. done.
Qed.

Lemma getCount_elem o p n :
  NoDup o.*1 → (p, n) ∈ o → getCount o p = n.
Proof.
  induction o as [|[k m] o IH]; csimpl; [by intros _ ?%elem_of_nil|].
  rewrite NoDup_cons. intros [Hk Hnd] [[= -> ->]|Hin]%elem_of_cons.
  - by rewrite String.eqb_refl.
  - destruct (String.eqb_spec k p) as [->|]; [|by apply IH].
    destruct Hk. apply list_elem_of_fmap. by exists (p, n).
Qed.

Lemma uniqFrom_ext {A} (f : A → string) seen seen' l :
  (∀ k, k ∈ seen ↔ k ∈ seen') → uniqFrom f seen l = uniqFrom f seen' l.
Proof.
  revert seen seen'. induction l as [|x l IH]; intros seen seen' Hsame; simpl; [done|].
  rewrite (bool_decide_ext _ (f x ∈ seen')) by apply Hsame.
  case_bool_decide; [by apply IH|]. f_equal. apply IH.
  intros k. rewrite !elem_of_cons. naive_solver.
Qed.

Lemma uniqFrom_fmap {A} (f : A → string) seen l :
  f <$> uniqFrom f seen l = uniqFrom id seen (f <$> l).
Proof.
  revert seen. induction l as [|x l IH]; intros seen; csimpl; [done|].
  case_bool_decide; csimpl; by rewrite IH.
Qed.

Lemma uniqFrom_fresh seen l k : k ∈ uniqFrom id seen l → k ∉ seen.
Proof.
  revert seen. induction l as [|x l IH]; intros seen; simpl; [by intros ?%elem_of_nil|].
  case_bool_decide as Hx; [apply IH|].
  intros [->|Hin]%elem_of_cons; [done|].
  apply IH in Hin. by intros ?; apply Hin; right.
Qed.

Lemma uniqFrom_NoDup seen l : NoDup (uniqFrom id seen l).
Proof.
  revert seen. induction l as [|x l IH]; intros seen; simpl; [constructor|].
  case_bool_decide; [apply IH|]. constructor; [|apply IH].
  intros Hin%uniqFrom_fresh. apply Hin. by left.
Qed.

(** The keys of the count object are the paths in the order of their first
    occurrence. *)
Lemma countBy_keys_from (l : list string) o :
  (foldl (λ o x, bump x o) o l).*1 = (o.*1 ++ uniqFrom id o.*1 l)%list.
Proof.
  revert o. induction l as [|x l IH]; intros o; simpl; [by rewrite app_nil_r|].
  rewrite IH, bump_keys.
  case_bool_decide as Hx; [done|].
  rewrite <- app_assoc. simpl. do 2 f_equal. apply uniqFrom_ext.
  intros k. set_solver.
Qed.

Lemma countBy_keys (l : list string) : (countBy id l).*1 = uniqBy id l.
Proof. apply (countBy_keys_from l []). Qed.

Lemma countBy_getCount_from (l : list string) o p :
  getCount (foldl (λ o x, bump x o) o l) p
  = getCount o p + length (filter (λ q, q = p) l).
Proof.
  revert o. induction l as [|x l IH]; intros o; simpl; [lia|].
  rewrite IH, getCount_bump, filter_cons.
  destruct (decide (x = p)) as [->|]; simpl; lia.
Qed.

(** The count of a key is the number of its occurrences. *)
Lemma countBy_count (l : list string) p n :
  (p, n) ∈ countBy id l → n = length (filter (λ q, q = p) l).
Proof.
  intros Hin. rewrite <- (getCount_elem (countBy id l) p n); [|..|done].
  - apply (countBy_getCount_from l []).
  - rewrite countBy_keys. apply uniqFrom_NoDup.
Qed.

Lemma countBy_fmap {A} (f : A → string) (l : list A) : countBy f l = countBy id (f <$> l).
Proof.
  unfold countBy. generalize (@nil (string * nat)).
  induction l as [|x l IH]; intros o; simpl; [done|]. apply IH.
Qed.

(** Two keys in this order among the keys of first occurrences. *)
Lemma uniqFrom_order seen l p q :
  [p; q] `sublist_of` uniqFrom id seen l →
  ∃ l1 l2, l = (l1 ++ p :: l2)%list ∧ (p ∉ l1) ∧ (q ∉ l1) ∧ (p ≠ q)
           ∧ (p ∉ seen) ∧ (q ∉ seen).
Proof.
  revert seen. induction l as [|x l IH]; intros seen; simpl.
  - by intros ?%sublist_nil_r.
  - case_bool_decide as Hx.
    + intros (l1 & l2 & -> & Hp & Hq & Hpq & Hps & Hqs)%IH.
      exists (x :: l1), l2. repeat split; try done;
        rewrite not_elem_of_cons; split; congruence.
    + intros [Hsub|(l' & [= <- <-] & Hsub)]%sublist_cons_r.
      * apply IH in Hsub as (l1 & l2 & -> & Hp & Hq & Hpq & Hps & Hqs).
        rewrite !not_elem_of_cons in Hps, Hqs.
        exists (x :: l1), l2. repeat split; try tauto;
          rewrite not_elem_of_cons; split; try tauto; naive_solver.
      * assert (q ∈ uniqFrom id (id p :: seen) l) as Hq
          by (eapply elem_of_sublist; [|done]; by left).
        apply uniqFrom_fresh in Hq. rewrite not_elem_of_cons in Hq.
        exists [], l. repeat split; try done; try apply not_elem_of_nil; naive_solver.
Qed.

Lemma filter_bool_partition {A} (b : A → bool) (l : list A) :
  filter (λ x, b x = true) l ++ filter (λ x, b x = false) l ≡ₚ l.
Proof.
  induction l as [|x l IH]; [done|]. rewrite !filter_cons.
  destruct (b x) eqn:Hb; simpl.
  - by rewrite IH.
  - by rewrite <- Permutation_middle, IH.
Qed.

Lemma objectEntries_Permutation o : objectEntries o ≡ₚ o.
Proof.
  unfold objectEntries. rewrite sortWith_Permutation. apply filter_bool_partition.
Qed.

(** ** C7: the order of the repositories and the summary *)

Lemma foldl_permutation {A B} (f : A → B → A) l1 l2 :
  (∀ s x y, f (f s x) y = f (f s y) x) →
  l1 ≡ₚ l2 → ∀ s, foldl f s l1 = foldl f s l2.
Proof.
  intros Hcomm Hperm.
  induction Hperm as [|x l1 l2 _ IH|x y l|l1 l2 l3 _ IH1 _ IH2]; intros s; simpl.
  - done.
  - apply IH.
  - by rewrite Hcomm.
  - by rewrite IH1, IH2.
Qed.

Lemma addFileType_fold_lookup (dst src : gmap string nat) k :
  map_fold addFileType dst src !! k
  = match src !! k with
    | Some count => Some (default 0 (dst !! k) + count)
    | None => dst !! k
    end.
Proof.
  induction src as [|i x src Hi Hfirst IH] using map_first_key_ind.
  - by rewrite map_fold_empty, lookup_empty.
  - rewrite map_fold_insert_first_key by done. unfold addFileType at 1.
    destruct (decide (i = k)) as [->|Hne].
    + rewrite !lookup_insert_eq, IH, Hi. done.
    + by rewrite !lookup_insert_ne, IH.
Qed.

Lemma addAuthor_fold_lookup (dst src : gmap string AuthorStats.t) k :
  map_fold addAuthor dst src !! k
  = match src !! k with
    | Some stats =>
        let s := default (AuthorStats.mk 0 0 0) (dst !! k) in
        Some (AuthorStats.mk (AuthorStats.commits s + AuthorStats.commits stats)
                (AuthorStats.additions s + AuthorStats.additions stats)
                (AuthorStats.deletions s + AuthorStats.deletions stats))
    | None => dst !! k
    end.
Proof.
  induction src as [|i x src Hi Hfirst IH] using map_first_key_ind.
  - by rewrite map_fold_empty, lookup_empty.
  - rewrite map_fold_insert_first_key by done. unfold addAuthor at 1.
    destruct (decide (i = k)) as [->|Hne].
    + rewrite !lookup_insert_eq, IH, Hi. done.
    + by rewrite !lookup_insert_ne, IH.
Qed.

Lemma addFileType_fold_comm (dst a b : gmap string nat) :
  map_fold addFileType (map_fold addFileType dst a) b
  = map_fold addFileType (map_fold addFileType dst b) a.
Proof.
  apply map_eq. intros k. rewrite !addFileType_fold_lookup.
  destruct (a !! k), (b !! k), (dst !! k); simpl; try done; f_equal; lia.
Qed.

Lemma addAuthor_fold_comm (dst a b : gmap string AuthorStats.t) :
  map_fold addAuthor (map_fold addAuthor dst a) b
  = map_fold addAuthor (map_fold addAuthor dst b) a.
Proof.
  apply map_eq. intros k. rewrite !addAuthor_fold_lookup.
  destruct (a !! k), (b !! k), (dst !! k); simpl; try done; do 2 f_equal; lia.
Qed.

(** Two reports added to a summary commute in every field but the two
    line totals. *)
Lemma addRepo_comm s r1 r2 :
  withoutLineTotals (addRepo (addRepo s r1) r2)
  = withoutLineTotals (addRepo (addRepo s r2) r1).
Proof.
  unfold withoutLineTotals, addRepo, addFileChanges.
  destruct (repoAnalysis r1), (repoAnalysis r2); simpl;
    f_equal; try lia; try apply addAuthor_fold_comm; try apply addFileType_fold_comm;
    f_equal; lia.
Qed.

Lemma addRepo_withoutLineTotals s s' r :
  withoutLineTotals s = withoutLineTotals s' →
  withoutLineTotals (addRepo s r) = withoutLineTotals (addRepo s' r).
Proof.
  destruct s, s'. unfold withoutLineTotals, addRepo. simpl. intros [= -> -> -> -> ->].
  by destruct (repoAnalysis r).
Qed.

Lemma addRepo_fold_withoutLineTotals l : ∀ s s',
  withoutLineTotals s = withoutLineTotals s' →
  withoutLineTotals (foldl addRepo s l) = withoutLineTotals (foldl addRepo s' l).
Proof.
  induction l as [|r l IH]; intros s s' Heq; simpl; [done|].
  by apply IH, addRepo_withoutLineTotals.
Qed.

(** Folding the reports into any summary gives the same summary in every
    order, line totals apart. *)
Lemma addRepo_fold_permutation l1 l2 :
  l1 ≡ₚ l2 → ∀ s,
  withoutLineTotals (foldl addRepo s l1) = withoutLineTotals (foldl addRepo s l2).
Proof.
  induction 1 as [|x l1 l2 _ IH|x y l|l1 l2 l3 _ IH1 _ IH2]; intros s; simpl.
  - done.
  - apply IH.
  - apply addRepo_fold_withoutLineTotals, addRepo_comm.
  - by rewrite IH1, IH2.
Qed.

(** The line totals are those of the start with the line totals of the
    reports added one after the other. *)
Lemma addRepo_fold_line_totals l : ∀ s,
  Summary.totalAdditions (foldl addRepo s l)
  = foldl Number.add (Summary.totalAdditions s) (reportAdditions l)
  ∧ Summary.totalDeletions (foldl addRepo s l)
    = foldl Number.add (Summary.totalDeletions s) (reportDeletions l).
Proof.
  unfold reportAdditions, reportDeletions.
  induction l as [|r l IH]; intros s; [done|].
  cbn [foldl omap list_omap]. destruct (IH (addRepo s r)) as [-> ->].
  unfold addRepo. by destruct (repoAnalysis r).
Qed.

Lemma Summary_eq s1 s2 :
  withoutLineTotals s1 = withoutLineTotals s2 →
  Summary.totalAdditions s1 = Summary.totalAdditions s2 →
  Summary.totalDeletions s1 = Summary.totalDeletions s2 →
  s1 = s2.
Proof.
  destruct s1, s2. unfold withoutLineTotals. simpl.
  by intros [= -> -> -> -> ->] -> ->.
Qed.

(** Two orders of the reports that add the same line totals in the same
    order give the same summary. *)
Lemma addRepo_fold_same_lines l1 l2 s :
  l1 ≡ₚ l2 → omap repoAnalysis l1 = omap repoAnalysis l2 →
  foldl addRepo s l1 = foldl addRepo s l2.
Proof.
  intros Hperm Hsame. apply Summary_eq.
  - by apply addRepo_fold_permutation.
  - rewrite !(proj1 (addRepo_fold_line_totals _ _)). unfold reportAdditions.
    by rewrite Hsame.
  - rewrite !(proj2 (addRepo_fold_line_totals _ _)). unfold reportDeletions.
    by rewrite Hsame.
Qed.

Lemma reportAdditions_Permutation l1 l2 :
  l1 ≡ₚ l2 → reportAdditions l1 ≡ₚ reportAdditions l2.
Proof. intros Hperm. unfold reportAdditions. by rewrite Hperm. Qed.

Lemma reportDeletions_Permutation l1 l2 :
  l1 ≡ₚ l2 → reportDeletions l1 ≡ₚ reportDeletions l2.
Proof. intros Hperm. unfold reportDeletions. by rewrite Hperm. Qed.

(** C7 (reportService.js, lines 112-169): every permutation of the sequence
    of repository reports gives the same commit and file counts and the same
    dictionaries; it gives the same summary, line totals included, when the
    additions and the deletions of the reports add up to less than 2^53, the
    range in which no addition rounds. *)
Theorem generateSummaryStats_permutation l1 l2 :
  l1 ≡ₚ l2 →
  withoutLineTotals (generateSummaryStats l1)
  = withoutLineTotals (generateSummaryStats l2)
  ∧ (Number.exact (reportAdditions l1) = true →
     Number.exact (reportDeletions l1) = true →
     generateSummaryStats l1 = generateSummaryStats l2).
Proof.
  intros Hperm.
  assert (withoutLineTotals (generateSummaryStats l1)
          = withoutLineTotals (generateSummaryStats l2)) as Hcounts
    by by apply addRepo_fold_permutation.
  split; [done|]. intros Hadd Hdel. apply Summary_eq; [done|..].
  - unfold generateSummaryStats.
    rewrite !(proj1 (addRepo_fold_line_totals _ _)).
    apply (Number_sum_Permutation _ _ (reportAdditions_Permutation _ _ Hperm) Hadd).
  - unfold generateSummaryStats.
    rewrite !(proj2 (addRepo_fold_line_totals _ _)).
    apply (Number_sum_Permutation _ _ (reportDeletions_Permutation _ _ Hperm) Hdel).
Qed.

Lemma generateSummaryStats_permutation_witness :
  let r1 := generateRepoReport defaultConfig exampleHost workRepo "work" in
  let r2 := generateRepoReport defaultConfig exampleHost namesOnlyRepo "names" in
  let r3 := generateRepoReport noAnalysisConfig exampleHost threeCommits "three" in
  generateSummaryStats [r1; r2; r3] = generateSummaryStats [r3; r1; r2].
Proof.
  intros r1 r2 r3. apply generateSummaryStats_permutation; [|reflexivity..].
  symmetry. apply (Permutation_cons_append [r1; r2] r3).
Defined.

(** Three reports in two orders: 2^53 + 1 rounds to 2^53, and so does the
    next addition of 1, whereas 1 + 1 + 2^53 is a double. *)
Lemma generateSummaryStats_depends_on_order :
  [hugeReport; oneLineReport; oneLineReport] ≡ₚ [oneLineReport; oneLineReport; hugeReport]
  ∧ Summary.totalAdditions
      (generateSummaryStats [hugeReport; oneLineReport; oneLineReport])
    = Number.Finite 9007199254740992
  ∧ Summary.totalAdditions
      (generateSummaryStats [oneLineReport; oneLineReport; hugeReport])
    = Number.Finite 9007199254740994
  ∧ generateSummaryStats [hugeReport; oneLineReport; oneLineReport]
    ≠ generateSummaryStats [oneLineReport; oneLineReport; hugeReport].
Proof.
  split; [apply (Permutation_cons_append [oneLineReport; oneLineReport] hugeReport)|].
  split; [reflexivity|]. split; [reflexivity|].
  intros Heq%(f_equal Summary.totalAdditions). vm_compute in Heq. discriminate.
Qed.

(** The summary of two parts is the summary of the first part with the
    reports of the second part added: the fold can be cut anywhere. *)
Lemma generateSummaryStats_app l1 l2 :
  generateSummaryStats (l1 ++ l2) = foldl addRepo (generateSummaryStats l1) l2.
Proof. apply foldl_app. Qed.

(** ** C8: repositories without an analysis *)

Section NullAnalysis.
Context (cfg : Config) (host : Host) (simpleGit : string → Git).

Lemma collectReports_from acc repoPaths :
  foldl (λ repoReports repoPath,
           let report := generateRepoReport cfg host (simpleGit repoPath) repoPath in
           if 0 <? length (commits report) then (repoReports ++ [report])%list
           else repoReports)
        acc repoPaths
  = (acc ++ concat (reportIfCommits cfg host simpleGit <$> repoPaths))%list.
Proof.
  revert acc. induction repoPaths as [|p ps IH]; intros acc; simpl.
  - by rewrite app_nil_r.
  - rewrite IH. unfold reportIfCommits at 2.
    destruct (0 <? length _); simpl; [by rewrite <- app_assoc|done].
Qed.

Lemma collectReports_concat repoPaths :
  collectReports cfg host simpleGit repoPaths
  = concat (reportIfCommits cfg host simpleGit <$> repoPaths).
Proof. unfold collectReports. by rewrite collectReports_from. Qed.

Lemma generateRepoReport_no_commits p :
  hasAnyCommits (simpleGit p) = false ∨ getCommitsInDateRange host (simpleGit p) = [] →
  commits (generateRepoReport cfg host (simpleGit p) p) = [].
Proof.
  intros Hnone.
  assert (getCommitsInDateRange host (simpleGit p) = []) as Hnil.
  { destruct Hnone as [Hhead|]; [|done]. unfold getCommitsInDateRange. by rewrite Hhead. }
  unfold generateRepoReport. rewrite Hnil. simpl. by repeat case_match.
Qed.

Lemma generateRepoReport_null p :
  commits (generateRepoReport cfg host (simpleGit p) p) = []
  ∨ includeCodeAnalysis cfg = false →
  repoAnalysis (generateRepoReport cfg host (simpleGit p) p) = None.
Proof.
  unfold generateRepoReport.
  destruct (truthy _); [done|]. destruct (isEmpty _); [done|].
  destruct (length (getCommitsInDateRange host (simpleGit p)) =? 0) eqn:Hlen; [done|].
  simpl. intros [Hnil|Hoff].
  - rewrite Hnil in Hlen. done.
  - unfold analyzeCodeChanges. by rewrite Hoff.
Qed.

(** C8 (gitService.js, lines 236-239; reportService.js, lines 12-54,
    62-105 and 129-166): a repository whose head does not resolve or whose
    history has no commit in the window has no commits in its report; a
    repository without commits in its report, and every repository when code
    analysis is disabled, has a null analysis.
    Every repository is counted in [totalRepos]. A repository with a null
    analysis adds the number of its commits to [totalCommits] of the
    summary and nothing to the other totals and maps; without commits in
    the window it adds nothing at all and is not in [repositories]. *)
Theorem null_analysis_contribution before p after :
  let r := generateRepoReport cfg host (simpleGit p) p in
  let withRepo := generateFullReport cfg host simpleGit (before ++ p :: after) in
  let without := generateFullReport cfg host simpleGit (before ++ after) in
  (hasAnyCommits (simpleGit p) = false ∨ getCommitsInDateRange host (simpleGit p) = [] →
   commits r = [])
  ∧ (commits r = [] ∨ includeCodeAnalysis cfg = false → repoAnalysis r = None)
  ∧ totalRepos withRepo = S (totalRepos without)
  ∧ (repoAnalysis r = None →
     summary withRepo
     = Summary.mk (Summary.totalCommits (summary without) + length (commits r))
         (Summary.totalFilesChanged (summary without))
         (Summary.totalAdditions (summary without))
         (Summary.totalDeletions (summary without))
         (Summary.commitsByAuthor (summary without))
         (Summary.fileTypes (summary without))
         (Summary.fileChanges (summary without)))
  ∧ (commits r = [] →
     summary withRepo = summary without
     ∧ repositories withRepo = repositories without
     ∧ reposWithCommits withRepo = reposWithCommits without).
Proof.
  intros r withRepo without.
  split; [apply generateRepoReport_no_commits|].
  split; [apply generateRepoReport_null|].
  split; [unfold withRepo, without; simpl; rewrite !length_app; simpl; lia|].
  assert (collectReports cfg host simpleGit (before ++ p :: after)
          ≡ₚ collectReports cfg host simpleGit (before ++ after)
             ++ reportIfCommits cfg host simpleGit p)
    as Hperm.
  { rewrite !collectReports_concat, !fmap_app, fmap_cons, !concat_app, concat_cons.
    rewrite <- !app_assoc. f_equiv. apply Permutation_app_comm. }
  split.
  - intros Hnull. unfold withRepo, without. simpl. unfold generateSummaryStats.
    rewrite (addRepo_fold_same_lines _
               (sortWith byCommitsDesc (collectReports cfg host simpleGit (before ++ after))
                ++ reportIfCommits cfg host simpleGit p)).
    2:{ by rewrite sortWith_Permutation, Hperm, sortWith_Permutation. }
    2:{ assert (omap repoAnalysis (reportIfCommits cfg host simpleGit p) = []) as Hnone.
        { unfold reportIfCommits. fold r. case_match; [|done]. simpl. by rewrite Hnull. }
        rewrite omap_app, Hnone, app_nil_r.
        rewrite (omap_has_value repoAnalysis
                   (sortWith byCommitsDesc
                      (collectReports cfg host simpleGit (before ++ p :: after)))).
        rewrite (omap_has_value repoAnalysis
                   (sortWith byCommitsDesc
                      (collectReports cfg host simpleGit (before ++ after)))).
        rewrite !(sortWith_filter byCommitsDesc _ byCommitsDesc_key).
        do 2 f_equal.
        rewrite !collectReports_concat, !fmap_app, fmap_cons, !concat_app, concat_cons.
        rewrite !filter_app. by rewrite (omap_nil_filter repoAnalysis _ Hnone). }
    rewrite foldl_app. unfold reportIfCommits. fold r.
    destruct (length (commits r)) as [|n] eqn:Hlen; simpl.
    + rewrite Nat.add_0_r. by destruct (foldl addRepo emptySummary _).
    + unfold addRepo. by rewrite Hnull, Hlen.
  - intros Hnil.
    assert (collectReports cfg host simpleGit (before ++ p :: after)
            = collectReports cfg host simpleGit (before ++ after)) as Heq.
    { rewrite !collectReports_concat, !fmap_app, fmap_cons, !concat_app, concat_cons.
      unfold reportIfCommits at 2. fold r. by rewrite Hnil. }
    unfold withRepo, without. simpl. by rewrite Heq.
Qed.

End NullAnalysis.

Lemma null_analysis_contribution_witness :
  let full := generateFullReport noAnalysisConfig exampleHost exampleRepos in
  let r := generateRepoReport noAnalysisConfig exampleHost workRepo "work" in
  let fullOn := generateFullReport defaultConfig exampleHost exampleRepos in
  repoAnalysis r = None
  ∧ totalRepos (full ["names"; "work"]) = S (totalRepos (full ["names"]))
  ∧ Summary.totalCommits (summary (full ["names"; "work"]))
    = Summary.totalCommits (summary (full ["names"])) + 3
  ∧ commits (generateRepoReport defaultConfig exampleHost unbornRepo "unborn") = []
  ∧ totalRepos (fullOn ["work"; "unborn"; "names"]) = S (totalRepos (fullOn ["work"; "names"]))
  ∧ summary (fullOn ["work"; "unborn"; "names"]) = summary (fullOn ["work"; "names"]).
Proof.
  intros full r fullOn.
  destruct (null_analysis_contribution noAnalysisConfig exampleHost exampleRepos
              ["names"] "work" []) as (_ & Hnull & Htotal & Hsummary & _).
  destruct (null_analysis_contribution defaultConfig exampleHost exampleRepos
              ["work"] "unborn" ["names"]) as (Hnone & _ & Htotal' & _ & Hsame).
  split; [apply Hnull; by right|]. split; [exact Htotal|].
  split; [exact (f_equal Summary.totalCommits (Hsummary (Hnull (or_intror eq_refl))))|].
  split; [apply Hnone; by left|]. split; [exact Htotal'|].
  apply Hsame, Hnone. by left.
Defined.

(** With the analysis disabled the analysis of [workRepo] is null, and its
    three commits are in the summary's [totalCommits]. *)
Lemma null_analysis_adds_to_totalCommits :
  let full := generateFullReport noAnalysisConfig exampleHost exampleRepos in
  repoAnalysis (generateRepoReport noAnalysisConfig exampleHost (exampleRepos "work") "work")
  = None
  ∧ summary (full ["work"]) ≠ summary (full []).
Proof. split; [reflexivity|]. vm_compute. discriminate. Qed.


(** ** C6: the most changed files *)

Section TopChangedFiles.

Lemma isArrayIndex_true k : isArrayIndex k = true ↔ is_Some (arrayIndex k).
Proof. unfold isArrayIndex. apply bool_decide_eq_true. Qed.

Lemma isArrayIndex_false k : isArrayIndex k = false ↔ arrayIndex k = None.
Proof.
  unfold isArrayIndex. rewrite bool_decide_eq_false, <- eq_None_not_Some. done.
Qed.

Lemma byCountDesc_key a b :
  (byCountDesc a b <=? 0)%Z = true ↔ (- Z.of_nat a.2 ≤ - Z.of_nat b.2)%Z.
Proof. unfold byCountDesc. rewrite Z.leb_le. lia. Qed.

Lemma indexOrder_key a b :
  (indexOrder a b <=? 0)%Z = true
  ↔ (Z.of_N (default 0%N (arrayIndex a.1)) ≤ Z.of_N (default 0%N (arrayIndex b.1)))%Z.
Proof. unfold indexOrder. rewrite Z.leb_le. lia. Qed.

(** The order of two entries of [Object.entries] of the count object. *)
Lemma objectEntries_order (paths : list string) p n q m :
  [(p, n); (q, m)] `sublist_of` objectEntries (countBy id paths) →
  keyBefore paths p q.
Proof.
  set (o := countBy id paths).
  assert (NoDup o.*1) as Hnd by (unfold o; rewrite countBy_keys; apply uniqFrom_NoDup).
  unfold objectEntries.
  intros (l1 & l2 & Hsplit & Hl1 & Hl2)%sublist_app_r. unfold keyBefore.
  assert (∀ e l, e ∈ l → l `sublist_of` filter (λ e, isArrayIndex e.1 = false) o →
            arrayIndex e.1 = None) as Hother.
  { intros e l He Hl. apply isArrayIndex_false.
    eapply elem_of_sublist in He; [|done]. by apply list_elem_of_filter in He as []. }
  assert (∀ e l, e ∈ l →
            l `sublist_of` sortWith indexOrder (filter (λ e, isArrayIndex e.1 = true) o) →
            is_Some (arrayIndex e.1)) as Hindex.
  { intros e l He Hl. apply isArrayIndex_true.
    eapply elem_of_sublist in He; [|done]. rewrite sortWith_Permutation in He.
    by apply list_elem_of_filter in He as []. }
  destruct l1 as [|x [|y [|z l1]]]; simpl in Hsplit; simplify_eq.
  - pose proof (Hother (p, n) _ ltac:(by left) Hl2) as Hp.
    pose proof (Hother (q, m) _ ltac:(by right; left) Hl2) as Hq.
    simpl in Hp, Hq. rewrite Hp, Hq.
    assert ([p; q] `sublist_of` o.*1) as Hkeys.
    { change [p; q] with ([(p, n); (q, m)].*1). apply fmap_sublist.
      etrans; [done|]. apply sublist_filter. }
    unfold o in Hkeys. rewrite countBy_keys in Hkeys.
    apply uniqFrom_order in Hkeys as (k1 & k2 & -> & ? & ? & ? & _).
    by exists k1, k2.
  - destruct (Hindex (p, n) _ ltac:(by left) Hl1) as [i Hi].
    pose proof (Hother (q, m) _ ltac:(by left) Hl2) as Hq.
    simpl in Hi, Hq. by rewrite Hi, Hq.
  - destruct (Hindex (p, n) _ ltac:(by left) Hl1) as [i Hi].
    destruct (Hindex (q, m) _ ltac:(by right; left) Hl1) as [j Hj].
    simpl in Hi, Hj. rewrite Hi, Hj.
    pose proof (StronglySorted_pair _ _ _ _
                  (sortWith_sorted indexOrder _ indexOrder_key _) Hl1) as Hle.
    simpl in Hle. rewrite Hi, Hj in Hle. simpl in Hle.
    enough (i ≠ j) by lia. intros ->.
    assert (p = q) as -> by (by eapply arrayIndex_inj).
    assert (NoDup (sortWith indexOrder (filter (λ e, isArrayIndex e.1 = true) o)).*1)
      as Hsorted.
    { rewrite sortWith_Permutation. apply (sublist_NoDup _ _ Hnd).
      apply fmap_sublist, sublist_filter. }
    assert (NoDup [q; q]) as Hqq.
    { apply (sublist_NoDup _ _ Hsorted).
      change [q; q] with ([(q, n); (q, m)].*1). by apply fmap_sublist. }
    apply NoDup_cons in Hqq as [Hq _]. apply Hq. by left.
Qed.

(** What [topChangedFiles] returns for any list of change records. *)
Lemma topChangedFiles_spec (files : list ChangeRecord) :
  let paths := cr_path <$> files in
  let top := topChangedFiles files in
  length top ≤ 5
  ∧ (∀ p n, (p, n) ∈ top → n = length (filter (λ q, q = p) paths))
  ∧ (∀ i j p n q m,
       i < j → top !! i = Some (p, n) → top !! j = Some (q, m) →
       m ≤ n ∧ (m = n → keyBefore paths p q)).
Proof.
  intros paths top. unfold top, topChangedFiles. rewrite countBy_fmap. fold paths.
  set (entries := objectEntries (countBy id paths)).
  split; [rewrite length_take; lia|]. split.
  - intros p n Hin. apply countBy_count.
    rewrite <- (objectEntries_Permutation (countBy id paths)).
    rewrite <- (sortWith_Permutation byCountDesc).
    eapply elem_of_sublist; [done|]. apply sublist_take.
  - intros i j p n q m Hij Hi Hj.
    assert ([(p, n); (q, m)] `sublist_of` sortWith byCountDesc entries) as Hsub.
    { etrans; [by eapply lookup_lt_sublist|]. apply sublist_take. }
    pose proof (StronglySorted_pair _ _ _ _
                  (sortWith_sorted byCountDesc _ byCountDesc_key entries) Hsub) as Hle.
    simpl in Hle. split; [lia|]. intros ->.
    apply (objectEntries_order paths p n q n). fold entries.
    apply (sublist_filter_mono (λ e, (- Z.of_nat e.2)%Z = (- Z.of_nat n)%Z)) in Hsub.
    rewrite (sortWith_stable byCountDesc _ byCountDesc_key) in Hsub.
    rewrite !filter_cons, filter_nil in Hsub. simpl in Hsub.
    rewrite !decide_True in Hsub by done.
    etrans; [exact Hsub|]. apply sublist_filter.
Qed.

Context (cfg : Config) (host : Host) (git : Git).

(** C6 (gitService.js, lines 346-351): [mostChangedFiles] holds at most
    five paths with their change frequencies, in descending order of
    frequency; two paths of equal frequency are in the key order of the
    count object: paths that are array indices (canonical numerals below
    2^32 - 1) in ascending numeric order and before all others, the other
    paths in the order of their first appearance. *)
Theorem mostChangedFiles_order commits a :
  analyzeCodeChanges cfg host git commits = Some a →
  let paths := cr_path <$> changedFilesOf cfg host git commits in
  let top := mostChangedFiles a in
  length top ≤ 5
  ∧ (∀ p n, (p, n) ∈ top → n = length (filter (λ q, q = p) paths))
  ∧ (∀ i j p n q m,
       i < j → top !! i = Some (p, n) → top !! j = Some (q, m) →
       m ≤ n ∧ (m = n → keyBefore paths p q)).
Proof.
  intros (_ & _ & ->)%analyzeCodeChanges_Some.
  apply (topChangedFiles_spec (changedFilesOf cfg host git commits)).
Qed.

End TopChangedFiles.

Lemma mostChangedFiles_order_witness :
  let a := finish (analyzeLoop defaultConfig exampleHost workRepo
                     (initialState workCommits) workCommits) in
  let paths := cr_path <$> changedFilesOf defaultConfig exampleHost workRepo workCommits in
  let top := mostChangedFiles a in
  length top ≤ 5
  ∧ (∀ p n, (p, n) ∈ top → n = length (filter (λ q, q = p) paths))
  ∧ (∀ i j p n q m,
       i < j → top !! i = Some (p, n) → top !! j = Some (q, m) →
       m ≤ n ∧ (m = n → keyBefore paths p q)).
Proof.
  apply (mostChangedFiles_order defaultConfig exampleHost workRepo workCommits).
  reflexivity.
Defined.

(** The five entries of [workRepo]: [a.go] was changed three times; of the
    paths changed once, [7] comes first although it appears last. *)
Example mostChangedFiles_of_workRepo :
  mostChangedFiles <$> analyzeCodeChanges defaultConfig exampleHost workRepo workCommits
  = Some [("a.go", 3); ("7", 1); ("a.go" +:+ String TAB "c.go", 1); ("link", 1);
          ("b.md", 1)].
Proof. reflexivity. Qed.

(** The commit of [numberedRepo] adds [b] and then [7]: both have
    frequency 1, and [7] is in front of [b], which appeared first. *)
Lemma mostChangedFiles_tie_not_by_first_appearance :
  let commits := [commitBy "ann" "c2" false] in
  let paths := cr_path <$> changedFilesOf defaultConfig exampleHost numberedRepo commits in
  ∃ a, analyzeCodeChanges defaultConfig exampleHost numberedRepo commits = Some a
       ∧ mostChangedFiles a !! 0 = Some ("7", 1)
       ∧ mostChangedFiles a !! 1 = Some ("b", 1)
       ∧ ¬ firstSeenBefore paths "7" "b".
Proof.
  intros commits paths. eexists. repeat split; try reflexivity.
  intros (l1 & l2 & Hpaths & H7 & Hb & _). vm_compute in Hpaths.
  destruct l1 as [|x [|y [|z l1]]]; simplify_eq.
  apply Hb. by left.
Qed.

(** * Further properties of the services *)

(** ** The two parsers, line by line *)

Lemma split_app sep s1 s2 :
  split sep (s1 +:+ String sep s2) = (split sep s1 ++ split sep s2)%list.
Proof.
  induction s1 as [|c s1 IH].
  - simpl. by rewrite Ascii.eqb_refl.
  - change (String c s1 +:+ String sep s2) with (String c (s1 +:+ String sep s2)).
    cbn [split]. rewrite IH. destruct (Ascii.eqb c sep); [done|].
    pose proof (split_nonempty sep s1). by destruct (split sep s1).
Qed.

Lemma lines_app a b : lines (a +:+ String LF b) = (lines a ++ lines b)%list.
Proof. unfold lines. by rewrite split_app, filter_app. Qed.

(** The name-status parser works line by line: the records of two outputs
    joined by a line feed are the records of the first followed by those of
    the second; a final line feed adds no record. *)
Theorem parseGitDiff_app a b :
  parseGitDiff (a +:+ String LF b) = (parseGitDiff a ++ parseGitDiff b)%list
  ∧ parseGitDiff (a +:+ String LF "") = parseGitDiff a.
Proof.
  unfold parseGitDiff. rewrite !lines_app, !map_app. split; [done|].
  by rewrite app_nil_r.
Qed.

(** The tree-listing parser works line by line as well. *)
Theorem parseFirstCommitFiles_app a b :
  parseFirstCommitFiles (a +:+ String LF b)
  = (parseFirstCommitFiles a ++ parseFirstCommitFiles b)%list
  ∧ parseFirstCommitFiles (a +:+ String LF "") = parseFirstCommitFiles a.
Proof.
  unfold parseFirstCommitFiles. rewrite !lines_app, !map_app. split; [done|].
  by rewrite app_nil_r.
Qed.

Lemma parseGitDiff_line_witness :
  parseGitDiff ("R100" +:+ String TAB ("old.js" +:+ String TAB "new.js"))
  = [{| path := "old.js" +:+ String TAB "new.js"; type := Renamed; status := "R100" |}].
Proof.
  apply (parseGitDiff_line "R100" ("old.js" +:+ String TAB "new.js")); reflexivity.
Defined.

Lemma parseFirstCommitFiles_line_witness :
  parseFirstCommitFiles
    ("100644 blob 3b18e5" +:+ String TAB ("a" +:+ String TAB "b"))
  = [{| path := "a"; type := Added; status := "A" |}].
Proof.
  apply (parseFirstCommitFiles_line "100644 blob 3b18e5" "a" "b"); reflexivity.
Defined.

(** A status line without a tab is all status: the path is empty and the
    type is read off the first letter of the line. *)
Theorem parseGitDiff_line_without_tab line :
  occurs TAB line = false →
  occurs LF line = false →
  nonBlank line = true →
  parseGitDiff line = [{| path := ""; type := changeTypeOf line; status := line |}].
Proof.
  intros Htab Hlf Hnb. unfold parseGitDiff, lines.
  rewrite (split_without _ _ Hlf), filter_cons_True, filter_nil by done.
  cbn [map]. by rewrite (split_without _ _ Htab).
Qed.

Lemma parseGitDiff_line_without_tab_witness :
  parseGitDiff "M a.js" = [{| path := ""; type := Modified; status := "M a.js" |}].
Proof. apply (parseGitDiff_line_without_tab "M a.js"); reflexivity. Defined.

Lemma occurs_split c sep s field :
  occurs c s = false → field ∈ split sep s → occurs c field = false.
Proof.
  revert field. induction s as [|b s IH]; intros field; simpl.
  - by intros _ ->%list_elem_of_singleton.
  - rewrite orb_false_iff. intros [Hb Hs].
    destruct (Ascii.eqb b sep).
    + intros [->|Hin]%elem_of_cons; [done|]. by apply IH.
    + pose proof (split_nonempty sep s). destruct (split sep s) as [|p ps] eqn:E; [done|].
      intros [->|Hin]%elem_of_cons.
      * simpl. rewrite Hb. apply IH; [done|]. by left.
      * apply IH; [done|]. by right.
Qed.

(** A tree listing that prints names only (no tab anywhere, as
    [git ls-tree --name-status] prints it) gives one record per non-blank
    line, each with the empty path. *)
Theorem parseFirstCommitFiles_names_only output :
  occurs TAB output = false →
  parseFirstCommitFiles output
  = (λ _, {| path := ""; type := Added; status := "A" |}) <$> lines output.
Proof.
  intros Htab. unfold parseFirstCommitFiles.
  apply map_ext_in. intros line Hline%list_elem_of_In.
  assert (occurs TAB line = false) as Hno.
  { apply (occurs_split TAB LF output); [done|].
    unfold lines in Hline. by apply list_elem_of_filter in Hline as [_ ?]. }
  by rewrite (split_without _ _ Hno).
Qed.

Lemma parseFirstCommitFiles_names_only_witness :
  parseFirstCommitFiles (unlines ["a.txt"; "b.txt"])
  = (λ _, {| path := ""; type := Added; status := "A" |}) <$> lines (unlines ["a.txt"; "b.txt"]).
Proof. apply (parseFirstCommitFiles_names_only (unlines ["a.txt"; "b.txt"])). reflexivity. Defined.

(** ** The stat line *)

Lemma matchLit_app lit s : matchLit lit (lit +:+ s) = Some s.
Proof. induction lit as [|c lit IH]; simpl; [by destruct s|]. by rewrite Ascii.eqb_refl. Qed.

Lemma takeDigits_app d s :
  allDigits d = true → headIsDigit s = false → takeDigits (d +:+ s) = (d, s).
Proof.
  intros Hd Hs. induction d as [|c d IH].
  - simpl. destruct s as [|b s]; [done|]. simpl in Hs |- *. by rewrite Hs.
  - unfold allDigits in Hd. simpl in Hd. apply andb_true_iff in Hd as [Hc Hd].
    change (String c d +:+ s) with (String c (d +:+ s)).
    cbn [takeDigits]. by rewrite Hc, (IH Hd).
Qed.

Lemma statClause_present word tail count many rest :
  allDigits count = true → count ≠ "" →
  (∀ x, headIsDigit (word +:+ x) = false) →
  (∀ x, optChar "s" (tail +:+ x) = tail +:+ x) →
  statClause word tail (statClauseText word tail (Some (count, many)) rest)
  = Some (count, rest).
Proof.
  intros Hd Hne Hword Hopt. unfold statClause, statClauseText.
  rewrite matchLit_app. cbn [mbind option_bind].
  rewrite takeDigits_app by done.
  destruct (String.eqb_spec count ""); [done|].
  rewrite matchLit_app. cbn [mbind option_bind].
  destruct many; simpl plural.
  - change (optChar "s" ("s" +:+ ?x)) with x. by rewrite matchLit_app.
  - change ("" +:+ ?x) with x. by rewrite Hopt, matchLit_app.
Qed.

(** The pattern on a well-formed summary line: the captured groups are the
    numerals of the clauses that are there. *)
Lemma statMatchHere_statLine files many ins del rest :
  allDigits files = true → files ≠ "" →
  clauseOk ins = true → clauseOk del = true →
  matchLit ", " rest = None →
  statMatchHere (statLine files many ins del rest) = Some (fst <$> ins, fst <$> del).
Proof.
  intros Hfiles Hne Hins Hdel Hrest. unfold statMatchHere, statLine.
  rewrite takeDigits_app by done.
  destruct (String.eqb_spec files ""); [done|].
  rewrite matchLit_app. cbn [mbind option_bind].
  assert (optChar "s" (plural many +:+ (" changed" +:+
            statClauseText " insertion" "(+)" ins
              (statClauseText " deletion" "(-)" del rest)))
          = " changed" +:+ statClauseText " insertion" "(+)" ins
                             (statClauseText " deletion" "(-)" del rest)) as ->
    by by destruct many.
  rewrite matchLit_app. cbn [mbind option_bind].
  assert (∀ clause, clauseOk clause = true →
            ∀ count many, clause = Some (count, many) →
              allDigits count = true ∧ count ≠ "") as Hok.
  { intros clause Hc count m ->. simpl in Hc. apply andb_true_iff in Hc as [? Hc].
    split; [done|]. by destruct (String.eqb_spec count ""). }
  assert (statClause " deletion" "(-)" (statClauseText " deletion" "(-)" del rest)
          = (λ c, (c.1, rest)) <$> del) as Hdeletions.
  { destruct del as [[d m]|]; simpl fmap.
    - destruct (Hok _ Hdel d m eq_refl). by apply statClause_present.
    - unfold statClause. simpl statClauseText. by rewrite Hrest. }
  destruct ins as [[a m]|].
  - destruct (Hok _ Hins a m eq_refl).
    rewrite statClause_present by done. rewrite Hdeletions. by destruct del.
  - change (statClauseText " insertion" "(+)" None ?x) with x.
    assert (statClause " insertion" "(+)" (statClauseText " deletion" "(-)" del rest) = None)
      as ->.
    { destruct del as [[d m]|]; simpl statClauseText.
      - destruct (Hok _ Hdel d m eq_refl). unfold statClause.
        rewrite matchLit_app. cbn [mbind option_bind].
        rewrite takeDigits_app by done.
        by destruct (String.eqb_spec d "").
      - unfold statClause. by rewrite Hrest. }
    rewrite Hdeletions. by destruct del.
Qed.

Lemma statMatch_here s m : statMatchHere s = Some m → statMatch s = Some m.
Proof. intros H. destruct s; cbn [statMatch]; by rewrite H. Qed.

Lemma matchLit_app_None lit v s :
  noDigit lit = true → headIsDigit s = true →
  matchLit lit v = None → matchLit lit (v +:+ s) = None.
Proof.
  intros Hlit Hs. revert v. induction lit as [|a lit IH]; intros v; [by destruct v|].
  unfold noDigit in Hlit. simpl in Hlit.
  apply andb_true_iff in Hlit as [Ha Hlit]. apply negb_true_iff in Ha.
  destruct v as [|b v].
  - intros _. destruct s as [|d s]; simpl in Hs; [done|].
    change ("" +:+ String d s) with (String d s). cbn [matchLit].
    destruct (Ascii.eqb_spec a d) as [->|]; [congruence|done].
  - change (String b v +:+ s) with (String b (v +:+ s)). cbn [matchLit].
    destruct (Ascii.eqb a b); [by apply IH|done].
Qed.

(** After a numeral inside [v], which no [ file] follows in [v], no
    [ file] follows in [v] with a numeral appended either. *)
Lemma takeDigits_inside s v :
  headIsDigit s = true →
  digitThenFile v = false → endsInDigit v = false → headIsDigit v = true →
  matchLit " file" (takeDigits (v +:+ s)).2 = None.
Proof.
  intros Hs. induction v as [|c v IH]; [done|].
  cbn [digitThenFile headIsDigit]. intros Hfile Hend Hc.
  rewrite Hc in Hfile. apply orb_false_iff in Hfile as [Hhere Hfile].
  apply bool_decide_eq_false in Hhere.
  change (String c v +:+ s) with (String c (v +:+ s)). cbn [takeDigits]. rewrite Hc.
  destruct (takeDigits (v +:+ s)) as [d r] eqn:Htake. cbn [snd].
  destruct v as [|c' v]; [simpl in Hend; congruence|].
  change (endsInDigit (String c (String c' v))) with (endsInDigit (String c' v)) in Hend.
  destruct (isDigit c') eqn:Hc'.
  - exact (IH Hfile Hend Hc').
  - change (String c' v +:+ s) with (String c' (v +:+ s)) in Htake.
    cbn [takeDigits] in Htake. rewrite Hc' in Htake. injection Htake as <- <-.
    apply (matchLit_app_None " file" (String c' v) s); [done..|].
    destruct (matchLit " file" (String c' v)) eqn:Hm; [|done].
    destruct Hhere. by eexists.
Qed.

Lemma statMatchHere_inside s v :
  headIsDigit s = true → v ≠ "" →
  digitThenFile v = false → endsInDigit v = false →
  statMatchHere (v +:+ s) = None.
Proof.
  intros Hs Hv Hfile Hend. unfold statMatchHere.
  destruct (headIsDigit v) eqn:Hhead.
  - pose proof (takeDigits_inside s v Hs Hfile Hend Hhead) as Hnone.
    destruct (takeDigits (v +:+ s)) as [n r]. cbn [snd] in Hnone.
    destruct (String.eqb n ""); [done|]. by rewrite Hnone.
  - destruct v as [|c v]; [done|]. simpl in Hhead.
    change (String c v +:+ s) with (String c (v +:+ s)). cbn [takeDigits].
    by rewrite Hhead.
Qed.

(** No match starts inside a text in which no digit is followed by
    [ file] and which does not end in a digit, when a numeral follows it. *)
Lemma statMatch_skip pre s :
  headIsDigit s = true →
  digitThenFile pre = false → endsInDigit pre = false →
  statMatch (pre +:+ s) = statMatch s.
Proof.
  intros Hs. induction pre as [|c pre IH]; [done|]. intros Hfile Hend.
  pose proof (statMatchHere_inside s (String c pre) Hs) as Hnone.
  change (String c pre +:+ s) with (String c (pre +:+ s)) in *.
  cbn [statMatch]. rewrite Hnone by done.
  cbn [digitThenFile] in Hfile. apply orb_false_iff in Hfile as [_ Hfile].
  apply IH; [done|]. by destruct pre.
Qed.

(** The stat line of [git show --stat] (gitService.js, lines 274-281): on a
    well-formed summary line, with or without each clause, in the singular
    or the plural, the pattern captures the numerals of the clauses that are
    there, and their values - the doubles nearest to them, zero for a clause
    that is left out - are added to the line counts. The text in front of
    the line (the header, the commit message, the lines of the files) has no
    digit followed by [ file] and does not end in a digit. *)
Theorem statMatch_statLine pre files many ins del rest :
  digitThenFile pre = false → endsInDigit pre = false →
  allDigits files = true → files ≠ "" →
  clauseOk ins = true → clauseOk del = true →
  matchLit ", " rest = None →
  statMatch (pre +:+ statLine files many ins del rest) = Some (fst <$> ins, fst <$> del)
  ∧ ∀ st, lineChanges (analysis (addStatLines (pre +:+ statLine files many ins del rest) st))
          = addLines (lineChanges (analysis st))
              (groupOrZero (fst <$> ins), groupOrZero (fst <$> del)).
Proof.
  intros Hfile Hend Hfiles Hne Hins Hdel Hrest.
  assert (headIsDigit (statLine files many ins del rest) = true) as Hhead.
  { unfold statLine. destruct files as [|c files]; [done|].
    unfold allDigits in Hfiles. simpl in Hfiles.
    by apply andb_true_iff in Hfiles as [? _]. }
  assert (statMatch (pre +:+ statLine files many ins del rest)
          = Some (fst <$> ins, fst <$> del)) as Hmatch.
  { rewrite statMatch_skip by done. by apply statMatch_here, statMatchHere_statLine. }
  split; [done|]. intros st. unfold addStatLines. by rewrite Hmatch.
Qed.

Lemma statMatch_statLine_witness :
  let pre := unlines ["commit 3b18e5"; "Author: ann <dev@example.org>";
                      "Date:   Fri Jan 5 10:00:00 2024 +0000"; "";
                      "    init"; ""; " a.go | 7 +++++++"; " "] in
  let show := pre +:+ statLine "1" false (Some ("7", true)) None (String LF "") in
  statMatch show = Some (Some "7", None)
  ∧ ∀ st, lineChanges (analysis (addStatLines show st))
          = addLines (lineChanges (analysis st)) (Number.Finite 7, Number.Finite 0).
Proof.
  apply (statMatch_statLine
           (unlines ["commit 3b18e5"; "Author: ann <dev@example.org>";
                     "Date:   Fri Jan 5 10:00:00 2024 +0000"; "";
                     "    init"; ""; " a.go | 7 +++++++"; " "])
           "1" false (Some ("7", true)) None (String LF ""));
    done.
Defined.

(** The pattern is not anchored to the summary line: a stat line in the
    commit message, which [git show] prints first, is the one that is
    read. *)
Example statMatch_in_commit_message :
  statMatch (unlines ["commit c1"; "Author: ann <dev@example.org>";
                      "Date:   Fri Jan 5 10:00:00 2024 +0000"; "";
                      "    1 file changed, 9007199254740993 insertions(+)"; "";
                      " a.go | 7 +++++++"; " 1 file changed, 7 insertions(+)"])
  = Some (Some "9007199254740993", None)
  ∧ parseInt "9007199254740993" = Number.Finite 9007199254740992.
Proof. split; reflexivity. Qed.

(** ** Escaped commit messages *)

Lemma pipesEscaped_escapePipes message b :
  pipesEscaped b (escapePipes message) = true.
Proof.
  revert b. induction message as [|c s IH]; intros b; simpl; [done|].
  destruct (Ascii.eqb c "|") eqn:Hc; simpl.
  - by rewrite IH.
  - by rewrite Hc, IH.
Qed.

(** The commit message of a Markdown table row (reportService.js, line 260):
    in the escaped message every [|] comes right after a backslash, a
    message without [|] is left as it is, and the escaped message is longer
    by one character for each [|]. *)
Theorem escapePipes_spec message :
  pipesEscaped false (escapePipes message) = true
  ∧ (occurs "|" message = false → escapePipes message = message)
  ∧ String.length (escapePipes message)
    = String.length message
      + length (filter (λ c, c = "|"%char) (list_ascii_of_string message)).
Proof.
  split; [apply pipesEscaped_escapePipes|]. split.
  - induction message as [|c s IH]; simpl; [done|].
    rewrite orb_false_iff. intros [-> Hs]. by rewrite IH.
  - induction message as [|c s IH]; simpl; [done|]. rewrite filter_cons.
    destruct (Ascii.eqb_spec c "|") as [->|Hne]; simpl.
    + rewrite IH. lia.
    + rewrite decide_False by done. by rewrite IH.
Qed.

Lemma escapePipes_spec_witness :
  escapePipes "fix: layout" = "fix: layout".
Proof. apply (escapePipes_spec "fix: layout"). reflexivity. Defined.

(** ** The history reader *)

Lemma findIndex_None all h : h ∉ log_hash <$> all → findIndex all h = None.
Proof.
  induction all as [|e all IH]; csimpl; [done|].
  rewrite not_elem_of_cons. intros [Hne Hin].
  destruct (String.eqb_spec (log_hash e) h); [done|]. by rewrite IH.
Qed.

(** [isFirstCommit] on a hash that is not in the history (gitService.js,
    lines 129-136): the index is -1, which equals [length - 1] only for the
    empty history; so the hash is not flagged in a history that has commits,
    and every hash is flagged in the empty history. *)
Theorem isFirstCommitIn_unknown_hash all h :
  h ∉ log_hash <$> all →
  isFirstCommitIn all h = bool_decide (all = []).
Proof.
  intros Hin. unfold isFirstCommitIn. rewrite (findIndex_None _ _ Hin).
  destruct all as [|e all]; [done|].
  rewrite bool_decide_eq_false_2 by done. apply Z.eqb_neq. rewrite length_cons. lia.
Qed.

Lemma isFirstCommitIn_unknown_hash_witness :
  isFirstCommitIn [logEntry "c2" "2024-01-05" "ann"; logEntry "c1" "old" "ann"] "c9"
  = bool_decide ([logEntry "c2" "2024-01-05" "ann"; logEntry "c1" "old" "ann"] = []).
Proof. apply isFirstCommitIn_unknown_hash. compute_done. Defined.

Lemma NoDup_fmap_elem {A B} (f : A → B) (l : list A) x y :
  NoDup (f <$> l) → x ∈ l → y ∈ l → f x = f y → x = y.
Proof.
  induction l as [|z l IH]; csimpl; [by intros _ ?%elem_of_nil|].
  rewrite NoDup_cons. intros [Hz Hnd] [->|Hx]%elem_of_cons [->|Hy]%elem_of_cons Heq.
  - done.
  - destruct Hz. rewrite Heq. by apply list_elem_of_fmap_2.
  - destruct Hz. rewrite <- Heq. by apply list_elem_of_fmap_2.
  - by apply IH.
Qed.

(** At most one commit of the result is flagged as first commit
    (gitService.js, lines 105-116), when the hashes of the history are
    distinct. *)
Theorem getCommitsInDateRange_one_first_commit host git all c1 c2 :
  log git = Resolved all →
  NoDup (log_hash <$> all) →
  c1 ∈ getCommitsInDateRange host git →
  c2 ∈ getCommitsInDateRange host git →
  isFirstCommit c1 = true → isFirstCommit c2 = true →
  c1 = c2.
Proof.
  intros Hlog Hnd. unfold getCommitsInDateRange. rewrite Hlog.
  destruct (negb (hasAnyCommits git)); [by intros ?%elem_of_nil|].
  intros (e1 & -> & [_ He1]%list_elem_of_filter)%list_elem_of_fmap
         (e2 & -> & [_ He2]%list_elem_of_filter)%list_elem_of_fmap.
  simpl. intros H1 H2.
  apply isFirstCommitIn_spec in H1, H2; try done; try by apply list_elem_of_fmap_2.
  assert (e1 = e2) as ->; [|done].
  apply (NoDup_fmap_elem log_hash all); try done. congruence.
Qed.

Lemma getCommitsInDateRange_one_first_commit_witness :
  commitBy "ann" "c1" true = commitBy "ann" "c1" true.
Proof.
  apply (getCommitsInDateRange_one_first_commit exampleHost workRepo
           [logEntry "c3" "2024-01-05" "ann"; logEntry "c2" "2024-01-05" "bob";
            logEntry "c1" "2024-01-05" "ann"]);
    try reflexivity; compute_done.
Defined.

(** The result of [getCommitsInDateRange] (gitService.js, lines 92-121) is
    the history restricted to the window: its hashes are a subsequence of
    the hashes of the history, in the same order; every commit of it comes
    from an entry inside the window, with that entry's hash and author and
    the formatted date; and when the head resolves no entry inside the
    window is left out. *)
Theorem getCommitsInDateRange_window host git all :
  log git = Resolved all →
  let result := getCommitsInDateRange host git in
  (hash <$> result) `sublist_of` (log_hash <$> all)
  ∧ (∀ c, c ∈ result →
       ∃ e, e ∈ all ∧ isDateInReportRange host (log_date e) = true
            ∧ hash c = log_hash e ∧ author c = author_name e
            ∧ date c = formatDate host (log_date e))
  ∧ (hasAnyCommits git = true →
     ∀ e, e ∈ all → isDateInReportRange host (log_date e) = true →
          log_hash e ∈ hash <$> result).
Proof.
  intros Hlog result. unfold result, getCommitsInDateRange. rewrite Hlog.
  destruct (hasAnyCommits git); simpl.
  - split; [|split].
    + rewrite <- list_fmap_compose.
      etrans; [|apply fmap_sublist, (sublist_filter
                  (λ c, isDateInReportRange host (log_date c) = true))].
      done.
    + intros c (e & -> & [Hin He]%list_elem_of_filter)%list_elem_of_fmap.
      by exists e.
    + intros _ e He Hin. rewrite <- list_fmap_compose.
      apply list_elem_of_fmap. exists e. split; [done|]. by apply list_elem_of_filter.
  - split; [apply sublist_nil_l|]. split; [by intros c ?%elem_of_nil|done].
Qed.

Lemma getCommitsInDateRange_window_witness :
  (hash <$> getCommitsInDateRange exampleHost threeCommits)
  `sublist_of` ["c3"; "c2"; "c1"].
Proof.
  apply (getCommitsInDateRange_window exampleHost threeCommits
           [logEntry "c3" "2024-01-05" "ann"; logEntry "c2" "2024-01-04" "bob";
            logEntry "c1" "old" "ann"]).
  reflexivity.
Defined.

(** ** Repository information and the report of one repository *)

(** The three queries [getRepositoryInfo] makes after the head check. *)
Lemma getRepositoryInfo_cases host git p :
  let info := getRepositoryInfo host git p in
  (hasAnyCommits git = false ∧ isEmpty info = true ∧ error info = None)
  ∨ (hasAnyCommits git = true ∧ isEmpty info = true ∧ is_Some (error info)
     ∧ (resolved (getRemotes git) = None ∨ resolved (branch git) = None
        ∨ resolved (logLatest git) = None))
  ∨ (hasAnyCommits git = true ∧ isEmpty info = false ∧ error info = None
     ∧ is_Some (resolved (getRemotes git)) ∧ is_Some (resolved (branch git))
     ∧ is_Some (resolved (logLatest git))).
Proof.
  unfold getRepositoryInfo. destruct (hasAnyCommits git); simpl; [|by left].
  right. destruct (getRemotes git); simpl; [|left; eauto 10].
  destruct (branch git); simpl; [|left; eauto 10].
  destruct (logLatest git); simpl; [|left; eauto 10].
  right. eauto 10.
Qed.

(** [getRepositoryInfo] (gitService.js, lines 13-57): the repository is
    reported as not empty exactly when its head resolves and the remotes,
    the branch and the latest commit can be read; an error is reported
    exactly when the head resolves and one of these three queries is
    rejected, and then the repository counts as empty; the path is kept and
    the name is its base name in every case. *)
Theorem getRepositoryInfo_spec host git p :
  let info := getRepositoryInfo host git p in
  let readable := is_Some (resolved (getRemotes git)) ∧ is_Some (resolved (branch git))
                  ∧ is_Some (resolved (logLatest git)) in
  info_path info = p ∧ name info = basename host p
  ∧ (isEmpty info = false ↔ hasAnyCommits git = true ∧ readable)
  ∧ (is_Some (error info) ↔ hasAnyCommits git = true ∧ ¬ readable)
  ∧ (is_Some (error info) → isEmpty info = true)
  ∧ (isEmpty info = false →
     is_Some (currentBranch info) ∧ remote info = head (default [] (resolved (getRemotes git)))).
Proof.
  intros info readable.
  assert (info_path info = p ∧ name info = basename host p) as [Hp Hn].
  { unfold info, getRepositoryInfo. by repeat case_match. }
  split; [done|]. split; [done|].
  assert (isEmpty info = false →
          is_Some (currentBranch info)
          ∧ remote info = head (default [] (resolved (getRemotes git)))) as Hfull.
  { unfold info, getRepositoryInfo. repeat case_match; simpl; try done; eauto. }
  destruct (getRepositoryInfo_cases host git p)
    as [(Hh & He & Herr)|[(Hh & He & Herr & Hq)|(Hh & He & Herr & H1 & H2 & H3)]];
    fold info in He, Herr; unfold readable.
  - rewrite He, Herr, Hh.
    repeat split; try done; try (by intros [? ?]); by intros []%is_Some_None.
  - assert (¬ (is_Some (resolved (getRemotes git)) ∧ is_Some (resolved (branch git))
               ∧ is_Some (resolved (logLatest git)))) as Hnot.
    { intros (R1 & R2 & R3). destruct Hq as [Hq|[Hq|Hq]]; rewrite Hq in *;
        by eapply is_Some_None. }
    rewrite He, Hh. repeat split; try done; tauto.
  - rewrite He, Hh. split; [tauto|]. split; [|split].
    + rewrite Herr. split; [by intros []%is_Some_None|tauto].
    + rewrite Herr. by intros []%is_Some_None.
    + intros _. by apply Hfull.
Qed.

(** [generateRepoReport] (reportService.js, lines 12-54): a report with
    commits belongs to a repository that is not empty and has no error, and
    its commits are those of the history reader; an analysis is only present
    with code analysis enabled and commits in the report, and its
    [totalCommits] is the number of these commits; with code analysis
    enabled every report with commits has an analysis. *)
Theorem generateRepoReport_spec cfg host git p :
  let r := generateRepoReport cfg host git p in
  (commits r ≠ [] →
   isEmpty (info r) = false ∧ error (info r) = None
   ∧ commits r = getCommitsInDateRange host git)
  ∧ (∀ a, repoAnalysis r = Some a →
       includeCodeAnalysis cfg = true ∧ commits r ≠ []
       ∧ totalCommits a = length (commits r))
  ∧ (includeCodeAnalysis cfg = true → commits r ≠ [] → is_Some (repoAnalysis r)).
Proof.
  intros r. unfold r, generateRepoReport.
  destruct (getRepositoryInfo_cases host git p)
    as [(Hh & He & Herr)|[(Hh & He & Herr & Hq)|(Hh & He & Herr & _)]];
    rewrite ?He, ?Herr.
  - simpl. by repeat split.
  - destruct (truthy _); simpl; by repeat split.
  - simpl. destruct (length (getCommitsInDateRange host git) =? 0) eqn:Hlen; simpl.
    + by repeat split.
    + assert (getCommitsInDateRange host git ≠ []) as Hne.
      { intros Hnil. by rewrite Hnil in Hlen. }
      split; [done|]. split.
      * intros a (Hon & _ & ->)%analyzeCodeChanges_Some.
        split; [done|]. split; [done|]. simpl. by rewrite totalCommits_analyzeLoop.
      * intros Hon _. unfold analyzeCodeChanges. rewrite Hon, Hlen. simpl. eauto.
Qed.

Lemma generateRepoReport_spec_witness :
  let r := generateRepoReport defaultConfig exampleHost workRepo "work" in
  isEmpty (info r) = false ∧ error (info r) = None
  ∧ commits r = getCommitsInDateRange exampleHost workRepo.
Proof.
  apply (generateRepoReport_spec defaultConfig exampleHost workRepo "work").
  discriminate.
Defined.

(** When one of the three information queries is rejected
    (reportService.js, lines 14-23), the report of the repository has no
    commits and no analysis, whatever its history holds, and the repository
    is not among the reported ones. *)
Theorem generateRepoReport_unreadable_info cfg host simpleGit p :
  resolved (getRemotes (simpleGit p)) = None
  ∨ resolved (branch (simpleGit p)) = None
  ∨ resolved (logLatest (simpleGit p)) = None →
  let r := generateRepoReport cfg host (simpleGit p) p in
  commits r = [] ∧ repoAnalysis r = None
  ∧ reportIfCommits cfg host simpleGit p = [].
Proof.
  intros Hq r.
  assert (commits r = []) as Hnil.
  { unfold r, generateRepoReport.
    destruct (getRepositoryInfo_cases host (simpleGit p) p)
      as [(Hh & He & Herr)|[(Hh & He & Herr & _)|(Hh & He & Herr & H1 & H2 & H3)]];
      rewrite ?He, ?Herr.
    - done.
    - by destruct (truthy _).
    - destruct Hq as [Hq|[Hq|Hq]]; rewrite Hq in *; by eapply is_Some_None in H1 || eapply is_Some_None in H2 || eapply is_Some_None in H3. }
  split; [done|]. split.
  - apply generateRepoReport_null. by left.
  - unfold reportIfCommits. fold r. by rewrite Hnil.
Qed.

Lemma generateRepoReport_unreadable_info_witness :
  let r := generateRepoReport defaultConfig exampleHost brokenRemotesRepo "broken" in
  getCommitsInDateRange exampleHost brokenRemotesRepo ≠ []
  ∧ commits r = [] ∧ repoAnalysis r = None
  ∧ reportIfCommits defaultConfig exampleHost (λ _, brokenRemotesRepo) "broken" = [].
Proof.
  split; [discriminate|].
  apply (generateRepoReport_unreadable_info defaultConfig exampleHost
           (λ _, brokenRemotesRepo) "broken").
  by left.
Defined.

(** ** The analysis as sums over the commits, whatever fails *)

Section Contributions.
Context (cfg : Config) (host : Host) (git : Git).

Lemma recordFiles_allChangedFiles c files st :
  allChangedFiles (recordFiles cfg host c files st)
  = (allChangedFiles st ++ (toRecord c <$> files))%list.
Proof.
  unfold recordFiles. revert st.
  induction files as [|f files IH]; intros st; csimpl; [by rewrite app_nil_r|].
  rewrite IH. simpl. by rewrite <- app_assoc.
Qed.

Lemma addStatLines_allChangedFiles show st :
  allChangedFiles (addStatLines show st) = allChangedFiles st.
Proof. unfold addStatLines. by destruct (statMatch show) as [[??]|]. Qed.

Lemma addStatLines_lines show st :
  lineChanges (analysis (addStatLines show st))
  = match statMatch show with
    | Some (ins, del) =>
        addLines (lineChanges (analysis st)) (groupOrZero ins, groupOrZero del)
    | None => lineChanges (analysis st)
    end.
Proof. unfold addStatLines. by destruct (statMatch show) as [[??]|]. Qed.

(** One iteration, for any commit and any outcome of its queries. *)
Lemma analyzeCommit_contribution st c :
  let st' := analyzeCommit cfg host git st c in
  allChangedFiles st' = (allChangedFiles st ++ recordsOfCommit git c)%list
  ∧ lineChanges (analysis st')
    = from_option (addLines (lineChanges (analysis st))) (lineChanges (analysis st))
        (linesOfCommit git c)
  ∧ commitsByAuthor (analysis st')
    = if credited git c
         && negb (bool_decide (author c ∈ objectPrototypeNames
                               ∧ commitsByAuthor (analysis st) !! author c = None))
      then creditAuthor (author c)
             (if isFirstCommit c then (0, 0) else secondStats git c)
             (commitsByAuthor (analysis st))
      else commitsByAuthor (analysis st).
Proof.
  unfold recordsOfCommit, credited, changedFilesOfCommit, linesOfCommit, creditAuthor,
    secondStats.
  destruct (isFirstCommit c) eqn:Hroot.
  - rewrite analyzeCommit_root by done.
    destruct (lsTree git (hash c)) as [files|]; [|by rewrite app_nil_r].
    destruct (showStat git (hash c)) as [show|]; [|by rewrite app_nil_r].
    simpl. rewrite recordFiles_allChangedFiles, addStatLines_allChangedFiles.
    rewrite recordFiles_lineChanges, recordFiles_commitsByAuthor.
    rewrite addStatLines_commitsByAuthor, addStatLines_lines.
    rewrite ?bool_decide_eq_true_2 by eauto.
    split; [done|]. split; [by destruct (statMatch show) as [[??]|]|].
    destruct (commitsByAuthor (analysis st) !! author c) as [s|] eqn:Hentry; simpl.
    + rewrite bool_decide_eq_false_2 by (by intros [_ ?]). simpl.
      by rewrite !Nat.add_0_r.
    + case_bool_decide as Hname.
      * by rewrite bool_decide_eq_true_2.
      * by rewrite bool_decide_eq_false_2 by (by intros [? _]).
  - rewrite analyzeCommit_other by done.
    destruct (diffSummary git (hash c)) as [stats|]; [|by rewrite app_nil_r].
    destruct (diffNameStatus git (hash c)) as [diff|]; simpl;
      [|by rewrite app_nil_r].
    rewrite ?bool_decide_eq_true_2 by eauto.
    destruct (diffSummaryAgain git (hash c)) as [again|]; simpl;
      rewrite recordFiles_allChangedFiles, ?recordFiles_lineChanges,
        !recordFiles_commitsByAuthor; simpl;
      (split; [done|]); (split; [done|]);
      destruct (commitsByAuthor (analysis st) !! author c) as [s|] eqn:Hentry; simpl.
    + rewrite bool_decide_eq_false_2 by (by intros [_ ?]). simpl.
      rewrite lookup_insert_eq. by rewrite insert_insert_eq.
    + case_bool_decide as Hname.
      * rewrite bool_decide_eq_true_2 by done. by rewrite Hentry.
      * rewrite bool_decide_eq_false_2 by (by intros [? _]). simpl.
        rewrite lookup_insert_eq. by rewrite insert_insert_eq.
    + rewrite bool_decide_eq_false_2 by (by intros [_ ?]). simpl.
      by rewrite !Nat.add_0_r.
    + case_bool_decide as Hname.
      * by rewrite bool_decide_eq_true_2 by done.
      * by rewrite bool_decide_eq_false_2 by (by intros [? _]).
Qed.

(** The changed-file list (gitService.js, lines 261-317): the records of the
    commits one after the other, in the order of the commit list; every
    record carries the hash of a commit of the list whose queries in front
    of the fold resolved. *)
Theorem changedFilesOf_concat commits :
  changedFilesOf cfg host git commits = commits ≫= recordsOfCommit git
  ∧ ∀ r, r ∈ changedFilesOf cfg host git commits →
         ∃ c, c ∈ commits ∧ cr_commit r = hash c ∧ is_Some (changedFilesOfCommit git c).
Proof.
  assert (∀ st, allChangedFiles (analyzeLoop cfg host git st commits)
                = (allChangedFiles st ++ (commits ≫= recordsOfCommit git))%list) as Hloop.
  { induction commits as [|c commits IH]; intros st.
    - simpl. by rewrite app_nil_r.
    - rewrite analyzeLoop_cons, IH, bind_cons.
      destruct (analyzeCommit_contribution st c) as [-> _]. by rewrite <- app_assoc. }
  assert (changedFilesOf cfg host git commits = commits ≫= recordsOfCommit git) as Heq
    by apply (Hloop (initialState commits)).
  split; [done|]. intros r. rewrite Heq.
  intros (c & Hr & Hc)%list_elem_of_bind.
  unfold recordsOfCommit in Hr. exists c.
  destruct (changedFilesOfCommit git c) as [files|]; [|by apply elem_of_nil in Hr].
  simpl in Hr. apply list_elem_of_fmap in Hr as (f & -> & _). eauto.
Qed.

End Contributions.

Section ClosedForms.
Context (cfg : Config) (host : Host) (git : Git).

(** The number of change records with a given extension. *)
Lemma fileTypes_counted st commits :
  let counted st :=
    ∀ ext, fileTypes (analysis st) !! ext
           = let n := length (filter (λ r, extOf host r = ext) (allChangedFiles st)) in
             if countedExt cfg ext && (0 <? n) then Some n else None in
  counted st → counted (analyzeLoop cfg host git st commits).
Proof.
  intros counted. apply analyzeLoop_preserves; try done.
  intros c file st' Hst ext. simpl. rewrite filter_app, length_app, filter_cons, filter_nil.
  unfold countFileType. fold (countedExt cfg (toLowerCase host (extname host (path file)))).
  specialize (Hst ext). cbv zeta in Hst.
  change (extOf host {| cr_path := path file; cr_type := type file; cr_commit := hash c |})
    with (toLowerCase host (extname host (path file))).
  set (e := toLowerCase host (extname host (path file))) in *.
  set (n := length (filter (λ r, extOf host r = ext) (allChangedFiles st'))) in *.
  destruct (decide (e = ext)) as [Heq|Hne]; simpl length.
  - rewrite Heq. destruct (countedExt cfg ext) eqn:Hc; simpl.
    + rewrite lookup_insert_eq, Hst. simpl.
      replace (0 <? n + 1) with true by (symmetry; apply Nat.ltb_lt; lia).
      destruct (0 <? n) eqn:Hn; simpl; [done|].
      apply Nat.ltb_ge in Hn. by replace n with 0 by lia.
    + rewrite Hst. by simpl.
  - rewrite Nat.add_0_r. destruct (countedExt cfg e); [|done].
    by rewrite lookup_insert_ne.
Qed.

(** [fileTypes] (gitService.js, lines 297-301): the entry of an extension is
    the number of change records whose lower-cased extension it is; there is
    no entry for the empty extension, for an ignored extension, or for an
    extension no record has. *)
Theorem fileTypes_lookup commits a ext :
  analyzeCodeChanges cfg host git commits = Some a →
  let n := length (filter (λ r, extOf host r = ext)
                     (changedFilesOf cfg host git commits)) in
  fileTypes a !! ext = (if countedExt cfg ext && (0 <? n) then Some n else None)
  ∧ (is_Some (fileTypes a !! ext) → ext ≠ "" ∧ (ext ∉ ignoreFileTypes cfg) ∧ 0 < n).
Proof.
  intros (_ & _ & ->)%analyzeCodeChanges_Some n.
  pose proof (fileTypes_counted (initialState commits) commits) as Hc.
  cbv zeta in Hc.
  assert (∀ e, fileTypes (analysis (initialState commits)) !! e
               = (if countedExt cfg e
                     && (0 <? length (filter (λ r, extOf host r = e)
                                        (allChangedFiles (initialState commits))))
                  then Some (length (filter (λ r, extOf host r = e)
                                       (allChangedFiles (initialState commits))))
                  else None)) as Hinit.
  { intros e. simpl. rewrite lookup_empty. by rewrite andb_false_r. }
  specialize (Hc Hinit ext). simpl.
  fold (changedFilesOf cfg host git commits) in Hc. fold n in Hc.
  split; [done|]. rewrite Hc. unfold countedExt.
  destruct (String.eqb_spec ext ""); simpl; [by intros []%is_Some_None|].
  case_bool_decide; simpl; [by intros []%is_Some_None|].
  destruct (0 <? n) eqn:Hn; [|by intros []%is_Some_None].
  apply Nat.ltb_lt in Hn. done.
Qed.

(** The loop from any state, in closed form. *)
Lemma analyzeLoop_sums commits : ∀ st,
  let st' := analyzeLoop cfg host git st commits in
  allChangedFiles st' = (allChangedFiles st ++ (commits ≫= recordsOfCommit git))%list
  ∧ lineChanges (analysis st')
    = foldl addLines (lineChanges (analysis st)) (omap (linesOfCommit git) commits)
  ∧ (∀ who,
       who ∉ objectPrototypeNames →
       let mine := filter (λ c, author c = who ∧ credited git c = true) commits in
       let s := default (AuthorStats.mk 0 0 0) (commitsByAuthor (analysis st) !! who) in
       commitsByAuthor (analysis st') !! who
       = if decide (mine = []) then commitsByAuthor (analysis st) !! who
         else Some (AuthorStats.mk
                      (AuthorStats.commits s + length mine)
                      (AuthorStats.additions s
                       + sum_list_with (λ c, (authorLines git c).1) mine)
                      (AuthorStats.deletions s
                       + sum_list_with (λ c, (authorLines git c).2) mine)))
  ∧ (∀ who,
       who ∈ objectPrototypeNames →
       commitsByAuthor (analysis st) !! who = None →
       commitsByAuthor (analysis st') !! who = None).
Proof.
  induction commits as [|c commits IH]; intros st.
  - cbv zeta. simpl. rewrite app_nil_r. split; [done|]. split; [done|].
    split; [by intros who|done].
  - rewrite analyzeLoop_cons.
    destruct (analyzeCommit_contribution cfg host git st c) as (Hfiles & Hlines & Hauthors).
    destruct (IH (analyzeCommit cfg host git st c)) as (Hf & Hsum & Hwho & Hnone).
    cbv zeta in *. rewrite Hf, Hsum, Hfiles, Hlines, bind_cons.
    split; [by rewrite <- app_assoc|].
    split; [cbn [omap list_omap]; by destruct (linesOfCommit git c)|].
    split.
    + intros who Hname. rewrite (Hwho who Hname), Hauthors, filter_cons.
      destruct (credited git c) eqn:Hcred; cbn [andb].
      * destruct (decide (author c = who)) as [Heq|Hne].
        -- subst who. rewrite bool_decide_eq_false_2 by (by intros [? _]). cbn [negb].
           rewrite creditAuthor_lookup.
           rewrite (decide_True (P := author c = author c)) by done.
           rewrite (decide_True (P := _ ∧ _)) by auto.
           rewrite (decide_False (P := _ :: _ = [])) by done. simpl.
           fold (authorLines git c).
           destruct (decide (filter (λ c0, author c0 = author c ∧ credited git c0 = true)
                               commits = [])) as [->|_];
             simpl; f_equal; f_equal; lia.
        -- rewrite (decide_False (P := _ ∧ _)) by tauto.
           destruct (negb _); [|done].
           rewrite creditAuthor_lookup.
           by rewrite (decide_False (P := author c = who)) by done.
      * by rewrite (decide_False (P := _ ∧ _)) by (intros [_ ?]; congruence).
    + intros who Hname Hentry. apply (Hnone who Hname). rewrite Hauthors.
      destruct (decide (author c = who)) as [Heq|Hne].
      * subst who. rewrite bool_decide_eq_true_2 by done.
        by rewrite andb_false_r.
      * destruct (_ && _); [|done]. rewrite creditAuthor_lookup.
        by rewrite (decide_False (P := author c = who)) by done.
Qed.

(** [commitsByAuthor] whatever fails (gitService.js, lines 319-335): an
    author whose name is inherited from [Object.prototype] has no entry. Any
    other author has an entry exactly when the iteration of one of the
    author's commits reached the author statistics; the entry counts these
    commits - at least one, at most the author's commits in the list - and
    its line totals are the sums of the second diff summaries of those among
    them that are not the first commit. *)
Theorem commitsByAuthor_lookup commits a who :
  analyzeCodeChanges cfg host git commits = Some a →
  let mine := filter (λ c, author c = who ∧ credited git c = true) commits in
  commitsByAuthor a !! who
  = (if bool_decide (who ∈ objectPrototypeNames) then None
     else if decide (mine = []) then None
     else Some (AuthorStats.mk (length mine)
                  (sum_list_with (λ c, (authorLines git c).1) mine)
                  (sum_list_with (λ c, (authorLines git c).2) mine)))
  ∧ (∀ s, commitsByAuthor a !! who = Some s →
       1 ≤ AuthorStats.commits s
       ∧ AuthorStats.commits s ≤ length (filter (λ c, author c = who) commits)).
Proof.
  intros (_ & _ & ->)%analyzeCodeChanges_Some mine.
  destruct (analyzeLoop_sums commits (initialState commits))
    as (_ & _ & Hwho & Hnone).
  specialize (Hwho who). specialize (Hnone who). cbv zeta in Hwho.
  cbn [finish commitsByAuthor].
  assert (commitsByAuthor (analysis (analyzeLoop cfg host git
                                       (initialState commits) commits)) !! who
          = (if bool_decide (who ∈ objectPrototypeNames) then None
             else if decide (mine = []) then None
             else Some (AuthorStats.mk (length mine)
                          (sum_list_with (λ c, (authorLines git c).1) mine)
                          (sum_list_with (λ c, (authorLines git c).2) mine)))) as Heq.
  { case_bool_decide as Hname; [by apply Hnone|].
    rewrite (Hwho Hname). simpl. rewrite lookup_empty. by fold mine. }
  split; [done|]. intros s. rewrite Heq.
  case_bool_decide; [done|].
  destruct (decide (mine = [])) as [|Hne]; [done|]. intros [= <-]. simpl. split.
  - destruct mine; [done|]. simpl. lia.
  - unfold mine. clear. induction commits as [|c commits IH]; [done|].
    rewrite !filter_cons. repeat case_decide; simpl; try lia; tauto.
Qed.

End ClosedForms.

Lemma fileTypes_lookup_witness :
  ∃ a, analyzeCodeChanges defaultConfig exampleHost workRepo workCommits = Some a
       ∧ fileTypes a !! ".go" = Some 4 ∧ fileTypes a !! ".md" = None.
Proof.
  eexists. split; [reflexivity|]. split.
  - by rewrite (proj1 (fileTypes_lookup defaultConfig exampleHost workRepo workCommits
                         _ ".go" eq_refl)).
  - by rewrite (proj1 (fileTypes_lookup defaultConfig exampleHost workRepo workCommits
                         _ ".md" eq_refl)).
Defined.

Lemma commitsByAuthor_lookup_witness :
  ∃ a, analyzeCodeChanges defaultConfig exampleHost flakyRepo workCommits = Some a
       ∧ commitsByAuthor a !! "ann" = Some (AuthorStats.mk 2 0 0)
       ∧ commitsByAuthor a !! "bob" = None.
Proof.
  eexists. split; [reflexivity|]. split.
  - by rewrite (proj1 (commitsByAuthor_lookup defaultConfig exampleHost flakyRepo workCommits
                         _ "ann" eq_refl)).
  - by rewrite (proj1 (commitsByAuthor_lookup defaultConfig exampleHost flakyRepo workCommits
                         _ "bob" eq_refl)).
Defined.

(** An author named [constructor]: the two commits are analysed, their
    files and lines are counted, and the author has no entry. *)
Example commitsByAuthor_of_inherited_name :
  (λ a, (totalCommits a, fileChanges a, commitsByAuthor a))
    <$> analyzeCodeChanges defaultConfig exampleHost workRepo
          [commitBy "constructor" "c2" false; commitBy "constructor" "c1" true]
  = Some (2, {| added := 2; modified := 1; deleted := 0; renamed := 0 |}, ∅).
Proof. reflexivity. Qed.

(** ** The order of the commits *)

Section CommitOrder.
Context (cfg : Config) (host : Host) (git : Git).

Lemma countOf_Permutation t files files' :
  files ≡ₚ files' → countOf t files = countOf t files'.
Proof. intros Hperm. unfold countOf. by rewrite Hperm. Qed.

Lemma changedFilesOf_Permutation commits commits' :
  commits ≡ₚ commits' →
  changedFilesOf cfg host git commits ≡ₚ changedFilesOf cfg host git commits'.
Proof.
  intros Hperm. unfold changedFilesOf.
  destruct (analyzeLoop_sums cfg host git commits (initialState commits)) as [Heq _].
  destruct (analyzeLoop_sums cfg host git commits' (initialState commits')) as [Heq' _].
  cbv zeta in Heq, Heq'. rewrite Heq, Heq'. simpl. by rewrite Hperm.
Qed.

(** The order of the commit list and the analysis (gitService.js, lines
    263-344): a permutation of the commits gives the same [totalCommits],
    [totalFilesChanged], [fileTypes], [fileChanges] and [commitsByAuthor],
    whatever queries are rejected, and the same [lineChanges] when the lines
    that the commits add stay below 2^53 in total, where no addition
    rounds. *)
Theorem analyzeCodeChanges_commit_order commits commits' :
  commits ≡ₚ commits' →
  match analyzeCodeChanges cfg host git commits,
        analyzeCodeChanges cfg host git commits' with
  | Some a, Some a' =>
      totalCommits a = totalCommits a'
      ∧ totalFilesChanged a = totalFilesChanged a'
      ∧ fileTypes a = fileTypes a'
      ∧ fileChanges a = fileChanges a'
      ∧ commitsByAuthor a = commitsByAuthor a'
      ∧ (Number.exact (omap (linesOfCommit git) commits).*1 = true →
         additions (lineChanges a) = additions (lineChanges a'))
      ∧ (Number.exact (omap (linesOfCommit git) commits).*2 = true →
         deletions (lineChanges a) = deletions (lineChanges a'))
  | None, None => True
  | _, _ => False
  end.
Proof.
  intros Hperm. unfold analyzeCodeChanges.
  destruct (includeCodeAnalysis cfg); simpl; [|done].
  rewrite <- (Permutation_length Hperm).
  destruct (length commits =? 0) eqn:Hlen; [done|].
  pose proof (changedFilesOf_Permutation _ _ Hperm) as Hfiles.
  destruct (analyzeLoop_sums cfg host git commits (initialState commits))
    as (_ & Hlines & Hwho & Hnone).
  destruct (analyzeLoop_sums cfg host git commits' (initialState commits'))
    as (_ & Hlines' & Hwho' & Hnone').
  cbv zeta in Hlines, Hlines', Hwho, Hwho'.
  split; [|split; [|split; [|split; [|split; [|split]]]]].
  - cbn [finish totalCommits]. rewrite !totalCommits_analyzeLoop. simpl.
    by apply Permutation_length.
  - cbn [finish totalFilesChanged]. unfold uniqBy. rewrite !uniqFrom_length.
    fold (changedFilesOf cfg host git commits) (changedFilesOf cfg host git commits').
    by rewrite Hfiles.
  - cbn [finish fileTypes]. apply map_eq. intros ext.
    assert (∀ l e, fileTypes (analysis (initialState l)) !! e
                   = (if countedExt cfg e
                         && (0 <? length (filter (λ r, extOf host r = e)
                                            (allChangedFiles (initialState l))))
                      then Some (length (filter (λ r, extOf host r = e)
                                           (allChangedFiles (initialState l))))
                      else None)) as Hinit.
    { intros l e. simpl. rewrite lookup_empty. by rewrite andb_false_r. }
    rewrite (fileTypes_counted cfg host git _ commits (Hinit commits) ext).
    rewrite (fileTypes_counted cfg host git _ commits' (Hinit commits') ext).
    cbv zeta. fold (changedFilesOf cfg host git commits)
      (changedFilesOf cfg host git commits').
    assert (length (filter (λ r, extOf host r = ext) (changedFilesOf cfg host git commits))
            = length (filter (λ r, extOf host r = ext)
                        (changedFilesOf cfg host git commits'))) as ->
      by by rewrite Hfiles.
    done.
  - cbn [finish fileChanges].
    destruct (fileChanges_counted cfg host git (initialState commits) commits)
      as (Ha & Hm & Hd & Hr); [done|].
    destruct (fileChanges_counted cfg host git (initialState commits') commits')
      as (Ha' & Hm' & Hd' & Hr'); [done|].
    fold (changedFilesOf cfg host git commits) in Ha, Hm, Hd, Hr.
    fold (changedFilesOf cfg host git commits') in Ha', Hm', Hd', Hr'.
    rewrite (countOf_Permutation _ _ _ Hfiles) in Ha.
    rewrite (countOf_Permutation _ _ _ Hfiles) in Hm.
    rewrite (countOf_Permutation _ _ _ Hfiles) in Hd.
    rewrite (countOf_Permutation _ _ _ Hfiles) in Hr.
    destruct (fileChanges _), (fileChanges _). simpl in *. congruence.
  - cbn [finish commitsByAuthor]. apply map_eq. intros who.
    destruct (decide (who ∈ objectPrototypeNames)) as [Hname|Hname].
    { by rewrite (Hnone who Hname), (Hnone' who Hname). }
    rewrite (Hwho who Hname), (Hwho' who Hname). simpl. rewrite lookup_empty.
    assert (filter (λ c, author c = who ∧ credited git c = true) commits
            ≡ₚ filter (λ c, author c = who ∧ credited git c = true) commits') as Hmine
      by by rewrite Hperm.
    repeat case_decide.
    + done.
    + rewrite H in Hmine. by apply Permutation_nil_l in Hmine.
    + rewrite H0 in Hmine. by apply Permutation_nil_r in Hmine.
    + simpl. by rewrite Hmine.
  - intros Hexact. cbn [finish lineChanges]. rewrite Hlines, Hlines'.
    rewrite !additions_addLines. simpl.
    apply (Number_sum_Permutation (omap (linesOfCommit git) commits).*1
             (omap (linesOfCommit git) commits').*1); [by rewrite Hperm|done].
  - intros Hexact. cbn [finish lineChanges]. rewrite Hlines, Hlines'.
    rewrite !deletions_addLines. simpl.
    apply (Number_sum_Permutation (omap (linesOfCommit git) commits).*2
             (omap (linesOfCommit git) commits').*2); [by rewrite Hperm|done].
Qed.

End CommitOrder.

Lemma analyzeCodeChanges_commit_order_witness :
  match analyzeCodeChanges defaultConfig exampleHost flakyRepo workCommits,
        analyzeCodeChanges defaultConfig exampleHost flakyRepo (reverse workCommits) with
  | Some a, Some a' =>
      totalCommits a = totalCommits a'
      ∧ totalFilesChanged a = totalFilesChanged a'
      ∧ fileTypes a = fileTypes a'
      ∧ fileChanges a = fileChanges a'
      ∧ commitsByAuthor a = commitsByAuthor a'
      ∧ (Number.exact (omap (linesOfCommit flakyRepo) workCommits).*1 = true →
         additions (lineChanges a) = additions (lineChanges a'))
      ∧ (Number.exact (omap (linesOfCommit flakyRepo) workCommits).*2 = true →
         deletions (lineChanges a) = deletions (lineChanges a'))
  | None, None => True
  | _, _ => False
  end.
Proof.
  apply (analyzeCodeChanges_commit_order defaultConfig exampleHost flakyRepo).
  symmetry. apply reverse_Permutation.
Defined.

(** Past 2^53 the order of the commits shows in [lineChanges]: the two
    commits of [roundedRepo], newest first and oldest first. *)
Example lineChanges_of_reversed_commits :
  let commits := [commitBy "ann" "c2" false; commitBy "ann" "c1" true] in
  (λ a, additions (lineChanges a))
    <$> analyzeCodeChanges defaultConfig exampleHost roundedRepo commits
  = Some (Number.Finite 9007199254740992)
  ∧ (λ a, additions (lineChanges a))
      <$> analyzeCodeChanges defaultConfig exampleHost roundedRepo
            (commitBy "ann" "c3" false :: commits)
    = Some (Number.Finite 9007199254740994)
  ∧ (λ a, additions (lineChanges a))
      <$> analyzeCodeChanges defaultConfig exampleHost roundedRepo
            (reverse (commitBy "ann" "c3" false :: commits))
    = Some (Number.Finite 9007199254740992).
Proof. repeat split; reflexivity. Qed.

(** The ties of [mostChangedFiles] do depend on the order: the same three
    commits of [workRepo], oldest first. *)
Example mostChangedFiles_of_reversed_commits :
  mostChangedFiles
    <$> analyzeCodeChanges defaultConfig exampleHost workRepo (reverse workCommits)
  = Some [("a.go", 3); ("7", 1); ("b.md", 1); ("a.go" +:+ String TAB "c.go", 1);
          ("link", 1)].
Proof. reflexivity. Qed.

(** ** The size of the list of most changed files *)

Lemma uniqFrom_elem seen l k : k ∈ uniqFrom id seen l → k ∈ l.
Proof.
  revert seen. induction l as [|x l IH]; intros seen; simpl; [done|].
  case_bool_decide.
  - intros ?%IH. by right.
  - intros [->|?%IH]%elem_of_cons; [by left|by right].
Qed.

(** [mostChangedFiles] (gitService.js, lines 343-351) has as many entries as
    there are distinct changed paths, up to five; its paths are distinct,
    each of them is the path of a change record, and each count is at least
    one. *)
Theorem mostChangedFiles_size cfg host git commits a :
  analyzeCodeChanges cfg host git commits = Some a →
  length (mostChangedFiles a) = min 5 (totalFilesChanged a)
  ∧ NoDup (mostChangedFiles a).*1
  ∧ ∀ p n, (p, n) ∈ mostChangedFiles a →
           1 ≤ n ∧ p ∈ cr_path <$> changedFilesOf cfg host git commits.
Proof.
  intros (_ & _ & ->)%analyzeCodeChanges_Some.
  cbn [finish mostChangedFiles totalFilesChanged].
  fold (changedFilesOf cfg host git commits).
  set (files := changedFilesOf cfg host git commits).
  set (paths := cr_path <$> files).
  assert ((countBy cr_path files).*1 = uniqBy id paths) as Hkeys
    by (by rewrite countBy_fmap, countBy_keys).
  assert (sortWith byCountDesc (objectEntries (countBy cr_path files))
          ≡ₚ countBy cr_path files) as Hperm
    by (by rewrite sortWith_Permutation, objectEntries_Permutation).
  split; [|split].
  - unfold topChangedFiles. rewrite length_take, Hperm.
    rewrite <- (length_fmap fst), Hkeys.
    unfold uniqBy, paths. by rewrite <- uniqFrom_fmap, length_fmap.
  - unfold topChangedFiles. apply (sublist_NoDup _ (sortWith byCountDesc
      (objectEntries (countBy cr_path files))).*1).
    + rewrite Hperm, Hkeys. apply uniqFrom_NoDup.
    + apply fmap_sublist, sublist_take.
  - intros p n Hin.
    destruct (topChangedFiles_spec files) as (_ & Hcount & _).
    pose proof (Hcount p n Hin) as Hn. fold paths in Hn.
    assert (p ∈ paths) as Hp.
    { apply (uniqFrom_elem []). fold (uniqBy id paths). rewrite <- Hkeys.
      apply list_elem_of_fmap. exists (p, n). split; [done|].
      rewrite <- Hperm. eapply elem_of_sublist; [exact Hin|]. apply sublist_take. }
    split; [|done]. rewrite Hn.
    apply list_elem_of_split in Hp as (l1 & l2 & ->).
    rewrite filter_app, filter_cons, decide_True, length_app by done. simpl. lia.
Qed.

Lemma mostChangedFiles_size_witness :
  ∃ a, analyzeCodeChanges defaultConfig exampleHost workRepo workCommits = Some a
       ∧ length (mostChangedFiles a) = min 5 (totalFilesChanged a).
Proof.
  eexists. split; [reflexivity|].
  apply (mostChangedFiles_size defaultConfig exampleHost workRepo workCommits).
  reflexivity.
Defined.

(** ** The summary as sums over the reports *)

Lemma addRepos_totals reports : ∀ s0,
  let s := foldl addRepo s0 reports in
  Summary.totalCommits s
  = Summary.totalCommits s0 + sum_list_with (λ r, length (commits r)) reports
  ∧ Summary.totalFilesChanged s
    = Summary.totalFilesChanged s0 + analysisTotal totalFilesChanged reports
  ∧ added (Summary.fileChanges s)
    = added (Summary.fileChanges s0) + analysisTotal (λ an, added (fileChanges an)) reports
  ∧ modified (Summary.fileChanges s)
    = modified (Summary.fileChanges s0)
      + analysisTotal (λ an, modified (fileChanges an)) reports
  ∧ deleted (Summary.fileChanges s)
    = deleted (Summary.fileChanges s0)
      + analysisTotal (λ an, deleted (fileChanges an)) reports
  ∧ renamed (Summary.fileChanges s)
    = renamed (Summary.fileChanges s0)
      + analysisTotal (λ an, renamed (fileChanges an)) reports.
Proof.
  induction reports as [|r reports IH]; intros s0; cbn [foldl]; cbv zeta.
  - unfold analysisTotal. simpl. repeat split; lia.
  - destruct (IH (addRepo s0 r)) as (-> & -> & -> & -> & -> & ->).
    unfold analysisTotal, addRepo. cbn [sum_list_with].
    destruct (repoAnalysis r); simpl; repeat split; lia.
Qed.

(** The counters of the summary (reportService.js, lines 112-169) are sums
    over the reports: the commits over all of them, the file counters over
    the reports that have an analysis; a path changed in two repositories is
    counted twice in [totalFilesChanged]. The two line totals are the line
    changes of these reports added up from the left in double arithmetic,
    which is their sum as long as that is below 2^53. *)
Theorem generateSummaryStats_totals reports :
  let s := generateSummaryStats reports in
  Summary.totalCommits s = sum_list_with (λ r, length (commits r)) reports
  ∧ Summary.totalFilesChanged s = analysisTotal totalFilesChanged reports
  ∧ Summary.totalAdditions s = Number.sum (reportAdditions reports)
  ∧ Summary.totalDeletions s = Number.sum (reportDeletions reports)
  ∧ (Number.exact (reportAdditions reports) = true →
     Summary.totalAdditions s
     = Number.Finite (default 0%N (Number.total (reportAdditions reports))))
  ∧ (Number.exact (reportDeletions reports) = true →
     Summary.totalDeletions s
     = Number.Finite (default 0%N (Number.total (reportDeletions reports))))
  ∧ added (Summary.fileChanges s) = analysisTotal (λ an, added (fileChanges an)) reports
  ∧ modified (Summary.fileChanges s)
    = analysisTotal (λ an, modified (fileChanges an)) reports
  ∧ deleted (Summary.fileChanges s)
    = analysisTotal (λ an, deleted (fileChanges an)) reports
  ∧ renamed (Summary.fileChanges s)
    = analysisTotal (λ an, renamed (fileChanges an)) reports.
Proof.
  cbv zeta. unfold generateSummaryStats.
  destruct (addRepos_totals reports emptySummary)
    as (Hc & Hf & Hadd & Hmod & Hdel & Hren).
  destruct (addRepo_fold_line_totals reports emptySummary) as [Hins Hdels].
  cbv zeta in *. rewrite Hc, Hf, Hadd, Hmod, Hdel, Hren, Hins, Hdels. simpl.
  repeat split; try done; apply Number_sum_exact.
Qed.

Lemma generateSummaryStats_totals_witness :
  Summary.totalAdditions
    (generateSummaryStats [hugeReport; oneLineReport; oneLineReport])
  = Number.sum [Number.Finite 9007199254740992; Number.Finite 1; Number.Finite 1]
  ∧ Summary.totalAdditions (generateSummaryStats [oneLineReport; oneLineReport])
    = Number.Finite 2.
Proof.
  split.
  - apply (generateSummaryStats_totals [hugeReport; oneLineReport; oneLineReport]).
  - apply (generateSummaryStats_totals [oneLineReport; oneLineReport]). reflexivity.
Defined.

Lemma analysisTotal_absent {V} (field : Analysis → option V) (g : V → nat) reports :
  reportsWith field reports = [] →
  analysisTotal (λ an, from_option g 0 (field an)) reports = 0.
Proof.
  unfold reportsWith, analysisTotal.
  induction reports as [|r reports IH]; [done|].
  rewrite filter_cons. cbn [sum_list_with].
  destruct (repoAnalysis r) as [an|]; simpl.
  - destruct (field an); simpl; [done|]. intros ->%IH. done.
  - intros ->%IH. done.
Qed.

Lemma addRepos_fileTypes ext reports : ∀ s0,
  Summary.fileTypes (foldl addRepo s0 reports) !! ext
  = if decide (reportsWith (λ an, fileTypes an !! ext) reports = [])
    then Summary.fileTypes s0 !! ext
    else Some (default 0 (Summary.fileTypes s0 !! ext)
               + analysisTotal (λ an, default 0 (fileTypes an !! ext)) reports).
Proof.
  induction reports as [|r reports IH]; intros s0; cbn [foldl]; [done|].
  rewrite IH. clear IH.
  assert (Summary.fileTypes (addRepo s0 r) !! ext
          = match repoAnalysis r ≫= (λ an, fileTypes an !! ext) with
            | Some c => Some (default 0 (Summary.fileTypes s0 !! ext) + c)
            | None => Summary.fileTypes s0 !! ext
            end) as ->.
  { unfold addRepo. destruct (repoAnalysis r) as [an|]; simpl; [|done].
    by rewrite addFileType_fold_lookup. }
  pose proof (analysisTotal_absent (λ an, fileTypes an !! ext) id reports) as Hzero.
  unfold reportsWith, analysisTotal in *. rewrite filter_cons. cbn [sum_list_with].
  destruct (repoAnalysis r) as [an|]; simpl.
  - destruct (fileTypes an !! ext) as [c|]; simpl.
    + case_decide as Hrest; f_equal; [rewrite Hzero by done|]; lia.
    + done.
  - done.
Qed.

Lemma addRepos_commitsByAuthor who reports : ∀ s0,
  Summary.commitsByAuthor (foldl addRepo s0 reports) !! who
  = if decide (reportsWith (λ an, commitsByAuthor an !! who) reports = [])
    then Summary.commitsByAuthor s0 !! who
    else
      let s := default (AuthorStats.mk 0 0 0) (Summary.commitsByAuthor s0 !! who) in
      let total f :=
        analysisTotal (λ an, from_option f 0 (commitsByAuthor an !! who)) reports in
      Some (AuthorStats.mk (AuthorStats.commits s + total AuthorStats.commits)
              (AuthorStats.additions s + total AuthorStats.additions)
              (AuthorStats.deletions s + total AuthorStats.deletions)).
Proof.
  induction reports as [|r reports IH]; intros s0; cbn [foldl]; [done|].
  rewrite IH. clear IH.
  assert (Summary.commitsByAuthor (addRepo s0 r) !! who
          = match repoAnalysis r ≫= (λ an, commitsByAuthor an !! who) with
            | Some stats =>
                let s := default (AuthorStats.mk 0 0 0)
                           (Summary.commitsByAuthor s0 !! who) in
                Some (AuthorStats.mk
                        (AuthorStats.commits s + AuthorStats.commits stats)
                        (AuthorStats.additions s + AuthorStats.additions stats)
                        (AuthorStats.deletions s + AuthorStats.deletions stats))
            | None => Summary.commitsByAuthor s0 !! who
            end) as ->.
  { unfold addRepo. destruct (repoAnalysis r) as [an|]; simpl; [|done].
    by rewrite addAuthor_fold_lookup. }
  pose proof (λ g, analysisTotal_absent (λ an, commitsByAuthor an !! who) g reports)
    as Hzero.
  unfold reportsWith, analysisTotal in *. rewrite filter_cons. cbn [sum_list_with].
  cbv zeta.
  destruct (repoAnalysis r) as [an|]; simpl.
  - destruct (commitsByAuthor an !! who) as [stats|]; simpl.
    + case_decide as Hrest; f_equal; [rewrite !Hzero by done|]; simpl;
        f_equal; lia.
    + done.
  - done.
Qed.

(** The two dictionaries of the summary (reportService.js, lines 140-143 and
    151-164) are the key-wise sums of the dictionaries of the analyses: a key
    is present exactly when the analysis of some report has it, and its value
    is then the sum of the values over the reports. *)
Theorem generateSummaryStats_lookup reports :
  let s := generateSummaryStats reports in
  (∀ ext,
     Summary.fileTypes s !! ext
     = if decide (reportsWith (λ an, fileTypes an !! ext) reports = []) then None
       else Some (analysisTotal (λ an, default 0 (fileTypes an !! ext)) reports))
  ∧ (∀ who,
       let total f :=
         analysisTotal (λ an, from_option f 0 (commitsByAuthor an !! who)) reports in
       Summary.commitsByAuthor s !! who
       = if decide (reportsWith (λ an, commitsByAuthor an !! who) reports = [])
         then None
         else Some (AuthorStats.mk (total AuthorStats.commits)
                      (total AuthorStats.additions) (total AuthorStats.deletions))).
Proof.
  split.
  - intros ext. unfold generateSummaryStats. rewrite addRepos_fileTypes.
    simpl. by rewrite lookup_empty.
  - intros who. unfold generateSummaryStats. rewrite addRepos_commitsByAuthor.
    simpl. by rewrite lookup_empty.
Qed.

(** ** The full report *)

Lemma StronglySorted_weaken {A} (R R' : relation A) l :
  (∀ a b, R a b → R' a b) → StronglySorted R l → StronglySorted R' l.
Proof.
  intros Himpl. induction 1 as [|a l _ IH Hall]; constructor; [done|].
  eapply Forall_impl; [exact Hall|]. auto.
Qed.

Lemma elem_of_concat {A} (x : A) (ls : list (list A)) :
  x ∈ concat ls ↔ ∃ l, x ∈ l ∧ l ∈ ls.
Proof.
  induction ls as [|l0 ls IH]; simpl.
  - rewrite elem_of_nil. split; [done|]. by intros (l & _ & ?%elem_of_nil).
  - rewrite elem_of_app, IH. split.
    + intros [?|(l & ? & ?)]; [exists l0|exists l]; (split; [done|]);
        [by left|by right].
    + intros (l & Hx & [->|?]%elem_of_cons); [by left|right; eauto].
Qed.

Section FullReport.
Context (cfg : Config) (host : Host) (simpleGit : string → Git).

Lemma reportIfCommits_length p : length (reportIfCommits cfg host simpleGit p) ≤ 1.
Proof. unfold reportIfCommits. case_match; simpl; lia. Qed.

Lemma reportIfCommits_elem r p :
  r ∈ reportIfCommits cfg host simpleGit p
  ↔ r = generateRepoReport cfg host (simpleGit p) p ∧ 0 < length (commits r).
Proof.
  unfold reportIfCommits. destruct (0 <? length _) eqn:Hlen.
  - apply Nat.ltb_lt in Hlen. rewrite list_elem_of_singleton.
    split; [by intros ->|by intros [-> _]].
  - apply Nat.ltb_ge in Hlen. rewrite elem_of_nil.
    split; [done|]. intros [-> ?]. lia.
Qed.

(** The repositories of the full report (reportService.js, lines 69-104)
    are the reports, with at least one commit, of the paths; they come by
    descending number of commits, and reports with the same number of
    commits keep the order of the paths.  [reposWithCommits] is their number
    and is at most [totalRepos]. *)
Theorem generateFullReport_repositories repoPaths :
  let report := generateFullReport cfg host simpleGit repoPaths in
  let found := concat (reportIfCommits cfg host simpleGit <$> repoPaths) in
  (∀ r, r ∈ repositories report
        ↔ ∃ p, p ∈ repoPaths ∧ r = generateRepoReport cfg host (simpleGit p) p
               ∧ 0 < length (commits r))
  ∧ repositories report ≡ₚ found
  ∧ StronglySorted (λ a b, length (commits b) ≤ length (commits a))
      (repositories report)
  ∧ (∀ n, filter (λ r, length (commits r) = n) (repositories report)
          = filter (λ r, length (commits r) = n) found)
  ∧ reposWithCommits report = length (repositories report)
  ∧ reposWithCommits report ≤ totalRepos report.
Proof.
  cbv zeta. unfold generateFullReport. cbn [repositories reposWithCommits totalRepos].
  rewrite collectReports_concat.
  set (found := concat (reportIfCommits cfg host simpleGit <$> repoPaths)).
  assert (sortWith byCommitsDesc found ≡ₚ found) as Hperm by apply sortWith_Permutation.
  split; [|split; [done|split; [|split; [|split; [done|]]]]].
  - intros r. rewrite Hperm. unfold found. rewrite elem_of_concat. split.
    + intros (l & Hr & (p & -> & Hp)%list_elem_of_fmap).
      apply reportIfCommits_elem in Hr as [-> ?]. eauto.
    + intros (p & Hp & Hr & Hlen). exists (reportIfCommits cfg host simpleGit p).
      split; [by apply reportIfCommits_elem|]. apply list_elem_of_fmap. eauto.
  - eapply StronglySorted_weaken;
      [|apply (sortWith_sorted byCommitsDesc _ byCommitsDesc_key)].
    simpl. intros a b. lia.
  - intros n.
    rewrite (list_filter_iff _ (λ r, (- Z.of_nat (length (commits r)))%Z
                                     = (- Z.of_nat n)%Z)) by (intros r; lia).
    rewrite (sortWith_stable byCommitsDesc _ byCommitsDesc_key).
    apply list_filter_iff. intros r. lia.
  - rewrite Hperm. unfold found. clear.
    induction repoPaths as [|p l IH]; [simpl; lia|].
    rewrite fmap_cons. cbn [concat length]. rewrite length_app.
    pose proof (reportIfCommits_length p). lia.
Qed.

Lemma addRepo_no_commits s r :
  commits r = [] → repoAnalysis r = None → addRepo s r = s.
Proof.
  intros Hc Ha. unfold addRepo. rewrite Hc, Ha. destruct s. simpl. f_equal. lia.
Qed.

Lemma generateRepoReport_commits_or_nothing p :
  let r := generateRepoReport cfg host (simpleGit p) p in
  0 < length (commits r) ∨ (commits r = [] ∧ repoAnalysis r = None).
Proof.
  cbv zeta. unfold generateRepoReport.
  repeat case_match; simpl; auto.
  left. apply Nat.eqb_neq in H1. lia.
Qed.

Lemma addRepo_fold_all_reports repoPaths : ∀ s,
  foldl addRepo s (concat (reportIfCommits cfg host simpleGit <$> repoPaths))
  = foldl addRepo s ((λ p, generateRepoReport cfg host (simpleGit p) p) <$> repoPaths).
Proof.
  induction repoPaths as [|p l IH]; intros s; simpl; [done|].
  rewrite foldl_app, IH. f_equal.
  unfold reportIfCommits.
  destruct (generateRepoReport_commits_or_nothing p) as [Hlen|[Hc Ha]].
  - apply Nat.ltb_lt in Hlen. by rewrite Hlen.
  - rewrite Hc. simpl. symmetry. by apply addRepo_no_commits.
Qed.

Lemma omap_repoAnalysis_all_reports repoPaths :
  omap repoAnalysis (concat (reportIfCommits cfg host simpleGit <$> repoPaths))
  = omap repoAnalysis
      ((λ p, generateRepoReport cfg host (simpleGit p) p) <$> repoPaths).
Proof.
  induction repoPaths as [|p l IH]; [done|].
  rewrite !fmap_cons. cbn [concat]. rewrite omap_app, IH. cbn [omap list_omap].
  unfold reportIfCommits.
  destruct (generateRepoReport_commits_or_nothing p) as [Hlen|[Hc Ha]].
  - apply Nat.ltb_lt in Hlen. rewrite Hlen. cbn [omap list_omap].
    by destruct (repoAnalysis _).
  - rewrite Hc, Ha. done.
Qed.

(** The summary of the full report and the summary of the reports of all
    paths in their order (reportService.js, lines 69-95): dropping the
    reports without commits changes nothing, and sorting changes neither the
    counts nor the dictionaries; the line totals are the same when the line
    changes of the reports add up to less than 2^53. *)
Theorem generateFullReport_summary repoPaths :
  let report := generateFullReport cfg host simpleGit repoPaths in
  let all := (λ p, generateRepoReport cfg host (simpleGit p) p) <$> repoPaths in
  generateSummaryStats (collectReports cfg host simpleGit repoPaths)
  = generateSummaryStats all
  ∧ withoutLineTotals (summary report) = withoutLineTotals (generateSummaryStats all)
  ∧ (Number.exact (reportAdditions all) = true →
     Number.exact (reportDeletions all) = true →
     summary report = generateSummaryStats all).
Proof.
  cbv zeta. unfold generateFullReport. cbn [summary].
  rewrite collectReports_concat.
  set (found := concat (reportIfCommits cfg host simpleGit <$> repoPaths)).
  set (all := (λ p, generateRepoReport cfg host (simpleGit p) p) <$> repoPaths).
  assert (generateSummaryStats found = generateSummaryStats all) as Hall
    by apply addRepo_fold_all_reports.
  assert (withoutLineTotals (generateSummaryStats (sortWith byCommitsDesc found))
          = withoutLineTotals (generateSummaryStats all)) as Hcounts.
  { rewrite <- Hall. apply addRepo_fold_permutation, sortWith_Permutation. }
  split; [done|]. split; [done|]. intros Hadd Hdel.
  assert (omap repoAnalysis (sortWith byCommitsDesc found) ≡ₚ omap repoAnalysis all)
    as Hperm.
  { unfold all. rewrite <- omap_repoAnalysis_all_reports. fold found.
    by rewrite sortWith_Permutation. }
  apply Summary_eq; [done|..]; unfold generateSummaryStats.
  - rewrite !(proj1 (addRepo_fold_line_totals _ _)). symmetry.
    apply (Number_sum_Permutation (reportAdditions all)); [|done].
    unfold reportAdditions. by rewrite Hperm.
  - rewrite !(proj2 (addRepo_fold_line_totals _ _)). symmetry.
    apply (Number_sum_Permutation (reportDeletions all)); [|done].
    unfold reportDeletions. by rewrite Hperm.
Qed.

Lemma authorCommitTotal_addAuthor_fold dst src :
  authorCommitTotal (map_fold addAuthor dst src)
  = authorCommitTotal dst + authorCommitTotal src.
Proof.
  induction src as [|who stats src Hnew Hfirst IH] using map_first_key_ind.
  - rewrite map_fold_empty. unfold authorCommitTotal at 3. rewrite map_fold_empty. lia.
  - rewrite map_fold_insert_first_key by done.
    rewrite (authorCommitTotal_insert_new src) by done.
    set (M := map_fold addAuthor dst src) in *.
    unfold addAuthor. cbv zeta.
    match goal with
    | |- authorCommitTotal (<[_ := ?s]> _) = _ =>
        pose proof (authorCommitTotal_insert M who s) as Hins
    end.
    destruct (M !! who); simpl in *; lia.
Qed.

Lemma generateRepoReport_author_commits p :
  let r := generateRepoReport cfg host (simpleGit p) p in
  from_option (λ an, authorCommitTotal (commitsByAuthor an)) 0 (repoAnalysis r)
  ≤ length (commits r).
Proof.
  cbv zeta. unfold generateRepoReport. repeat case_match; simpl; try lia.
  destruct (analyzeCodeChanges _ _ _ _) as [an|] eqn:Han; simpl; [|lia].
  apply analyzeCodeChanges_Some in Han as (_ & _ & ->).
  cbn [finish commitsByAuthor].
  pose proof (authorsTotal_analyzeLoop cfg host (simpleGit p)
                (initialState (getCommitsInDateRange host (simpleGit p)))
                (getCommitsInDateRange host (simpleGit p))) as Hle.
  unfold authorsTotal in Hle. simpl in Hle. exact Hle.
Qed.

Lemma addRepo_author_commits s r :
  from_option (λ an, authorCommitTotal (commitsByAuthor an)) 0 (repoAnalysis r)
  ≤ length (commits r) →
  authorCommitTotal (Summary.commitsByAuthor s) ≤ Summary.totalCommits s →
  authorCommitTotal (Summary.commitsByAuthor (addRepo s r))
  ≤ Summary.totalCommits (addRepo s r).
Proof.
  unfold addRepo. destruct (repoAnalysis r) as [an|]; simpl.
  - rewrite authorCommitTotal_addAuthor_fold. lia.
  - lia.
Qed.

(** In the summary of the full report the commit counts of all authors add
    up to at most [totalCommits] (gitService.js, lines 319-328;
    reportService.js, lines 133-164): commits whose analysis failed, and all
    commits when the analysis is switched off, are in [totalCommits] only. *)
Theorem generateFullReport_author_commits repoPaths :
  let s := summary (generateFullReport cfg host simpleGit repoPaths) in
  authorCommitTotal (Summary.commitsByAuthor s) ≤ Summary.totalCommits s.
Proof.
  cbv zeta. unfold generateFullReport. cbn [summary].
  set (reports := sortWith byCommitsDesc _).
  assert (Forall (λ r, from_option (λ an, authorCommitTotal (commitsByAuthor an)) 0
                         (repoAnalysis r) ≤ length (commits r)) reports) as Hall.
  { unfold reports. rewrite sortWith_Permutation, collectReports_concat.
    apply Forall_forall. intros r (l & Hr & (p & -> & _)%list_elem_of_fmap)%elem_of_concat.
    unfold reportIfCommits in Hr. case_match; [|by apply elem_of_nil in Hr].
    apply list_elem_of_singleton in Hr as ->. apply generateRepoReport_author_commits. }
  unfold generateSummaryStats.
  assert (authorCommitTotal (Summary.commitsByAuthor emptySummary)
          ≤ Summary.totalCommits emptySummary) as Hinit by (by compute).
  revert Hinit. generalize emptySummary.
  induction Hall as [|r l Hr _ IH]; intros s Hs; simpl; [done|].
  apply IH. by apply addRepo_author_commits.
Qed.

End FullReport.

(** ** Line changes, whatever fails *)

(** [lineChanges] whatever fails (gitService.js, lines 270-293): the lines
    of the commits added up from the left in double arithmetic, which is
    their sum as long as that is below 2^53. The lines of a first commit are
    the numbers of the stat text, when the tree listing and the stat resolve
    and the pattern matches; those of another commit are the first diff
    summary when it resolves, also when the name-status diff after it is
    rejected; the other commits add nothing. *)
Theorem lineChanges_sums cfg host git commits a :
  analyzeCodeChanges cfg host git commits = Some a →
  let lines := omap (linesOfCommit git) commits in
  additions (lineChanges a) = Number.sum lines.*1
  ∧ deletions (lineChanges a) = Number.sum lines.*2
  ∧ (Number.exact lines.*1 = true →
     additions (lineChanges a) = Number.Finite (default 0%N (Number.total lines.*1)))
  ∧ (Number.exact lines.*2 = true →
     deletions (lineChanges a) = Number.Finite (default 0%N (Number.total lines.*2))).
Proof.
  intros (_ & _ & ->)%analyzeCodeChanges_Some lines. cbn [finish lineChanges].
  destruct (analyzeLoop_sums cfg host git commits (initialState commits))
    as (_ & Hsum & _).
  cbv zeta in Hsum. rewrite Hsum. fold lines.
  rewrite additions_addLines, deletions_addLines. simpl.
  repeat split; try done; apply Number_sum_exact.
Qed.

Lemma lineChanges_sums_witness :
  ∃ a, analyzeCodeChanges defaultConfig exampleHost flakyRepo workCommits = Some a
       ∧ additions (lineChanges a) = 5 + 3 + 7
       ∧ deletions (lineChanges a) = 2 + 1 + 0.
Proof.
  eexists. split; [reflexivity|].
  destruct (lineChanges_sums defaultConfig exampleHost flakyRepo workCommits _ eq_refl)
    as (_ & _ & Hadd & Hdel).
  split; [exact (Hadd eq_refl)|exact (Hdel eq_refl)].
Defined.

(** ** Commit details and the analysis *)

(** [getCommitDetails] (gitService.js, lines 145-177) and the loop of the
    analysis read the changed files of a commit the same way: when the
    analysis files the changes of a commit and [git.show] resolves, the
    details have the same files.  The details do not depend on the stat or
    on the diff summary: they are there exactly when [git.show] and the
    listing resolve, and otherwise the error is the message of the first
    rejected query. *)
Theorem getCommitDetails_spec show git c :
  let d := getCommitDetails show git (hash c) (isFirstCommit c) in
  let listing := if isFirstCommit c then lsTree git (hash c)
                 else diffNameStatus git (hash c) in
  (∀ files text,
     changedFilesOfCommit git c = Some files → show (hash c) = Resolved text →
     d = Details (hash c) text files)
  ∧ (∀ text files,
       d = Details (hash c) text files
       ↔ show (hash c) = Resolved text
         ∧ ∃ out, listing = Resolved out
                  ∧ files = (if isFirstCommit c then parseFirstCommitFiles out
                             else parseGitDiff out))
  ∧ (∀ message,
       d = DetailsError (hash c) message
       ↔ show (hash c) = Rejected message
         ∨ (is_Some (resolved (show (hash c))) ∧ listing = Rejected message)).
Proof.
  cbv zeta. unfold getCommitDetails, changedFilesOfCommit.
  split; [|split].
  - intros files text Hfiles ->.
    destruct (isFirstCommit c).
    + destruct (lsTree git (hash c)); [|done].
      destruct (showStat git (hash c)); [|done].
      injection Hfiles as <-. done.
    + destruct (diffSummary git (hash c)); [|done].
      destruct (diffNameStatus git (hash c)); [|done].
      injection Hfiles as <-. done.
  - intros text files.
    destruct (show (hash c)), (isFirstCommit c), (lsTree git (hash c)),
      (diffNameStatus git (hash c)); simpl; naive_solver.
  - intros message.
    destruct (show (hash c)), (isFirstCommit c), (lsTree git (hash c)),
      (diffNameStatus git (hash c)); simpl; split;
      try (intros [= <-]); try naive_solver.
    all: intros [?|[[? ?] ?]]; naive_solver.
Qed.

Lemma getCommitDetails_spec_witness :
  let c := commitBy "bob" "c2" false in
  getCommitDetails (λ _, Resolved "commit c2") workRepo (hash c) (isFirstCommit c)
  = Details "c2" "commit c2"
      [{| path := "a.go"; type := Modified; status := "M" |};
       {| path := "a.go" +:+ String TAB "c.go"; type := Copied; status := "C100" |};
       {| path := "link"; type := Unknown; status := "T" |}].
Proof.
  apply (proj1 (getCommitDetails_spec (λ _, Resolved "commit c2") workRepo
                  (commitBy "bob" "c2" false))); reflexivity.
Defined.

(** ** Further examples *)

Lemma generateFullReport_summary_witness :
  let paths := ["names"; "unborn"; "work"] in
  summary (generateFullReport defaultConfig exampleHost exampleRepos paths)
  = generateSummaryStats
      ((λ p, generateRepoReport defaultConfig exampleHost (exampleRepos p) p) <$> paths).
Proof.
  apply (proj2 (proj2 (generateFullReport_summary defaultConfig exampleHost exampleRepos
                         ["names"; "unborn"; "work"]))); reflexivity.
Defined.

(** Past 2^53 the sort shows in the line totals: by the number of commits
    the report of [threeCommits] comes first, and the total of the full
    report is not the total of the reports in the order of the paths. *)
Example generateFullReport_summary_past_exact_range :
  let simpleGit p :=
    if String.eqb p "three" then threeCommits
    else if String.eqb p "one" then statRepo " 1 file changed, 1 insertion(+)"
    else statRepo "1 file changed, 9007199254740992 insertions(+)" in
  let paths := ["huge"; "one"; "three"] in
  let all := (λ p, generateRepoReport defaultConfig exampleHost (simpleGit p) p) <$> paths in
  reportAdditions all
  = [Number.Finite 9007199254740992; Number.Finite 1; Number.Finite 6]
  ∧ Summary.totalAdditions
      (summary (generateFullReport defaultConfig exampleHost simpleGit paths))
    = Number.Finite 9007199254741000
  ∧ Summary.totalAdditions (generateSummaryStats all) = Number.Finite 9007199254740998.
Proof. repeat split; reflexivity. Qed.

Lemma getRepositoryInfo_spec_witness :
  let info := getRepositoryInfo exampleHost brokenRemotesRepo "work" in
  isEmpty info = true.
Proof.
  apply (getRepositoryInfo_spec exampleHost brokenRemotesRepo "work").
  by eexists.
Defined.

Lemma changedFilesOf_concat_witness :
  ∃ c, c ∈ workCommits
       ∧ "c3" = hash c ∧ is_Some (changedFilesOfCommit flakyRepo c).
Proof.
  apply (proj2 (changedFilesOf_concat defaultConfig exampleHost flakyRepo workCommits)
           {| cr_path := "7"; cr_type := Added; cr_commit := "c3" |}).
  compute_done.
Defined.
